(** * repo-concat: file selection engine and repository cache

    A shallow embedding of the two copies of the core that the repository
    ships: the command-line front end (package [main], module [Main] below)
    and the terminal UI (package [tui], module [Tui] below).  Both packages
    define functions of the same names ([matchesPattern], [performDryRun],
    [isTextFile], [getCachedRepo], ...); where their bodies differ, each
    module follows its own source text.  Package [main] comes in two copies,
    with and without the coloured output of package [cli]; the functions
    embedded here have the same text in both, up to the wording of what they
    print.

    Go strings are byte sequences: they are [string] here.  The standard
    library functions the code calls ([strings.*], [regexp.QuoteMeta],
    [filepath.Walk], [os.*]) are modelled next to the code that uses them;
    the regular expression engine, [filepath.Rel], [filepath.Base], the JSON
    codec and the [git clone] collaborator are interfaces (type classes),
    with sample instances used to evaluate concrete scenarios. *)

From Stdlib Require Import String Ascii List ZArith Bool Lia.
From stdpp Require Import base option strings gmap list fin_maps pretty.
From Equations Require Import Equations.

Local Open Scope Z_scope.

(** Go's [error], as the message it carries. *)
Definition error := string.

(** A Go result pair [(value, err)] where exactly one side is meaningful. *)
Inductive result (A : Type) : Type :=
| Ok (a : A)
| Err (e : error).
Arguments Ok {A} a.
Arguments Err {A} e.

(** ** Package [strings] *)
Module strings.

(** [strings.HasPrefix(s, prefix)] *)
Fixpoint HasPrefix (s prefix : string) {struct prefix} : bool :=
  match prefix with
  | EmptyString => true
  | String p prefix' =>
      match s with
      | EmptyString => false
      | String c s' => Ascii.eqb c p && HasPrefix s' prefix'
      end
  end.

(** [s[n:]] *)
Fixpoint drop (n : nat) (s : string) : string :=
  match n, s with
  | O, _ => s
  | S _, EmptyString => EmptyString
  | S n', String _ s' => drop n' s'
  end.

(** [s[:n]] *)
Fixpoint take (n : nat) (s : string) : string :=
  match n, s with
  | O, _ => EmptyString
  | S _, EmptyString => EmptyString
  | S n', String c s' => String c (take n' s')
  end.

(** [strings.HasSuffix(s, suffix)]:
    [len(s) >= len(suffix) && s[len(s)-len(suffix):] == suffix] *)
Definition HasSuffix (s suffix : string) : bool :=
  Nat.leb (String.length suffix) (String.length s)
  && String.eqb (drop (String.length s - String.length suffix) s) suffix.

(** [strings.TrimPrefix(s, prefix)] *)
Definition TrimPrefix (s prefix : string) : string :=
  if HasPrefix s prefix then drop (String.length prefix) s else s.

(** [strings.TrimSuffix(s, suffix)] *)
Definition TrimSuffix (s suffix : string) : string :=
  if HasSuffix s suffix
  then take (String.length s - String.length suffix) s
  else s.

(** [strings.Contains(s, substr)] *)
Fixpoint Contains (s substr : string) : bool :=
  HasPrefix s substr
  || match s with
     | EmptyString => false
     | String _ s' => Contains s' substr
     end.

(** [strings.Split(s, sep)] for a one-byte separator (the only use in the
    sources is [strings.Split(relativePath, string(filepath.Separator))]).
    The result always has at least one element. *)
Fixpoint Split (s : string) (sep : ascii) : list string :=
  match s with
  | EmptyString => [EmptyString]
  | String c s' =>
      if Ascii.eqb c sep then EmptyString :: Split s' sep
      else match Split s' sep with
           | part :: parts => String c part :: parts
           | [] => [String c EmptyString]
           end
  end.

(** [strings.ReplaceAll(s, old, new)] for a non-empty [old]: the
    non-overlapping occurrences of [old] are replaced from left to right.
    [skip] counts the bytes of an occurrence still to be stepped over. *)
Fixpoint ReplaceAll_from (skip : nat) (s old new : string) : string :=
  match s with
  | EmptyString => EmptyString
  | String c s' =>
      match skip with
      | S k => ReplaceAll_from k s' old new
      | O =>
          if HasPrefix s old
          then new +:+ ReplaceAll_from (String.length old - 1) s' old new
          else String c (ReplaceAll_from O s' old new)
      end
  end.

Definition ReplaceAll (s old new : string) : string :=
  ReplaceAll_from O s old new.

(** [strings.TrimLeft(s, cutset)] for a one-byte cutset. *)
Fixpoint TrimLeft (s : string) (cut : ascii) : string :=
  match s with
  | EmptyString => EmptyString
  | String c s' => if Ascii.eqb c cut then TrimLeft s' cut else s
  end.

(** [strings.TrimRight(s, cutset)] for a one-byte cutset. *)
Fixpoint TrimRight (s : string) (cut : ascii) : string :=
  match s with
  | EmptyString => EmptyString
  | String c s' =>
      match TrimRight s' cut with
      | EmptyString => if Ascii.eqb c cut then EmptyString else String c EmptyString
      | rest => String c rest
      end
  end.

(** [strings.Trim(s, cutset)] for a one-byte cutset. *)
Definition Trim (s : string) (cut : ascii) : string :=
  TrimRight (TrimLeft s cut) cut.

End strings.

(** ** Package [regexp]: interface and [QuoteMeta] *)

(** The part of package [regexp] the sources use: [regexp.Compile] and
    [Regexp.MatchString]. *)
Class RegexpLib := {
  Regexp : Type;
  regexp_Compile : string -> result Regexp;
  MatchString : Regexp -> string -> bool
}.

Module regexp.

(** The bytes [regexp.QuoteMeta] escapes: [\.+*?()|[]{}^$]. *)
Definition specialBytes : list ascii :=
  ["\"; "."; "+"; "*"; "?"; "("; ")"; "|"; "["; "]"; "{"; "}"; "^"; "$"]%char.

Definition special (b : ascii) : bool :=
  existsb (Ascii.eqb b) specialBytes.

(** [regexp.QuoteMeta(s)]: a backslash before every special byte. *)
Fixpoint QuoteMeta (s : string) : string :=
  match s with
  | EmptyString => EmptyString
  | String c s' =>
      if special c then String "\"%char (String c (QuoteMeta s'))
      else String c (QuoteMeta s')
  end.

End regexp.

(** ** A sample regular expression engine

    An executable engine for the fragment of Go's RE2 syntax that the built-in
    exclusion patterns and the output of [globToRegex] use: literal bytes,
    backslash-escaped punctuation, [.], the repetition operators, alternation,
    groups and the anchors.  Without flags, as [regexp.Compile] parses, [^]
    and [$] match at the beginning and the end of the text only and [.] does
    not match a newline.  Patterns and texts are taken as ASCII.

    Go's parser rejects a repetition operator that has no argument (at the
    start of the pattern, after an opening parenthesis or a vertical bar) and a
    repetition operator stacked on another one; a question mark right after a
    repetition operator makes it non-greedy, which does not change whether a
    text matches.  Syntax outside the fragment (character classes, counted
    repetition, group flags, escapes of letters and digits, bytes above 127) is
    reported as [Unsupported]: the engine makes no statement about it.
    Error messages leave out the quotation of the offending text. *)
Module RE2Fragment.

Inductive re : Type :=
| ReEmpty
| ReLit (c : ascii)
| ReAnyNotNL
| ReBeginText
| ReEndText
| ReCat (a b : re)
| ReAlt (a b : re)
| ReStar (a : re).

Definition RePlus (a : re) : re := ReCat a (ReStar a).
Definition ReQuest (a : re) : re := ReAlt a ReEmpty.

Inductive parse_result : Type :=
| Parsed (r : re)
| SyntaxError (msg : string)
| Unsupported.

(** A parenthesis level being parsed: the alternatives already closed and the
    items of the current concatenation, both most recent first. *)
Record frame := { alts : list re; cur : list re }.

Definition empty_frame : frame := {| alts := []; cur := [] |}.

Definition concat (items : list re) : re :=
  fold_left (fun acc a => ReCat a acc) items ReEmpty.

Definition close (f : frame) : re :=
  fold_left (fun acc a => ReAlt a acc) (alts f) (concat (cur f)).

Definition push (a : re) (f : frame) : frame :=
  {| alts := alts f; cur := a :: cur f |}.

(** What precedes the next byte: nothing special, a repetition operator that
    may still take its non-greedy mark, a finished repetition, or a
    backslash. *)
Inductive lexstate := Plain | Repeated | RepeatedLazy | Escaping.

Definition is_alnum (c : ascii) : bool :=
  let n := nat_of_ascii c in
  ((48 <=? n) && (n <=? 57) || (65 <=? n) && (n <=? 90)
   || (97 <=? n) && (n <=? 122))%nat.

Definition is_ascii (c : ascii) : bool := (nat_of_ascii c <? 128)%nat.

Definition repeat_op (c : ascii) : option (re -> re) :=
  if Ascii.eqb c "*" then Some ReStar
  else if Ascii.eqb c "+" then Some RePlus
  else if Ascii.eqb c "?" then Some ReQuest
  else None.

Fixpoint parse_go (s : string) (stack : list frame) (f : frame)
    (st : lexstate) : parse_result :=
  match s with
  | EmptyString =>
      match st with
      | Escaping => SyntaxError "trailing backslash at end of expression"
      | _ =>
          match stack with
          | [] => Parsed (close f)
          | _ :: _ => SyntaxError "missing closing )"
          end
      end
  | String c s' =>
      match st with
      | Escaping =>
          if is_ascii c && negb (is_alnum c)
          then parse_go s' stack (push (ReLit c) f) Plain
          else Unsupported
      | _ =>
          match repeat_op c with
          | Some op =>
              match st with
              | Plain =>
                  match cur f with
                  | a :: items =>
                      parse_go s' stack {| alts := alts f; cur := op a :: items |}
                        Repeated
                  | [] => SyntaxError "missing argument to repetition operator"
                  end
              | Repeated =>
                  if Ascii.eqb c "?" then parse_go s' stack f RepeatedLazy
                  else SyntaxError "invalid nested repetition operator"
              | _ => SyntaxError "invalid nested repetition operator"
              end
          | None =>
              if Ascii.eqb c "\" then parse_go s' stack f Escaping
              else if Ascii.eqb c "(" then
                match s' with
                | String "?" _ => Unsupported
                | _ => parse_go s' (f :: stack) empty_frame Plain
                end
              else if Ascii.eqb c ")" then
                match stack with
                | parent :: stack' => parse_go s' stack' (push (close f) parent) Plain
                | [] => SyntaxError "unexpected )"
                end
              else if Ascii.eqb c "|" then
                parse_go s' stack {| alts := concat (cur f) :: alts f; cur := [] |} Plain
              else if Ascii.eqb c "." then parse_go s' stack (push ReAnyNotNL f) Plain
              else if Ascii.eqb c "^" then parse_go s' stack (push ReBeginText f) Plain
              else if Ascii.eqb c "$" then parse_go s' stack (push ReEndText f) Plain
              else if Ascii.eqb c "[" || Ascii.eqb c "{" || negb (is_ascii c)
              then Unsupported
              else parse_go s' stack (push (ReLit c) f) Plain
          end
      end
  end.

Definition parse (s : string) : parse_result :=
  parse_go s [] empty_frame Plain.

Definition Compile (s : string) : result re :=
  match parse s with
  | Parsed r => Ok r
  | SyntaxError msg => Err ("error parsing regexp: " +:+ msg)
  | Unsupported => Err "outside the modelled fragment"
  end.

(** Backtracking matcher in continuation-passing style.  [bot] tells whether
    the position is the beginning of the text; [k] receives the position
    after the match.  A starred item is iterated only while it consumes
    input, so the length of the rest bounds the iterations. *)
Fixpoint matches (r : re) (bot : bool) (s : string)
    (k : bool -> string -> bool) : bool :=
  match r with
  | ReEmpty => k bot s
  | ReLit c =>
      match s with
      | String x s' => Ascii.eqb x c && k false s'
      | EmptyString => false
      end
  | ReAnyNotNL =>
      match s with
      | String x s' => negb (Ascii.eqb x "010") && k false s'
      | EmptyString => false
      end
  | ReBeginText => bot && k bot s
  | ReEndText =>
      match s with
      | EmptyString => k bot s
      | String _ _ => false
      end
  | ReCat a b => matches a bot s (fun bot' s' => matches b bot' s' k)
  | ReAlt a b => matches a bot s k || matches b bot s k
  | ReStar a =>
      (fix star (fuel : nat) (bot : bool) (s : string) {struct fuel} : bool :=
         k bot s
         || match fuel with
            | O => false
            | S fuel' =>
                matches a bot s (fun bot' s' =>
                  Nat.ltb (String.length s') (String.length s)
                  && star fuel' bot' s')
            end) (String.length s) bot s
  end.

(** An unanchored search: a match may start at any position. *)
Fixpoint search (r : re) (bot : bool) (s : string) : bool :=
  matches r bot s (fun _ _ => true)
  || match s with
     | EmptyString => false
     | String _ s' => search r false s'
     end.

#[export] Instance lib : RegexpLib := {|
  Regexp := re;
  regexp_Compile := Compile;
  MatchString r s := search r true s
|}.

End RE2Fragment.

(** ** The host: file store, clock and trace

    The file store is flat: a path exists when it has a node, and the
    descendants of a directory are the paths that extend it by a slash.
    Paths are taken in the clean form in which the kernel resolves them.
    Permissions are not modelled, so a call fails only for the reasons
    written out below. *)
Inductive Node : Type :=
| RegularFile (content : string)
| Directory.

(** Calls that reach outside the process, in the order they are made. *)
Inductive IOEvent : Type :=
| EvStat (path : string)
| EvReadFile (path : string)
| EvWriteFile (path : string)
| EvRemove (path : string)
| EvRemoveAll (path : string)
| EvMkdirAll (path : string)
| EvMkdirTemp (path : string)
| EvRename (oldpath newpath : string)
| EvClone (url dir : string)
| EvPrint (msg : string).

(** [time.Time] as a count of nanoseconds; [time.Time{}] is [0].  The n-th
    call of [time.Now] reads [clock n]. *)
Record World : Type := mkWorld {
  files : gmap string Node;
  clock : nat -> Z;
  reads : nat;
  temps : nat;
  trace : list IOEvent
}.

Definition time_Minute : Z := 60 * 1000000000.

(** [t.After(u)] *)
Definition After (t u : Z) : bool := u <? t.

(** Effectful code threads the world. *)
Definition IO (A : Type) : Type := World -> A * World.

#[export] Instance IO_ret : MRet IO := fun A a w => (a, w).
#[export] Instance IO_bind : MBind IO :=
  fun A B k c w => let '(a, w') := c w in k a w'.

Definition emit (e : IOEvent) : IO unit :=
  fun w => (tt, mkWorld (files w) (clock w) (reads w) (temps w) (trace w ++ [e])).

Definition getFiles : IO (gmap string Node) := fun w => (files w, w).

Definition putFiles (m : gmap string Node) : IO unit :=
  fun w => (tt, mkWorld m (clock w) (reads w) (temps w) (trace w)).

Definition time_Now : IO Z :=
  fun w => (clock w (reads w),
            mkWorld (files w) (clock w) (S (reads w)) (temps w) (trace w)).

Definition fmt_Print (msg : string) : IO unit := emit (EvPrint msg).

(** [k] is [p] or lies below it. *)
Definition under (p k : string) : Prop :=
  k = p \/ strings.HasPrefix k (p +:+ "/") = true.

#[export] Instance under_dec p k : Decision (under p k).
Proof. unfold under. apply _. Defined.

(** The paths that [path] lies below: its prefixes that end just before a
    separator. *)
Fixpoint ancestors_from (before rest : string) : list string :=
  match rest with
  | EmptyString => []
  | String c rest' =>
      let further := ancestors_from (before +:+ String c EmptyString) rest' in
      if Ascii.eqb c "/" then before :: further else further
  end.

Definition ancestors (path : string) : list string := ancestors_from "" path.

(** Why a system call finds no node at a path. *)
Inductive Errno : Type := ENOENT | ENOTDIR.

Definition strerror (e : Errno) : string :=
  match e with
  | ENOENT => "no such file or directory"
  | ENOTDIR => "not a directory"
  end.

Definition isRegularFile (m : gmap string Node) (path : string) : bool :=
  match m !! path with
  | Some (RegularFile _) => true
  | _ => false
  end.

(** The error for a path that has no node: ENOTDIR when a component of the
    path is a regular file, else ENOENT. *)
Definition errnoOf (m : gmap string Node) (path : string) : Errno :=
  if existsb (isRegularFile m) (ancestors path) then ENOTDIR else ENOENT.

(** A component of [path] is a regular file of [m]: what makes [errnoOf]
    answer ENOTDIR. *)
Definition belowFile (m : gmap string Node) (path : string) : Prop :=
  exists a content,
    m !! a = Some (RegularFile content)
    /\ strings.HasPrefix path (a +:+ "/") = true.

(** [os.Stat(path)]: the node, or the error. *)
Definition os_Stat (path : string) : IO (Node + Errno) :=
  _ ← emit (EvStat path);
  m ← getFiles;
  mret (match m !! path with
        | Some n => inl n
        | None => inr (errnoOf m path)
        end).

(** [os.IsNotExist(err)] for what [os.Stat] returned: true for ENOENT only. *)
Definition os_IsNotExist (st : Node + Errno) : bool :=
  match st with
  | inr ENOENT => true
  | _ => false
  end.

Definition os_ReadFile (path : string) : IO (result string) :=
  _ ← emit (EvReadFile path);
  m ← getFiles;
  mret (match m !! path with
        | Some (RegularFile content) => Ok content
        | Some Directory => Err ("read " +:+ path +:+ ": is a directory")
        | None => Err ("open " +:+ path +:+ ": " +:+ strerror (errnoOf m path))
        end).

Definition os_WriteFile (path data : string) : IO (option error) :=
  _ ← emit (EvWriteFile path);
  m ← getFiles;
  match m !! path with
  | Some Directory => mret (Some ("open " +:+ path +:+ ": is a directory"))
  | _ => _ ← putFiles (<[path := RegularFile data]> m); mret None
  end.

(** [os.MkdirAll(path, perm)] *)
Definition os_MkdirAll (path : string) : IO (option error) :=
  _ ← emit (EvMkdirAll path);
  m ← getFiles;
  match m !! path with
  | Some (RegularFile _) => mret (Some ("mkdir " +:+ path +:+ ": not a directory"))
  | Some Directory => mret None
  | None => _ ← putFiles (<[path := Directory]> m); mret None
  end.

(** [os.Remove(path)]: a file or an empty directory. *)
Definition os_Remove (path : string) : IO (option error) :=
  _ ← emit (EvRemove path);
  m ← getFiles;
  match m !! path with
  | None => mret (Some ("remove " +:+ path +:+ ": no such file or directory"))
  | Some (RegularFile _) => _ ← putFiles (delete path m); mret None
  | Some Directory =>
      if decide (filter (fun kv => under path kv.1) (delete path m) = ∅)
      then _ ← putFiles (delete path m); mret None
      else mret (Some ("remove " +:+ path +:+ ": directory not empty"))
  end.

(** [os.RemoveAll(path)]: the path and everything below it; no error when the
    path is absent, and nothing is done for the empty path. *)
Definition os_RemoveAll (path : string) : IO (option error) :=
  _ ← emit (EvRemoveAll path);
  m ← getFiles;
  if decide (path = "") then mret None
  else _ ← putFiles (filter (fun kv => ~ under path kv.1) m); mret None.

(** The path [k], which is under [oldpath], after [oldpath] became [newpath]. *)
Definition rebase (oldpath newpath k : string) : string :=
  newpath +:+ strings.drop (String.length oldpath) k.

(** [os.Rename(oldpath, newpath)] where [newpath] does not exist. *)
Definition os_Rename (oldpath newpath : string) : IO (option error) :=
  _ ← emit (EvRename oldpath newpath);
  m ← getFiles;
  match m !! oldpath, m !! newpath with
  | None, _ => mret (Some ("rename " +:+ oldpath +:+ ": no such file or directory"))
  | Some _, Some _ => mret (Some ("rename " +:+ newpath +:+ ": file exists"))
  | Some _, None =>
      let moved := filter (fun kv => under oldpath kv.1) m in
      let kept := filter (fun kv => ~ under oldpath kv.1) m in
      _ ← putFiles
            (map_fold (fun k v acc => <[rebase oldpath newpath k := v]> acc) kept moved);
      mret None
  end.

(** ** Reading files and walking trees *)

(** What [file.Read(buffer)] reports besides the bytes. *)
Inductive ReadError := ReadNil | ReadEOF | ReadFailed.

(** [os.Open(path)] followed by one [file.Read] into a buffer of [size]
    bytes: [None] when the open fails, else [(buffer[:n], err)].  A regular
    file yields its first [min(len, size)] bytes, and [io.EOF] with no bytes
    when it is empty; reading a directory fails. *)
Definition open_and_read (m : gmap string Node) (path : string) (size : nat)
    : option (string * ReadError) :=
  match m !! path with
  | None => None
  | Some Directory => Some (EmptyString, ReadFailed)
  | Some (RegularFile content) =>
      match strings.take size content with
      | EmptyString => Some (EmptyString, ReadEOF)
      | data => Some (data, ReadNil)
      end
  end.

(** The loop [for i := 0; i < n; i++ { if buffer[i] == 0 { return false } }],
    [true] when it falls through. *)
Fixpoint no_null_byte (data : string) : bool :=
  match data with
  | EmptyString => true
  | String b data' => if Ascii.eqb b "000" then false else no_null_byte data'
  end.

Record FileInfo : Type := { IsDir : bool }.

(** One call [fn(path, info, err)] made by [filepath.Walk]. *)
Record WalkEntry : Type := {
  we_path : string;
  we_info : FileInfo;
  we_err : option error
}.

(** [filepath.Walk] for a callback that returns [nil] or an error other than
    [filepath.SkipDir]: the entries are visited in order until the callback
    returns an error, which becomes the result of the walk.  The callback
    updates the variables it captured, here the state [St]. *)
Fixpoint filepath_Walk {St : Type} (entries : list WalkEntry)
    (fn : WalkEntry -> St -> St * option error) (s : St) : St * option error :=
  match entries with
  | [] => (s, None)
  | e :: entries' =>
      match fn e s with
      | (s', Some err) => (s', Some err)
      | (s', None) => filepath_Walk entries' fn s'
      end
  end.

(** The part of package [path/filepath] left abstract. *)
Class PathLib := {
  filepath_Rel : string -> string -> result string;
  filepath_Base : string -> string;
  filepath_Join : string -> string -> string
}.

(** The built-in exclusion list, the same in both packages. *)
Definition defaultExclusionPatterns : list string := [
  "\.git/";
  "\.gitignore$";
  "\.DS_Store$";
  "node_modules/";
  "\.env$";
  "\.(jpg|jpeg|png|gif|svg|ico|bmp|tiff|webp)$";
  "\.(mp4|mov|avi|mkv|webm|flv)$";
  "\.(mp3|wav|flac|aac|ogg)$";
  "\.(zip|tar|gz|rar|7z|exe|dmg|pkg)$";
  "\.(pdf|doc|docx|xls|xlsx|ppt|pptx)$"
].

(** ** The repository cache

    [CacheEntry], [getTmpCacheDir], [urlToHash], [getCachedRepo], [cacheRepo],
    [cloneRepository] and [extractRepoName] are declared with the same text in
    both packages; they are embedded once. *)

Record CacheEntry : Type := {
  URL : string;
  CachedAt : Z;
  RepoPath : string;
  ExpiresAt : Z
}.

(** Libraries and collaborators of the cache left abstract: the hex MD5
    digest, [json.Marshal] and [json.Unmarshal] at type [CacheEntry], the
    [Path] component that [url.Parse] extracts, the name [os.MkdirTemp]
    picks on its n-th call, and what running [git clone url] in a directory
    does to the file store. *)
Class HostLib := {
  md5_hex : string -> string;
  json_Marshal : CacheEntry -> result string;
  json_Unmarshal : string -> result CacheEntry;
  url_Parse_Path : string -> result string;
  mkdirTemp_name : nat -> string;
  git_clone : string -> string -> gmap string Node -> result (gmap string Node)
}.

Section Cache.
Context {P : PathLib} {Hst : HostLib}.

Definition getTmpCacheDir : string :=
  filepath_Join "/tmp" "repo-concat-cache".

Definition urlToHash (githubURL : string) : string := md5_hex githubURL.

(** The value of the local [metadataPath] in [getCachedRepo] and
    [cacheRepo]. *)
Definition metadataPathOf (githubURL : string) : string :=
  filepath_Join getTmpCacheDir (urlToHash githubURL +:+ ".json").

Definition getCachedRepo (githubURL : string)
    : IO (string * bool * Z * option error) :=
  let cacheDir := getTmpCacheDir in
  let urlHash := urlToHash githubURL in
  let metadataPath := filepath_Join cacheDir (urlHash +:+ ".json") in
  st ← os_Stat metadataPath;
  if os_IsNotExist st then mret ("", false, 0, None)
  else
    data ← os_ReadFile metadataPath;
    match data with
    | Err err => mret ("", false, 0, Some err)
    | Ok data =>
        match json_Unmarshal data with
        | Err err => mret ("", false, 0, Some err)
        | Ok entry =>
            now ← time_Now;
            if After now (ExpiresAt entry) then
              _ ← os_Remove metadataPath;
              _ ← os_RemoveAll (RepoPath entry);
              mret ("", false, 0, None)
            else
              st ← os_Stat (RepoPath entry);
              if os_IsNotExist st then
                _ ← os_Remove metadataPath;
                mret ("", false, 0, None)
              else mret (RepoPath entry, true, CachedAt entry, None)
        end
    end.

Definition cacheRepo (githubURL repoPath : string) : IO (option error) :=
  let cacheDir := getTmpCacheDir in
  err ← os_MkdirAll cacheDir;
  match err with
  | Some err => mret (Some err)
  | None =>
      let urlHash := urlToHash githubURL in
      let metadataPath := filepath_Join cacheDir (urlHash +:+ ".json") in
      cachedAt ← time_Now;
      now ← time_Now;
      let entry := {| URL := githubURL;
                      CachedAt := cachedAt;
                      RepoPath := repoPath;
                      ExpiresAt := now + 5 * time_Minute |} in
      match json_Marshal entry with
      | Err err => mret (Some err)
      | Ok data => os_WriteFile metadataPath data
      end
  end.

Definition cloneRepository (githubURL destDir : string) : IO (option error) :=
  _ ← emit (EvClone githubURL destDir);
  m ← getFiles;
  match git_clone githubURL destDir m with
  | Err err => mret (Some err)
  | Ok m' => _ ← putFiles m'; mret None
  end.

Definition extractRepoName (githubURL : string) : string :=
  match url_Parse_Path githubURL with
  | Err _ =>
      let parts := strings.Split githubURL "/" in
      match last parts with
      | Some name => strings.TrimSuffix name ".git"
      | None => "repository"
      end
  | Ok path =>
      let parts := strings.Split (strings.Trim path "/") "/" in
      match parts with
      | _ :: name :: _ => strings.TrimSuffix name ".git"
      | _ => "repository"
      end
  end.

End Cache.

(** ** Package [tui]: pattern matching, the scan and the resolution *)
Module Tui.
Section Patterns.
Context {L : RegexpLib}.

Definition isPathPattern (pattern : string) : bool :=
  strings.HasPrefix pattern "/".

Definition globToRegex (glob : string) : string :=
  let result := regexp.QuoteMeta glob in
  let result := strings.ReplaceAll result "\*" ".*" in
  let result := strings.ReplaceAll result "\?" "." in
  let result :=
    if negb (strings.HasPrefix result ".*") then "^" +:+ result else result in
  let result :=
    if negb (strings.HasSuffix result ".*") then result +:+ "$" else result in
  result.

Definition matchesPathPattern (pattern relativePath : string) : bool :=
  let pattern := strings.TrimPrefix pattern "/" in
  if strings.HasSuffix pattern "/" then
    let pattern := strings.TrimSuffix pattern "/" in
    strings.HasPrefix relativePath (pattern +:+ "/")
    || String.eqb relativePath pattern
  else strings.HasPrefix relativePath pattern.

Definition matchesPattern (pattern relativePath baseName : string) : bool :=
  if isPathPattern pattern then matchesPathPattern pattern relativePath
  else
    let regexPattern :=
      if strings.Contains pattern "*" || strings.Contains pattern "?"
      then globToRegex pattern else pattern in
    match regexp_Compile regexPattern with
    | Err _ => false
    | Ok regex => MatchString regex relativePath || MatchString regex baseName
    end.

End Patterns.

Section Scan.
Context {L : RegexpLib} {P : PathLib}.

Variable Walk : string -> list WalkEntry.
Variable disk : gmap string Node.

Definition isTextFile (path : string) : bool :=
  match open_and_read disk path 512 with
  | None => false
  | Some (buffer, err) =>
      match err, String.length buffer with
      | (ReadEOF | ReadFailed), O => false
      | _, _ => no_null_byte buffer
      end
  end.

(** The validation loops of [performDryRun]: a pattern that is not a path
    pattern is compiled, after the glob translation when it contains a
    star or a question mark. *)
Fixpoint validatePatterns (what : string) (patterns : list string)
    : option error :=
  match patterns with
  | [] => None
  | pattern :: rest =>
      if negb (isPathPattern pattern) then
        let testPattern :=
          if strings.Contains pattern "*" || strings.Contains pattern "?"
          then globToRegex pattern else pattern in
        match regexp_Compile testPattern with
        | Err err =>
            Some ("invalid " +:+ what +:+ " pattern '" +:+ pattern
                  +:+ "': " +:+ err)
        | Ok _ => validatePatterns what rest
        end
      else validatePatterns what rest
  end.

Definition performDryRun_walkFn (rootPath : string)
    (allExclusionPatterns validInclusionPatterns : list string)
    (e : WalkEntry) (st : list string * list string)
    : (list string * list string) * option error :=
  let '(includedFiles, excludedFiles) := st in
  let path := we_path e in
  match we_err e with
  | Some err => (st, Some err)
  | None =>
      if IsDir (we_info e) then (st, None)
      else if negb (isTextFile path)
      then ((includedFiles, excludedFiles ++ [path]), None)
      else
        match filepath_Rel rootPath path with
        | Err err => (st, Some err)
        | Ok relativePath =>
            let baseName := filepath_Base path in
            if existsb (fun pattern =>
                 matchesPattern pattern relativePath baseName)
               allExclusionPatterns
            then ((includedFiles, excludedFiles ++ [path]), None)
            else if (0 <? length validInclusionPatterns)%nat
                    && negb (existsb (fun pattern =>
                         matchesPattern pattern relativePath baseName)
                       validInclusionPatterns)
            then ((includedFiles, excludedFiles ++ [path]), None)
            else ((includedFiles ++ [path], excludedFiles), None)
        end
  end.

Definition performDryRun (rootPath : string)
    (exclusionPatterns inclusionPatterns : list string)
    : list string * list string * option error :=
  match validatePatterns "exclusion" exclusionPatterns with
  | Some err => ([], [], Some err)
  | None =>
      let validExclusionPatterns := exclusionPatterns in
      match validatePatterns "inclusion" inclusionPatterns with
      | Some err => ([], [], Some err)
      | None =>
          let validInclusionPatterns := inclusionPatterns in
          let allExclusionPatterns :=
            defaultExclusionPatterns ++ validExclusionPatterns in
          let '((includedFiles, excludedFiles), err) :=
            filepath_Walk (Walk rootPath)
              (performDryRun_walkFn rootPath allExclusionPatterns
                 validInclusionPatterns) ([], []) in
          (includedFiles, excludedFiles, err)
      end
  end.

(** Exported wrapper. *)
Definition PerformDryRun := performDryRun.

Definition collectFiles (rootPath : string)
    (exclusionPatterns inclusionPatterns : list string)
    : list string * option error :=
  let '(includedFiles, _, err) :=
    performDryRun rootPath exclusionPatterns inclusionPatterns in
  (includedFiles, err).

End Scan.

Record Config : Type := {
  URL : string;
  Path : string;
  Include : list string;
  Exclude : list string;
  Output : string;
  EnableTUI : bool
}.

Section Resolve.
Context {P : PathLib} {Hst : HostLib}.

Definition resolveRepositoryPath (config : Config) : IO (string * option error) :=
  if negb (String.eqb (Path config) "") then mret (Path config, None)
  else if negb (String.eqb (URL config) "") then
    r ← getCachedRepo (URL config);
    let '(cachedPath, found, _, err) :=
      (r : string * bool * Z * option error) in
    match err with
    | Some err => mret ("", Some ("cache check failed: " +:+ err))
    | None =>
        if found then mret (cachedPath, None)
        else
          let repoName := extractRepoName (URL config) in
          let tempDir := getTmpCacheDir in
          let repoPath := filepath_Join tempDir repoName in
          err ← os_MkdirAll tempDir;
          match err with
          | Some err =>
              mret ("", Some ("failed to create temp directory: " +:+ err))
          | None =>
              _ ← os_RemoveAll repoPath;
              err ← cloneRepository (URL config) tempDir;
              match err with
              | Some err =>
                  mret ("", Some ("failed to clone repository: " +:+ err))
              | None =>
                  err ← cacheRepo (URL config) repoPath;
                  match err with
                  | Some err =>
                      mret ("", Some ("failed to cache repository: " +:+ err))
                  | None => mret (repoPath, None)
                  end
              end
          end
    end
  else mret ("", Some "please specify either a repository URL or local path").

End Resolve.

End Tui.

(** ** Package [main]: pattern matching, the scan and the resolution *)
Module Main.
Section Patterns.
Context {L : RegexpLib}.

(** [filepath.Separator] on the platforms the tool targets. *)
Definition filepath_Separator : ascii := "/"%char.

Definition isPathPattern (pattern : string) : bool :=
  strings.HasPrefix pattern "/".

Definition matchesPathPattern (pattern relativePath : string) : bool :=
  if negb (isPathPattern pattern) then false
  else
    let cleanPattern := strings.TrimPrefix pattern "/" in
    let pathParts := strings.Split relativePath filepath_Separator in
    match pathParts with
    | part0 :: _ => strings.HasPrefix part0 cleanPattern
    | [] => false
    end.

Definition matchesPattern (pattern relativePath baseName : string) : bool :=
  if isPathPattern pattern then matchesPathPattern pattern relativePath
  else
    match regexp_Compile pattern with
    | Err _ => false
    | Ok compiled =>
        MatchString compiled relativePath || MatchString compiled baseName
    end.

End Patterns.

Section Scan.
Context {L : RegexpLib} {P : PathLib}.

(** What [filepath.Walk] visits from a root, and the file store that
    [os.Open] reads. *)
Variable Walk : string -> list WalkEntry.
Variable disk : gmap string Node.

Definition isTextFile (path : string) : bool :=
  match open_and_read disk path 512 with
  | None => false
  | Some (buffer, err) =>
      match err with
      | ReadFailed => false
      | ReadNil | ReadEOF => no_null_byte buffer
      end
  end.

(** The validation loop at the head of [performDryRun] and [collectFiles]:
    the first pattern that is not a path pattern and that [regexp.Compile]
    refuses ends the call. *)
Fixpoint validatePatterns (what : string) (patterns : list string)
    : option error :=
  match patterns with
  | [] => None
  | pattern :: rest =>
      if negb (isPathPattern pattern) then
        match regexp_Compile pattern with
        | Err err =>
            Some ("invalid " +:+ what +:+ " regex pattern '" +:+ pattern
                  +:+ "': " +:+ err)
        | Ok _ => validatePatterns what rest
        end
      else validatePatterns what rest
  end.

(** The callback [performDryRun] hands to [filepath.Walk]; the state is the
    pair of captured slices [(includedFiles, excludedFiles)]. *)
Definition performDryRun_walkFn (rootPath : string)
    (allExclusionPatterns inclusionPatterns : list string)
    (e : WalkEntry) (st : list string * list string)
    : (list string * list string) * option error :=
  let '(includedFiles, excludedFiles) := st in
  let path := we_path e in
  match we_err e with
  | Some err => (st, Some err)
  | None =>
      if IsDir (we_info e) then (st, None)
      else
        match filepath_Rel rootPath path with
        | Err err => (st, Some err)
        | Ok relativePath =>
            if negb (isTextFile path)
            then ((includedFiles, excludedFiles ++ [path]), None)
            else if existsb (fun pattern =>
                       matchesPattern pattern relativePath (filepath_Base path))
                     allExclusionPatterns
            then ((includedFiles, excludedFiles ++ [path]), None)
            else if (0 <? length inclusionPatterns)%nat
                    && negb (existsb (fun pattern =>
                         matchesPattern pattern relativePath (filepath_Base path))
                       inclusionPatterns)
            then ((includedFiles, excludedFiles ++ [path]), None)
            else ((includedFiles ++ [path], excludedFiles), None)
        end
  end.

Definition performDryRun (rootPath : string)
    (exclusionPatterns inclusionPatterns : list string)
    : list string * list string * option error :=
  match validatePatterns "exclusion" exclusionPatterns with
  | Some err => ([], [], Some err)
  | None =>
      match validatePatterns "inclusion" inclusionPatterns with
      | Some err => ([], [], Some err)
      | None =>
          let allExclusionPatterns :=
            exclusionPatterns ++ defaultExclusionPatterns in
          let '((includedFiles, excludedFiles), err) :=
            filepath_Walk (Walk rootPath)
              (performDryRun_walkFn rootPath allExclusionPatterns
                 inclusionPatterns) ([], []) in
          (includedFiles, excludedFiles, err)
      end
  end.

(** The callback of [collectFiles]; the state is the captured slice
    [files]. *)
Definition collectFiles_walkFn (rootPath : string)
    (allExclusionPatterns inclusionPatterns : list string)
    (e : WalkEntry) (files : list string) : list string * option error :=
  let path := we_path e in
  match we_err e with
  | Some err => (files, Some err)
  | None =>
      if IsDir (we_info e) then (files, None)
      else
        match filepath_Rel rootPath path with
        | Err err => (files, Some err)
        | Ok relativePath =>
            if existsb (fun pattern =>
                 matchesPattern pattern relativePath (filepath_Base path))
               allExclusionPatterns
            then (files, None)
            else if (0 <? length inclusionPatterns)%nat
                    && negb (existsb (fun pattern =>
                         matchesPattern pattern relativePath (filepath_Base path))
                       inclusionPatterns)
            then (files, None)
            else if isTextFile path then (files ++ [path], None)
            else (files, None)
        end
  end.

Definition collectFiles (rootPath : string)
    (exclusionPatterns inclusionPatterns : list string)
    : list string * option error :=
  match validatePatterns "exclusion" exclusionPatterns with
  | Some err => ([], Some err)
  | None =>
      match validatePatterns "inclusion" inclusionPatterns with
      | Some err => ([], Some err)
      | None =>
          let allExclusionPatterns :=
            exclusionPatterns ++ defaultExclusionPatterns in
          filepath_Walk (Walk rootPath)
            (collectFiles_walkFn rootPath allExclusionPatterns
               inclusionPatterns) []
      end
  end.

End Scan.

Record Config : Type := {
  githubURL : string;
  localPath : string;
  exclusions : list string;
  inclusions : list string;
  peek : bool;
  outputDir : string;
  tokenEst : bool;
  enableTUI : bool
}.

(** What [main] does once the flags are parsed: hand over to the TUI, print
    a message and [os.Exit], or call [processRepository]. *)
Inductive MainAction : Type :=
| RunTUI (tuiConfig : Tui.Config)
| PrintUsageAndExit (msg : string) (code : Z)
| CallProcessRepository (config : Config).

Definition main (config : Config) : MainAction :=
  if enableTUI config then
    RunTUI {| Tui.URL := githubURL config;
              Tui.Path := localPath config;
              Tui.Include := inclusions config;
              Tui.Exclude := exclusions config;
              Tui.Output := outputDir config;
              Tui.EnableTUI := true |}
  else if String.eqb (githubURL config) "" && String.eqb (localPath config) ""
  then PrintUsageAndExit
         "Error: Either GitHub URL or local directory path is required" 1
  else if negb (String.eqb (githubURL config) "")
          && negb (String.eqb (localPath config) "")
  then PrintUsageAndExit
         "Error: Cannot specify both GitHub URL and local directory path" 1
  else CallProcessRepository config.

Section Resolve.
Context {P : PathLib} {Hst : HostLib}.

Definition os_MkdirTemp : IO (result string) :=
  fun w =>
    let dir := mkdirTemp_name (temps w) in
    (Ok dir,
     mkWorld (<[dir := Directory]> (files w)) (clock w) (reads w)
       (S (temps w)) (trace w ++ [EvMkdirTemp dir])).

(** The block of [processRepository] under [if repoPath == ""]: clone into
    a fresh temporary directory, then try to move the checkout into the
    cache directory and to record it.  The result is
    [(repoPath, shouldCleanup, err)]. *)
Definition processRepository_clone (config : Config)
    : IO (string * bool * option error) :=
  tmp ← os_MkdirTemp;
  match tmp with
  | Err err =>
      mret ("", false, Some ("failed to create temp directory: " +:+ err))
  | Ok tempDir =>
      _ ← fmt_Print ("Cloning repository: " +:+ githubURL config);
      err ← cloneRepository (githubURL config) tempDir;
      match err with
      | Some err =>
          _ ← os_RemoveAll tempDir;
          mret ("", false, Some ("failed to clone repository: " +:+ err))
      | None =>
          let repoName := extractRepoName (githubURL config) in
          let repoPath := filepath_Join tempDir repoName in
          let cacheDir := getTmpCacheDir in
          err ← os_MkdirAll cacheDir;
          match err with
          | Some _ => mret (repoPath, true, None)
          | None =>
              let cachedRepoPath :=
                filepath_Join cacheDir (urlToHash (githubURL config)) in
              err ← os_RemoveAll cachedRepoPath;
              match err with
              | Some _ => mret (repoPath, true, None)
              | None =>
                  err ← os_Rename repoPath cachedRepoPath;
                  match err with
                  | Some _ => mret (repoPath, true, None)
                  | None =>
                      err ← cacheRepo (githubURL config) cachedRepoPath;
                      match err with
                      | Some err =>
                          _ ← fmt_Print
                                ("Warning: failed to cache repository metadata: "
                                 +:+ err);
                          mret (cachedRepoPath, false, None)
                      | None => mret (cachedRepoPath, false, None)
                      end
                  end
              end
          end
      end
  end.

(** The head of [processRepository], up to the point where [repoPath] is
    settled: the result is [(repoPath, shouldCleanup, err)], and [err] is
    what [processRepository] returns at once when it is not [None].  The
    duration printed with a cache hit is left out of the message. *)
Definition processRepository_resolve (config : Config)
    : IO (string * bool * option error) :=
  if negb (String.eqb (localPath config) "") then
    st ← os_Stat (localPath config);
    if os_IsNotExist st then
      mret ("", false,
            Some ("local directory does not exist: " +:+ localPath config))
    else
      _ ← fmt_Print ("Processing local directory: " +:+ localPath config);
      mret (localPath config, false, None)
  else
    r ← getCachedRepo (githubURL config);
    let '(cachedPath, found, cachedAt, err) :=
      (r : string * bool * Z * option error) in
    repoPath ←
      match err with
      | Some err =>
          _ ← fmt_Print ("Warning: cache check failed: " +:+ err); mret ""
      | None =>
          if found then
            _ ← time_Now;
            _ ← fmt_Print ("Using cached repository: " +:+ githubURL config);
            mret cachedPath
          else mret ""
      end;
    if String.eqb repoPath "" then processRepository_clone config
    else mret (repoPath, false, None).

End Resolve.

End Main.


(** ** The specification's vocabulary

    Definitions that follow the words of the specification, to be compared
    with the code. *)
Module Spec.

(** "the first path segment of p": the bytes before the first separator. *)
Fixpoint firstSegment (p : string) : string :=
  match p with
  | EmptyString => EmptyString
  | String c p' =>
      if Ascii.eqb c "/" then EmptyString else String c (firstSegment p')
  end.

(** "s has x as a string prefix" *)
Definition hasPrefix (s x : string) : Prop := exists rest, s = x +:+ rest.

(** "escaping all regex metacharacters except * and ?, mapping * to .* and
    ? to ." *)
Definition globByte (c : ascii) : string :=
  if Ascii.eqb c "*" then ".*"
  else if Ascii.eqb c "?" then "."
  else if regexp.special c then String "\" (String c EmptyString)
  else String c EmptyString.

Fixpoint globBody (glob : string) : string :=
  match glob with
  | EmptyString => EmptyString
  | String c glob' => globByte c +:+ globBody glob'
  end.

(** The translation after its first replacement: stars are mapped, all
    other metacharacters are still escaped. *)
Definition starByte (c : ascii) : string :=
  if Ascii.eqb c "*" then ".*"
  else if regexp.special c then String "\" (String c EmptyString)
  else String c EmptyString.

Fixpoint starBody (glob : string) : string :=
  match glob with
  | EmptyString => EmptyString
  | String c glob' => starByte c +:+ starBody glob'
  end.

(** "adding ^ / $ anchors unless the translated pattern already begins /
    ends with .*" *)
Definition globRegex (glob : string) : string :=
  let body := globBody glob in
  (if strings.HasPrefix body ".*" then "" else "^")
  +:+ body
  +:+ (if strings.HasSuffix body ".*" then "" else "$").

(** "the first min(size, 512) bytes contain at least one null byte" *)
Definition nullInSample (content : string) : Prop :=
  exists i, (i < Nat.min (String.length content) 512)%nat
            /\ String.get i content = Some "000"%char.

End Spec.

(** ** Sample instances

    Stand-ins for the abstract libraries, used to evaluate scenarios:
    slash-separated clean paths, a digest that only keeps the length, a
    line-oriented codec for cache entries and a clone that materialises a
    one-file checkout. *)
Module Sample.

#[export] Instance paths : PathLib := {|
  filepath_Rel basepath targpath :=
    if String.eqb targpath basepath then Ok "."
    else if strings.HasPrefix targpath (basepath +:+ "/")
    then Ok (strings.drop (S (String.length basepath)) targpath)
    else Err "Rel: can't make path relative";
  filepath_Base path :=
    match last (strings.Split path "/") with
    | Some name => name
    | None => "."
    end;
  filepath_Join a b := a +:+ "/" +:+ b
|}.

Definition newline : ascii := "010"%char.

Definition decimal (z : Z) : string := pretty.pretty z.

Fixpoint digits (s : string) (acc : N) : option N :=
  match s with
  | EmptyString => Some acc
  | String c s' =>
      match Ascii.is_nat c with
      | Some d => digits s' (acc * 10 + N.of_nat d)%N
      | None => None
      end
  end.

Definition undecimal (s : string) : option Z :=
  match s with
  | EmptyString => None
  | String "-" s' => (fun n => - Z.of_N n) <$> digits s' 0%N
  | _ => Z.of_N <$> digits s 0%N
  end.

Definition marshal (e : CacheEntry) : result string :=
  Ok (URL e +:+ String newline
        (decimal (CachedAt e) +:+ String newline
           (RepoPath e +:+ String newline
              (decimal (ExpiresAt e))))).

Definition unmarshal (data : string) : result CacheEntry :=
  match strings.Split data newline with
  | [url; cachedAt; repoPath; expiresAt] =>
      match undecimal cachedAt, undecimal expiresAt with
      | Some c, Some x =>
          Ok {| URL := url; CachedAt := c;
                RepoPath := repoPath; ExpiresAt := x |}
      | _, _ => Err "invalid character looking for beginning of value"
      end
  | _ => Err "unexpected end of JSON input"
  end.

(** The text after the scheme and the host. *)
Fixpoint after_slash (s : string) : string :=
  match s with
  | EmptyString => EmptyString
  | String c s' => if Ascii.eqb c "/" then s else after_slash s'
  end.

Fixpoint url_path (u : string) : string :=
  match u with
  | EmptyString => EmptyString
  | String c u' =>
      if strings.HasPrefix u "://" then after_slash (strings.drop 3 u)
      else url_path u'
  end.

#[export] Instance host : HostLib := {|
  md5_hex s := "digest" +:+ pretty.pretty (String.length s);
  json_Marshal := marshal;
  json_Unmarshal := unmarshal;
  url_Parse_Path u := Ok (url_path u);
  mkdirTemp_name n := "/tmp/repo-concat-" +:+ pretty.pretty n;
  git_clone url dir m :=
    Ok (<[dir +:+ "/repo/README.md" := RegularFile "hello"]>
          (<[dir +:+ "/repo" := Directory]> m))
|}.

Definition fileEntry (path : string) : WalkEntry :=
  {| we_path := path; we_info := {| IsDir := false |}; we_err := None |}.

Definition dirEntry (path : string) : WalkEntry :=
  {| we_path := path; we_info := {| IsDir := true |}; we_err := None |}.

Definition failedEntry (path : string) (err : error) : WalkEntry :=
  {| we_path := path; we_info := {| IsDir := false |}; we_err := Some err |}.

Definition world (m : gmap string Node) (now : Z) : World :=
  mkWorld m (fun _ => now) 0 0 [].

End Sample.

(** ** Scenarios

    Concrete trees, walks and cache states on the sample instances. *)
Module Scenario.
Import Sample.

Definition goFile : string := "package a".
Definition binaryFile : string :=
  String "a" (String "b" (String "000" (String "c" EmptyString))).

Definition disk : gmap string Node :=
  <["/r/a.go" := RegularFile goFile]>
    (<["/r/c.go" := RegularFile goFile]>
       (<["/r/blob.go" := RegularFile binaryFile]> ∅)).

Definition walkOk (root : string) : list WalkEntry :=
  [dirEntry "/r"; fileEntry "/r/a.go"].

Definition walkFailing (root : string) : list WalkEntry :=
  walkOk root ++ failedEntry "/r/b" "lstat /r/b: permission denied"
                 :: [fileEntry "/r/c.go"].

Definition walkBinary (root : string) : list WalkEntry :=
  [dirEntry "/r"; fileEntry "/r/a.go"; fileEntry "/r/blob.go"].

Definition url : string := "https://github.com/user/repo.git".

Definition storedEntry : CacheEntry :=
  {| URL := url; CachedAt := 40;
     RepoPath := "/tmp/repo-concat-cache/checkout";
     ExpiresAt := 100 |}.

Definition storedData : string :=
  match marshal storedEntry with Ok data => data | Err _ => "" end.

Definition cached : gmap string Node :=
  <[metadataPathOf url := RegularFile storedData]>
    (<["/tmp/repo-concat-cache/checkout" := Directory]>
       (<["/tmp/repo-concat-cache/checkout/main.go" := RegularFile goFile]> ∅)).

Definition corrupt : gmap string Node :=
  <[metadataPathOf url := RegularFile "{not json"]> ∅.

(** A regular file where the cache directory should be. *)
Definition blockedCache : gmap string Node :=
  <["/tmp/repo-concat-cache" := RegularFile "in the way"]> disk.

Definition tuiConfig (u p : string) : Tui.Config :=
  {| Tui.URL := u; Tui.Path := p; Tui.Include := []; Tui.Exclude := [];
     Tui.Output := "."; Tui.EnableTUI := true |}.

Definition cliConfig (u p : string) : Main.Config :=
  {| Main.githubURL := u; Main.localPath := p; Main.exclusions := [];
     Main.inclusions := []; Main.peek := false; Main.outputDir := ".";
     Main.tokenEst := true; Main.enableTUI := false |}.

(** The two scenarios the specification lists for the scan. *)
Definition specTree : gmap string Node :=
  <["/w/a.go" := RegularFile goFile]>
    (<["/w/b.txt" := RegularFile "notes"]>
       (<["/w/.git/config" := RegularFile "[core]"]>
          (<["/w/img.png" := RegularFile binaryFile]> ∅))).

Definition specTreeWalk (root : string) : list WalkEntry :=
  [dirEntry "/w"; dirEntry "/w/.git"; fileEntry "/w/.git/config";
   fileEntry "/w/a.go"; fileEntry "/w/b.txt"; fileEntry "/w/img.png"].

Definition srcTree : gmap string Node :=
  <["/w/src/a.go" := RegularFile goFile]>
    (<["/w/lib/b.go" := RegularFile goFile]>
       (<["/w/main.go" := RegularFile goFile]> ∅)).

Definition srcTreeWalk (root : string) : list WalkEntry :=
  [dirEntry "/w"; dirEntry "/w/lib"; fileEntry "/w/lib/b.go";
   fileEntry "/w/main.go"; dirEntry "/w/src"; fileEntry "/w/src/a.go"].

End Scenario.

(** ** What a scan decides for one file

    The decision the callbacks of [performDryRun] take for a regular file,
    read off their bodies: the file is kept when it is text, matches none of
    the exclusion patterns (the user's and the built-in ones) and, when there
    are inclusion patterns, matches one of them. *)
Module Verdict.
Section Verdict.
Context {L : RegexpLib} {P : PathLib}.
Variable disk : gmap string Node.

Definition main_keeps (rootPath : string)
    (exclusionPatterns inclusionPatterns : list string) (path : string) : bool :=
  match filepath_Rel rootPath path with
  | Err _ => false
  | Ok relativePath =>
      Main.isTextFile disk path
      && negb (existsb (fun pattern =>
                 Main.matchesPattern pattern relativePath (filepath_Base path))
               (exclusionPatterns ++ defaultExclusionPatterns))
      && ((length inclusionPatterns =? 0)%nat
          || existsb (fun pattern =>
               Main.matchesPattern pattern relativePath (filepath_Base path))
             inclusionPatterns)
  end.

Definition tui_keeps (rootPath : string)
    (exclusionPatterns inclusionPatterns : list string) (path : string) : bool :=
  Tui.isTextFile disk path
  && match filepath_Rel rootPath path with
     | Err _ => false
     | Ok relativePath =>
         negb (existsb (fun pattern =>
                 Tui.matchesPattern pattern relativePath (filepath_Base path))
               (defaultExclusionPatterns ++ exclusionPatterns))
         && ((length inclusionPatterns =? 0)%nat
             || existsb (fun pattern =>
                  Tui.matchesPattern pattern relativePath (filepath_Base path))
                inclusionPatterns)
     end.

(** The entries of a walk that are regular files, kept or dropped. *)
Definition kept (keeps : string -> bool) (entries : list WalkEntry) : list string :=
  map we_path
    (List.filter (fun e => negb (IsDir (we_info e)) && keeps (we_path e)) entries).

Definition dropped (keeps : string -> bool) (entries : list WalkEntry)
    : list string :=
  map we_path
    (List.filter (fun e => negb (IsDir (we_info e)) && negb (keeps (we_path e)))
       entries).

End Verdict.
End Verdict.

(** ** The clone step of the TUI's resolution

    The statements of [resolveRepositoryPath] (package [tui]) that follow a
    lookup reporting neither an error nor a hit, under a name of their own. *)
Section CloneStep.
Context {P : PathLib} {Hst : HostLib}.

Definition resolveRepositoryPath_clone (config : Tui.Config)
    : IO (string * option error) :=
  let repoName := extractRepoName (Tui.URL config) in
  let tempDir := getTmpCacheDir in
  let repoPath := filepath_Join tempDir repoName in
  err ← os_MkdirAll tempDir;
  match err with
  | Some err =>
      mret ("", Some ("failed to create temp directory: " +:+ err))
  | None =>
      _ ← os_RemoveAll repoPath;
      err ← cloneRepository (Tui.URL config) tempDir;
      match err with
      | Some err =>
          mret ("", Some ("failed to clone repository: " +:+ err))
      | None =>
          err ← cacheRepo (Tui.URL config) repoPath;
          match err with
          | Some err =>
              mret ("", Some ("failed to cache repository: " +:+ err))
          | None => mret (repoPath, None)
          end
      end
  end.

End CloneStep.

(** ** A host without network

    The sample host, except that every clone fails the way [git] does when the
    remote cannot be reached. *)
Module Offline.

Definition host : HostLib := {|
  md5_hex := @md5_hex Sample.host;
  json_Marshal := @json_Marshal Sample.host;
  json_Unmarshal := @json_Unmarshal Sample.host;
  url_Parse_Path := @url_Parse_Path Sample.host;
  mkdirTemp_name := @mkdirTemp_name Sample.host;
  git_clone _ _ _ := Err "exit status 128"
|}.

End Offline.

(** ** Sizes for display

    [formatSize] (package [main]) and [formatFileSize] (package [tui]) scale
    a byte count with the same loop and differ below one kilobyte.  An
    [int64] is a [Z] with Go's two's-complement wrap-around written out; the
    quotient is Go's, truncated towards zero, and cannot wrap here.  The
    floating-point rendering of [%.1f] is left to [fmt.Sprintf]: the result
    is the call the function makes. *)
Module Sizes.

Definition int64 (z : Z) : Z := (z + 2 ^ 63) mod 2 ^ 64 - 2 ^ 63.

Definition unit : Z := 1024.

(** [SprintfBytes b] is [fmt.Sprintf("%d B", b)], [SprintfScaled b d c] is
    [fmt.Sprintf("%.1f %cB", float64(b)/float64(d), c)], and
    [IndexOutOfRange] is the run-time panic of ["KMGTPE"[exp]]. *)
Inductive SizeText :=
| SprintfBytes (bytes : Z)
| Literal (text : string)
| SprintfScaled (bytes div : Z) (prefix : ascii)
| IndexOutOfRange.

(** [for n := bytes / unit; n >= unit; n /= unit { div *= unit; exp++ }] *)
Equations scale (n div : Z) (exp : nat) : Z * nat by wf (Z.to_nat n) lt :=
scale n div exp with Z_le_dec unit n := {
  | left _ => scale (Z.quot n unit) (int64 (div * unit)) (S exp)
  | right _ => (div, exp) }.
Next Obligation.
  unfold unit in *.
  assert (0 <= Z.quot n 1024 < n)
    by (split; [apply Z.quot_pos; lia | apply Z.quot_lt; lia]).
  lia.
Qed.

(** The statements after the first test, shared by the two functions. *)
Definition scaled (bytes : Z) : SizeText :=
  let '(div, exp) := scale (Z.quot bytes unit) unit 0 in
  match String.get exp "KMGTPE" with
  | Some prefix => SprintfScaled bytes div prefix
  | None => IndexOutOfRange
  end.

Definition formatSize (bytes : Z) : SizeText :=
  if bytes <? unit then SprintfBytes bytes else scaled bytes.

Definition formatFileSize (size : Z) : SizeText :=
  if size <? unit then Literal "< 1KB" else scaled size.

End Sizes.

(** ** Package [main]: the output text

    [concatenateFiles] writes a header and then one block per file it could
    read; a file it could not read gets a warning on standard output and no
    block.  [time_Format] stands for [Time.Format("2006-01-02 15:04:05")],
    and [%d] of a length is its decimal numeral. *)
Module Concat.
Section Concat.
Context {P : PathLib}.
Variable time_Format : Z -> string.

Definition LF : string := String "010"%char "".

Definition header (timestamp : string) (total : nat) : string :=
  ("# Repository Concatenation" +:+ LF)
  +:+ ("# Generated on: " +:+ timestamp +:+ LF)
  +:+ ("# Total files: " +:+ pretty total +:+ LF +:+ LF).

(** What one iteration writes for a file it has read. *)
Definition fileBlock (relativePath content : string) : string :=
  ("# File: " +:+ relativePath +:+ LF)
  +:+ ("```" +:+ LF)
  +:+ content
  +:+ (if negb (strings.HasSuffix content LF) then LF else "")
  +:+ ("```" +:+ LF +:+ LF).

Definition relativeOrFull (rootPath filePath : string) : string :=
  match filepath_Rel rootPath filePath with
  | Ok relativePath => relativePath
  | Err _ => filePath
  end.

(** The body of the loop; [result] is the builder's text so far. *)
Definition concatenateFiles_step (rootPath : string) (result : string)
    (filePath : string) : IO string :=
  let relativePath := relativeOrFull rootPath filePath in
  r ← os_ReadFile filePath;
  match r with
  | Err err =>
      _ ← fmt_Print ("Warning: failed to read file " +:+ relativePath
                     +:+ ": " +:+ err);
      mret result
  | Ok content => mret (result +:+ fileBlock relativePath content)
  end.

Fixpoint concatenateFiles_loop (rootPath : string) (files : list string)
    (result : string) : IO string :=
  match files with
  | [] => mret result
  | filePath :: rest =>
      result ← concatenateFiles_step rootPath result filePath;
      concatenateFiles_loop rootPath rest result
  end.

Definition concatenateFiles (files : list string) (rootPath : string)
    : IO (string * option error) :=
  now ← time_Now;
  let timestamp := time_Format now in
  result ← concatenateFiles_loop rootPath files (header timestamp (length files));
  mret (result, None).

(** The blocks of the files that are regular files of [m], in order. *)
Definition blocksOf (m : gmap string Node) (rootPath : string)
    (paths : list string) : list string :=
  flat_map (fun filePath =>
              match m !! filePath with
              | Some (RegularFile content) =>
                  [fileBlock
                     (relativeOrFull rootPath filePath) content]
              | _ => []
              end) paths.

(** What the loop leaves on the trace for one file. *)
Definition eventsOf (m : gmap string Node) (rootPath : string)
    (filePath : string) : list IOEvent :=
  EvReadFile filePath ::
  match m !! filePath with
  | Some (RegularFile _) => []
  | Some Directory =>
      [EvPrint ("Warning: failed to read file "
                +:+ relativeOrFull rootPath filePath +:+ ": "
                +:+ ("read " +:+ filePath +:+ ": is a directory"))]
  | None =>
      [EvPrint ("Warning: failed to read file "
                +:+ relativeOrFull rootPath filePath +:+ ": "
                +:+ ("open " +:+ filePath +:+ ": "
                     +:+ strerror (errnoOf m filePath)))]
  end.

End Concat.
End Concat.

(** * Properties *)

#[local] Arguments Ascii.eqb : simpl never.
#[local] Arguments String.eqb : simpl never.

(** Decide the comparisons of two byte literals in the goal. *)
Ltac eqb_literals :=
  repeat match goal with
  | |- context [Ascii.eqb ?a ?b] =>
      let v := eval vm_compute in (Ascii.eqb a b) in
      match v with
      | true => change (Ascii.eqb a b) with true
      | false => change (Ascii.eqb a b) with false
      end
  end.

(** Run the host calls of a monadic term. *)
Ltac run_io :=
  cbv beta iota zeta delta
    [mbind mret IO_bind IO_ret os_Stat os_IsNotExist os_ReadFile os_WriteFile
     os_MkdirAll
     os_Remove os_RemoveAll fmt_Print time_Now emit getFiles putFiles];
  cbn [files clock reads temps trace].

(** ** Strings *)
Section StringFacts.

Lemma append_cons (c : ascii) (s t : string) :
  String c s +:+ t = String c (s +:+ t).
Proof. reflexivity. Qed.

Lemma append_empty (t : string) : "" +:+ t = t.
Proof. reflexivity. Qed.

Lemma append_nil_r (s : string) : s +:+ "" = s.
Proof.
  induction s as [|c s IH]; [reflexivity|].
  rewrite append_cons, IH. reflexivity.
Qed.

Lemma HasPrefix_true_iff (s x : string) :
  strings.HasPrefix s x = true <-> Spec.hasPrefix s x.
Proof.
  revert s. induction x as [|p x IH]; intros s; simpl.
  - split; [intros _; exists s; reflexivity | reflexivity].
  - destruct s as [|c s].
    + split; [discriminate | intros [rest Hrest]; discriminate].
    + rewrite andb_true_iff, Ascii.eqb_eq, IH. split.
      * intros [-> [rest ->]]. exists rest. reflexivity.
      * intros [rest Hrest]. rewrite append_cons in Hrest.
        injection Hrest as -> ->. split; [reflexivity | exists rest; reflexivity].
Qed.

Lemma Split_firstSegment (p : string) :
  exists parts, strings.Split p "/" = Spec.firstSegment p :: parts.
Proof.
  induction p as [|c p [parts IH]]; simpl.
  - exists []. reflexivity.
  - destruct (Ascii.eqb c "/").
    + eexists. reflexivity.
    + rewrite IH. eexists. reflexivity.
Qed.

(** A prefix without a separator is decided by the first segment alone. *)
Lemma HasPrefix_firstSegment (x p : string) :
  strings.Contains x "/" = false ->
  strings.HasPrefix p x = strings.HasPrefix (Spec.firstSegment p) x.
Proof.
  revert p. induction x as [|a x IH]; intros p Hx; [reflexivity|].
  simpl in Hx. apply orb_false_iff in Hx as [Ha Hx].
  rewrite andb_true_r in Ha.
  destruct p as [|c p]; simpl; [reflexivity|].
  destruct (Ascii.eqb c "/") eqn:Hc.
  - apply Ascii.eqb_eq in Hc as ->. simpl.
    rewrite Ascii.eqb_sym, Ha. reflexivity.
  - simpl. rewrite (IH p Hx). reflexivity.
Qed.

Lemma drop_all_but_one (x : string) :
  strings.drop (String.length x - 1) x = "/" ->
  strings.Contains x "/" = true.
Proof.
  induction x as [|a x IH]; simpl; [discriminate|].
  rewrite Nat.sub_0_r. destruct x as [|b x].
  - simpl. intros [= ->]. reflexivity.
  - intros Hd. rewrite andb_true_r.
    apply orb_true_iff. right.
    apply IH. simpl. rewrite Nat.sub_0_r. exact Hd.
Qed.

Lemma HasSuffix_slash (x : string) :
  strings.Contains x "/" = false -> strings.HasSuffix x "/" = false.
Proof.
  intros Hx. unfold strings.HasSuffix.
  destruct (String.eqb _ "/") eqn:He; [|apply andb_false_r].
  apply String.eqb_eq in He. apply drop_all_but_one in He. congruence.
Qed.

Lemma append_assoc (a b c : string) : (a +:+ b) +:+ c = a +:+ (b +:+ c).
Proof.
  induction a as [|x a IH]; [reflexivity|].
  rewrite !append_cons, IH. reflexivity.
Qed.

Lemma take_drop (n : nat) (s : string) :
  strings.take n s +:+ strings.drop n s = s.
Proof.
  revert n. induction s as [|c s IH]; intros [|n]; try reflexivity.
  cbn [strings.take strings.drop]. rewrite append_cons, IH. reflexivity.
Qed.

Lemma HasSuffix_true (s suffix : string) :
  strings.HasSuffix s suffix = true ->
  s = strings.TrimSuffix s suffix +:+ suffix.
Proof.
  intros Hs. unfold strings.TrimSuffix. rewrite Hs.
  unfold strings.HasSuffix in Hs. apply andb_prop in Hs as [_ Hs].
  apply String.eqb_eq in Hs.
  pose proof (take_drop (String.length s - String.length suffix) s) as Htd.
  rewrite Hs in Htd. symmetry. exact Htd.
Qed.

Lemma length_append (s t : string) :
  String.length (s +:+ t) = (String.length s + String.length t)%nat.
Proof.
  induction s as [|c s IH]; [reflexivity|].
  rewrite append_cons. cbn [String.length]. rewrite IH. reflexivity.
Qed.

Lemma drop_append (s t : string) : strings.drop (String.length s) (s +:+ t) = t.
Proof. induction s as [|c s IH]; [reflexivity | exact IH]. Qed.

Lemma HasSuffix_append (s suffix : string) :
  strings.HasSuffix (s +:+ suffix) suffix = true.
Proof.
  unfold strings.HasSuffix. rewrite length_append.
  replace (String.length s + String.length suffix - String.length suffix)%nat
    with (String.length s) by lia.
  rewrite drop_append, String.eqb_refl, andb_true_r.
  apply Nat.leb_le. lia.
Qed.

Lemma append_inv_tail (s t u : string) : s +:+ u = t +:+ u -> s = t.
Proof.
  revert t. induction s as [|c s IH]; intros [|d t] Heq.
  - reflexivity.
  - exfalso. apply (f_equal String.length) in Heq.
    rewrite append_empty, append_cons in Heq. cbn [String.length] in Heq.
    rewrite length_append in Heq. lia.
  - exfalso. apply (f_equal String.length) in Heq.
    rewrite append_empty, append_cons in Heq. cbn [String.length] in Heq.
    rewrite length_append in Heq. lia.
  - rewrite !append_cons in Heq. injection Heq as -> Heq.
    rewrite (IH t Heq). reflexivity.
Qed.

End StringFacts.

(** ** Path patterns *)
Section PathPatterns.
Context {L : RegexpLib}.

Lemma Main_matchesPattern_path (X p baseName : string) :
  Main.matchesPattern ("/" +:+ X) p baseName
  = strings.HasPrefix (Spec.firstSegment p) X.
Proof.
  unfold Main.matchesPattern, Main.matchesPathPattern, Main.isPathPattern,
    Main.filepath_Separator.
  rewrite append_cons, append_empty. simpl. eqb_literals. simpl.
  destruct (Split_firstSegment p) as [parts ->].
  unfold strings.TrimPrefix. simpl. eqb_literals. reflexivity.
Qed.

Lemma Tui_matchesPattern_path (X p baseName : string) :
  strings.Contains X "/" = false ->
  Tui.matchesPattern ("/" +:+ X) p baseName
  = strings.HasPrefix (Spec.firstSegment p) X.
Proof.
  intros HX.
  unfold Tui.matchesPattern, Tui.matchesPathPattern, Tui.isPathPattern.
  rewrite append_cons, append_empty. simpl. eqb_literals. simpl.
  unfold strings.TrimPrefix. simpl. eqb_literals. simpl.
  rewrite (HasSuffix_slash X HX). apply HasPrefix_firstSegment, HX.
Qed.

(** The path matcher of package [tui], for every [X]. *)
Lemma Tui_matchesPattern_path_general (X p baseName : string) :
  Tui.matchesPattern ("/" +:+ X) p baseName = true
  <-> Spec.hasPrefix p X \/ X = p +:+ "/".
Proof.
  unfold Tui.matchesPattern, Tui.matchesPathPattern, Tui.isPathPattern.
  rewrite append_cons, append_empty. simpl. eqb_literals. simpl.
  unfold strings.TrimPrefix. simpl. eqb_literals. simpl.
  destruct (strings.HasSuffix X "/") eqn:Hslash.
  - pose proof (HasSuffix_true X "/" Hslash) as HX.
    set (Y := strings.TrimSuffix X "/") in *.
    rewrite orb_true_iff, String.eqb_eq, <- HX, HasPrefix_true_iff.
    split; (intros [Hpre|Heq]; [left; exact Hpre | right]).
    + rewrite HX, Heq. reflexivity.
    + rewrite HX in Heq. symmetry. apply (append_inv_tail _ _ "/"). exact Heq.
  - rewrite HasPrefix_true_iff. split; [intros Hpre; left; exact Hpre|].
    intros [Hpre|Heq]; [exact Hpre|]. exfalso.
    rewrite Heq, HasSuffix_append in Hslash. discriminate.
Qed.

End PathPatterns.

(** ** Glob translation *)
Section Glob.

Lemma special_false (c x : ascii) :
  regexp.special c = false -> In x regexp.specialBytes -> Ascii.eqb c x = false.
Proof.
  intros Hs Hin. destruct (Ascii.eqb c x) eqn:E; [|reflexivity].
  assert (existsb (Ascii.eqb c) regexp.specialBytes = true) as Hex.
  { apply existsb_exists. exists x. split; assumption. }
  unfold regexp.special in Hs. congruence.
Qed.

Lemma special_true_neq (c x : ascii) :
  regexp.special c = false -> regexp.special x = true -> Ascii.eqb c x = false.
Proof.
  intros Hc Hx. destruct (Ascii.eqb c x) eqn:E; [|reflexivity].
  apply Ascii.eqb_eq in E. congruence.
Qed.

Ltac special_member := simpl; tauto.

(** A quoted string never begins with a bare star or question mark. *)
Lemma QuoteMeta_head (g : string) (x : ascii) :
  regexp.special x = true -> Ascii.eqb "\" x = false ->
  strings.HasPrefix (regexp.QuoteMeta g) (String x "") = false.
Proof.
  intros Hx Hb. destruct g as [|c g]; [reflexivity|]. simpl.
  destruct (regexp.special c) eqn:Hc; simpl.
  - rewrite Hb. reflexivity.
  - rewrite (special_true_neq c x Hc Hx). reflexivity.
Qed.

Lemma starBody_head (g : string) :
  strings.HasPrefix (Spec.starBody g) "?" = false.
Proof.
  destruct g as [|c g]; [reflexivity|]. simpl. unfold Spec.starByte.
  destruct (Ascii.eqb c "*") eqn:Hstar.
  - rewrite !append_cons. simpl. eqb_literals. reflexivity.
  - destruct (regexp.special c) eqn:Hc.
    + rewrite !append_cons. simpl. eqb_literals. reflexivity.
    + rewrite !append_cons. simpl.
      rewrite (special_false c "?" Hc) by special_member. reflexivity.
Qed.

Lemma ReplaceAll_star (g : string) :
  strings.ReplaceAll (regexp.QuoteMeta g) "\*" ".*" = Spec.starBody g.
Proof.
  unfold strings.ReplaceAll.
  induction g as [|c g IH]; [reflexivity|].
  simpl regexp.QuoteMeta. simpl Spec.starBody. unfold Spec.starByte.
  destruct (regexp.special c) eqn:Hc.
  - destruct (Ascii.eqb c "*") eqn:Hstar.
    + simpl. eqb_literals. rewrite Hstar. simpl. rewrite IH. reflexivity.
    + simpl. eqb_literals. rewrite Hstar. simpl.
      pose proof (QuoteMeta_head g "*" eq_refl eq_refl) as Hh.
      simpl in Hh. rewrite Hh, andb_false_r, IH. reflexivity.
  - rewrite (special_false c "*" Hc) by special_member.
    simpl. rewrite (special_false c "\" Hc) by special_member.
    simpl. rewrite IH. reflexivity.
Qed.

Lemma ReplaceAll_quest (g : string) :
  strings.ReplaceAll (Spec.starBody g) "\?" "." = Spec.globBody g.
Proof.
  unfold strings.ReplaceAll.
  induction g as [|c g IH]; [reflexivity|].
  simpl Spec.starBody. simpl Spec.globBody.
  unfold Spec.starByte, Spec.globByte.
  destruct (Ascii.eqb c "*") eqn:Hstar.
  - rewrite !append_cons, !append_empty. simpl. eqb_literals. simpl.
    rewrite IH. reflexivity.
  - destruct (Ascii.eqb c "?") eqn:Hq.
    + apply Ascii.eqb_eq in Hq as ->.
      change (regexp.special "?") with true.
      rewrite !append_cons, !append_empty. simpl. eqb_literals. simpl.
      rewrite IH. reflexivity.
    + destruct (regexp.special c) eqn:Hc.
      * rewrite !append_cons, !append_empty. simpl. eqb_literals.
        rewrite Hq. simpl. pose proof (starBody_head g) as Hh.
        simpl in Hh. rewrite Hh, andb_false_r, IH. reflexivity.
      * rewrite !append_cons, !append_empty. simpl.
        rewrite (special_false c "\" Hc) by special_member.
        simpl. rewrite IH. reflexivity.
Qed.

Lemma HasSuffix_after_caret (s : string) :
  strings.HasSuffix (String "^" s) ".*" = strings.HasSuffix s ".*".
Proof.
  destruct s as [|d [|e s]].
  - reflexivity.
  - unfold strings.HasSuffix. simpl. unfold String.eqb. eqb_literals.
    reflexivity.
  - unfold strings.HasSuffix. simpl. rewrite Nat.sub_0_r. reflexivity.
Qed.

(** The code's translation is the specification's. *)
Lemma globToRegex_spec (glob : string) :
  Tui.globToRegex glob = Spec.globRegex glob.
Proof.
  unfold Tui.globToRegex, Spec.globRegex.
  rewrite ReplaceAll_star, ReplaceAll_quest.
  destruct (strings.HasPrefix (Spec.globBody glob) ".*") eqn:Hp; simpl.
  - rewrite append_empty.
    destruct (strings.HasSuffix (Spec.globBody glob) ".*"); simpl;
      [rewrite append_nil_r|]; reflexivity.
  - rewrite !append_cons, !append_empty, HasSuffix_after_caret.
    destruct (strings.HasSuffix (Spec.globBody glob) ".*"); simpl;
      [rewrite append_nil_r|]; reflexivity.
Qed.

End Glob.

(** ** The scan *)
Section ScanFacts.
Context {L : RegexpLib} {P : PathLib}.
Variable disk : gmap string Node.

Lemma filepath_Walk_app {St : Type} (pre rest : list WalkEntry)
    (fn : WalkEntry -> St -> St * option error) (s : St) :
  filepath_Walk (pre ++ rest) fn s
  = match filepath_Walk pre fn s with
    | (s', Some err) => (s', Some err)
    | (s', None) => filepath_Walk rest fn s'
    end.
Proof.
  revert s. induction pre as [|e pre IH]; intros s; simpl; [reflexivity|].
  destruct (fn e s) as [s' [err|]]; [reflexivity | apply IH].
Qed.

(** The two callbacks of package [main] keep the same included list and
    stop at the same entry with the same error. *)
Lemma Main_walk_collect_dry (root : string) (allExcl incl : list string)
    (entries : list WalkEntry) (inc exc : list string) :
  filepath_Walk entries (Main.collectFiles_walkFn disk root allExcl incl) inc
  = let r := filepath_Walk entries
               (Main.performDryRun_walkFn disk root allExcl incl) (inc, exc) in
    (r.1.1, r.2).
Proof.
  revert inc exc. induction entries as [|e entries IH]; intros inc exc;
    [reflexivity|].
  simpl. unfold Main.collectFiles_walkFn, Main.performDryRun_walkFn.
  destruct (we_err e) as [err|]; [reflexivity|].
  destruct (IsDir (we_info e)); [apply IH|].
  destruct (filepath_Rel root (we_path e)) as [rel|err]; [|reflexivity].
  destruct (Main.isTextFile disk (we_path e)); simpl;
    destruct (existsb _ allExcl); simpl; try apply IH;
    destruct ((0 <? length incl)%nat && negb (existsb _ incl)); apply IH.
Qed.

Lemma Main_collect_dry (Walk : string -> list WalkEntry) (root : string)
    (excl incl : list string) :
  Main.collectFiles Walk disk root excl incl
  = let r := Main.performDryRun Walk disk root excl incl in (r.1.1, r.2).
Proof.
  unfold Main.collectFiles, Main.performDryRun.
  destruct (Main.validatePatterns "exclusion" excl); [reflexivity|].
  destruct (Main.validatePatterns "inclusion" incl); [reflexivity|].
  rewrite (Main_walk_collect_dry root _ incl (Walk root) [] []).
  destruct (filepath_Walk _ _ _) as [[inc exc] err]. reflexivity.
Qed.

Lemma Tui_collect_dry (Walk : string -> list WalkEntry) (root : string)
    (excl incl : list string) :
  Tui.collectFiles Walk disk root excl incl
  = let r := Tui.performDryRun Walk disk root excl incl in (r.1.1, r.2).
Proof.
  unfold Tui.collectFiles.
  destruct (Tui.performDryRun Walk disk root excl incl) as [[inc exc] err].
  reflexivity.
Qed.

(** An entry that carries an error stops either callback at once. *)
Lemma Main_dry_walk_stops (root : string) (allExcl incl : list string)
    (pre post : list WalkEntry) (e : WalkEntry) (err : error)
    (st st' : list string * list string) :
  we_err e = Some err ->
  filepath_Walk pre (Main.performDryRun_walkFn disk root allExcl incl) st
  = (st', None) ->
  filepath_Walk (pre ++ e :: post)
    (Main.performDryRun_walkFn disk root allExcl incl) st
  = (st', Some err).
Proof.
  intros He Hpre. rewrite filepath_Walk_app, Hpre. simpl.
  unfold Main.performDryRun_walkFn. destruct st'. rewrite He. reflexivity.
Qed.

Lemma Main_collect_walk_stops (root : string) (allExcl incl : list string)
    (pre post : list WalkEntry) (e : WalkEntry) (err : error)
    (st st' : list string) :
  we_err e = Some err ->
  filepath_Walk pre (Main.collectFiles_walkFn disk root allExcl incl) st
  = (st', None) ->
  filepath_Walk (pre ++ e :: post)
    (Main.collectFiles_walkFn disk root allExcl incl) st
  = (st', Some err).
Proof.
  intros He Hpre. rewrite filepath_Walk_app, Hpre. simpl.
  unfold Main.collectFiles_walkFn. rewrite He. reflexivity.
Qed.

Lemma Tui_dry_walk_stops (root : string) (allExcl incl : list string)
    (pre post : list WalkEntry) (e : WalkEntry) (err : error)
    (st st' : list string * list string) :
  we_err e = Some err ->
  filepath_Walk pre (Tui.performDryRun_walkFn disk root allExcl incl) st
  = (st', None) ->
  filepath_Walk (pre ++ e :: post)
    (Tui.performDryRun_walkFn disk root allExcl incl) st
  = (st', Some err).
Proof.
  intros He Hpre. rewrite filepath_Walk_app, Hpre. simpl.
  unfold Tui.performDryRun_walkFn. destruct st'. rewrite He. reflexivity.
Qed.

Lemma Main_dry_run_stops (Walk Walk' : string -> list WalkEntry)
    (root : string) (excl incl : list string) (e : WalkEntry)
    (post : list WalkEntry) (err : error) (inc exc : list string) :
  Walk' root = Walk root ++ e :: post ->
  we_err e = Some err ->
  Main.performDryRun Walk disk root excl incl = (inc, exc, None) ->
  Main.performDryRun Walk' disk root excl incl = (inc, exc, Some err).
Proof.
  intros HW He. unfold Main.performDryRun.
  destruct (Main.validatePatterns "exclusion" excl); [discriminate|].
  destruct (Main.validatePatterns "inclusion" incl); [discriminate|].
  destruct (filepath_Walk (Walk root) _ _) as [[i x] o] eqn:Hpre.
  intros [= -> -> ->]. rewrite HW.
  rewrite (Main_dry_walk_stops _ _ _ _ _ _ _ _ _ He Hpre). reflexivity.
Qed.

Lemma Main_collect_stops (Walk Walk' : string -> list WalkEntry)
    (root : string) (excl incl : list string) (e : WalkEntry)
    (post : list WalkEntry) (err : error) (found : list string) :
  Walk' root = Walk root ++ e :: post ->
  we_err e = Some err ->
  Main.collectFiles Walk disk root excl incl = (found, None) ->
  Main.collectFiles Walk' disk root excl incl = (found, Some err).
Proof.
  intros HW He. unfold Main.collectFiles.
  destruct (Main.validatePatterns "exclusion" excl); [discriminate|].
  destruct (Main.validatePatterns "inclusion" incl); [discriminate|].
  intros Hpre. rewrite HW.
  apply (Main_collect_walk_stops _ _ _ _ _ _ _ _ _ He Hpre).
Qed.

Lemma Tui_dry_run_stops (Walk Walk' : string -> list WalkEntry)
    (root : string) (excl incl : list string) (e : WalkEntry)
    (post : list WalkEntry) (err : error) (inc exc : list string) :
  Walk' root = Walk root ++ e :: post ->
  we_err e = Some err ->
  Tui.performDryRun Walk disk root excl incl = (inc, exc, None) ->
  Tui.performDryRun Walk' disk root excl incl = (inc, exc, Some err).
Proof.
  intros HW He. unfold Tui.performDryRun.
  destruct (Tui.validatePatterns "exclusion" excl); [discriminate|].
  destruct (Tui.validatePatterns "inclusion" incl); [discriminate|].
  destruct (filepath_Walk (Walk root) _ _) as [[i x] o] eqn:Hpre.
  intros [= -> -> ->]. rewrite HW.
  rewrite (Tui_dry_walk_stops _ _ _ _ _ _ _ _ _ He Hpre). reflexivity.
Qed.

End ScanFacts.

(** ** Text classification *)
Section TextFacts.
Context {L : RegexpLib} {P : PathLib}.
Variable disk : gmap string Node.

Lemma null_byte_found (content : string) (n i : nat) :
  (i < n)%nat -> String.get i content = Some "000"%char ->
  no_null_byte (strings.take n content) = false.
Proof.
  revert n i. induction content as [|b content IH]; intros n i Hi Hget.
  - destruct i; discriminate.
  - destruct n as [|n]; [lia|]. simpl.
    destruct (Ascii.eqb b "000") eqn:Hb; [reflexivity|].
    destruct i as [|i].
    + simpl in Hget. injection Hget as ->. discriminate.
    + simpl in Hget. apply (IH n i); [lia | exact Hget].
Qed.

Lemma sample_has_null (content : string) :
  Spec.nullInSample content ->
  no_null_byte (strings.take 512 content) = false.
Proof.
  intros (i & Hi & Hget). apply (null_byte_found content 512 i); [lia | exact Hget].
Qed.

Lemma Main_isTextFile_null (path content : string) :
  disk !! path = Some (RegularFile content) ->
  Spec.nullInSample content ->
  Main.isTextFile disk path = false.
Proof.
  intros Hfile Hnull. unfold Main.isTextFile, open_and_read. rewrite Hfile.
  pose proof (sample_has_null content Hnull) as Hs.
  destruct (strings.take 512 content); [discriminate | exact Hs].
Qed.

Lemma Tui_isTextFile_null (path content : string) :
  disk !! path = Some (RegularFile content) ->
  Spec.nullInSample content ->
  Tui.isTextFile disk path = false.
Proof.
  intros Hfile Hnull. unfold Tui.isTextFile, open_and_read. rewrite Hfile.
  pose proof (sample_has_null content Hnull) as Hs.
  destruct (strings.take 512 content); [discriminate | exact Hs].
Qed.

(** Whatever the callbacks add to the included list passed [isTextFile]. *)
Lemma Main_dry_walk_included (root : string) (allExcl incl : list string)
    (entries : list WalkEntry) (st st' : list string * list string)
    (err : option error) :
  filepath_Walk entries (Main.performDryRun_walkFn disk root allExcl incl) st
  = (st', err) ->
  forall p, In p st'.1 -> In p st.1 \/ Main.isTextFile disk p = true.
Proof.
  revert st. induction entries as [|e entries IH]; intros st; simpl.
  - intros [= <- <-] p Hp. left. exact Hp.
  - destruct st as [inc exc]. unfold Main.performDryRun_walkFn at 1.
    destruct (we_err e) as [er|]; [intros [= <- <-] p Hp; left; exact Hp|].
    destruct (IsDir (we_info e)); [apply IH|].
    destruct (filepath_Rel root (we_path e)) as [rel|er];
      [|intros [= <- <-] p Hp; left; exact Hp].
    destruct (Main.isTextFile disk (we_path e)) eqn:Htext; simpl;
      [|apply IH].
    destruct (existsb _ allExcl); [apply IH|].
    destruct ((0 <? length incl)%nat && negb (existsb _ incl)); [apply IH|].
    intros Hw p Hp. destruct (IH _ Hw p Hp) as [Hin|Ht]; [|right; exact Ht].
    simpl in Hin. apply in_app_or in Hin as [Hin|[<-|[]]];
      [left; exact Hin | right; exact Htext].
Qed.

Lemma Tui_dry_walk_included (root : string) (allExcl incl : list string)
    (entries : list WalkEntry) (st st' : list string * list string)
    (err : option error) :
  filepath_Walk entries (Tui.performDryRun_walkFn disk root allExcl incl) st
  = (st', err) ->
  forall p, In p st'.1 -> In p st.1 \/ Tui.isTextFile disk p = true.
Proof.
  revert st. induction entries as [|e entries IH]; intros st; simpl.
  - intros [= <- <-] p Hp. left. exact Hp.
  - destruct st as [inc exc]. unfold Tui.performDryRun_walkFn at 1.
    destruct (we_err e) as [er|]; [intros [= <- <-] p Hp; left; exact Hp|].
    destruct (IsDir (we_info e)); [apply IH|].
    destruct (Tui.isTextFile disk (we_path e)) eqn:Htext; simpl;
      [|apply IH].
    destruct (filepath_Rel root (we_path e)) as [rel|er];
      [|intros [= <- <-] p Hp; left; exact Hp].
    destruct (existsb _ allExcl); [apply IH|].
    destruct ((0 <? length incl)%nat && negb (existsb _ incl)); [apply IH|].
    intros Hw p Hp. destruct (IH _ Hw p Hp) as [Hin|Ht]; [|right; exact Ht].
    simpl in Hin. apply in_app_or in Hin as [Hin|[<-|[]]];
      [left; exact Hin | right; exact Htext].
Qed.

(** A walk that ends without error has put every file that fails
    [isTextFile] on the excluded list, and dropped nothing from it. *)
Lemma Main_dry_walk_excluded (root : string) (allExcl incl : list string)
    (entries : list WalkEntry) (st st' : list string * list string) :
  filepath_Walk entries (Main.performDryRun_walkFn disk root allExcl incl) st
  = (st', None) ->
  (forall p, In p st.2 -> In p st'.2)
  /\ (forall e, In e entries -> we_err e = None -> IsDir (we_info e) = false ->
      Main.isTextFile disk (we_path e) = false -> In (we_path e) st'.2).
Proof.
  revert st. induction entries as [|e entries IH]; intros st; simpl.
  - intros [= <-]. split; [auto | intros e []].
  - destruct (Main.performDryRun_walkFn disk root allExcl incl e st)
      as [st1 [er|]] eqn:Hstep; [discriminate|].
    intros Hw. destruct (IH _ Hw) as [Hmono Hbin].
    assert (forall p, In p st.2 -> In p st1.2) as Hmono1.
    { destruct st as [inc exc]. unfold Main.performDryRun_walkFn in Hstep.
      destruct (we_err e); [discriminate|].
      destruct (IsDir (we_info e)); [injection Hstep as <-; auto|].
      destruct (filepath_Rel root (we_path e)); [|discriminate].
      destruct (negb _); [injection Hstep as <-; simpl; auto using in_or_app|].
      destruct (existsb _ allExcl);
        [injection Hstep as <-; simpl; auto using in_or_app|].
      destruct (_ && _); injection Hstep as <-; simpl; auto using in_or_app. }
    split; [auto|].
    intros e' [<-|Hin] Herr Hdir Htext; [|apply (Hbin e' Hin Herr Hdir Htext)].
    apply Hmono. destruct st as [inc exc].
    unfold Main.performDryRun_walkFn in Hstep. rewrite Herr, Hdir in Hstep.
    destruct (filepath_Rel root (we_path e)); [|discriminate].
    rewrite Htext in Hstep. simpl in Hstep. injection Hstep as <-. simpl.
    apply in_or_app. right. left. reflexivity.
Qed.

Lemma Tui_dry_walk_excluded (root : string) (allExcl incl : list string)
    (entries : list WalkEntry) (st st' : list string * list string) :
  filepath_Walk entries (Tui.performDryRun_walkFn disk root allExcl incl) st
  = (st', None) ->
  (forall p, In p st.2 -> In p st'.2)
  /\ (forall e, In e entries -> we_err e = None -> IsDir (we_info e) = false ->
      Tui.isTextFile disk (we_path e) = false -> In (we_path e) st'.2).
Proof.
  revert st. induction entries as [|e entries IH]; intros st; simpl.
  - intros [= <-]. split; [auto | intros e []].
  - destruct (Tui.performDryRun_walkFn disk root allExcl incl e st)
      as [st1 [er|]] eqn:Hstep; [discriminate|].
    intros Hw. destruct (IH _ Hw) as [Hmono Hbin].
    assert (forall p, In p st.2 -> In p st1.2) as Hmono1.
    { destruct st as [inc exc]. unfold Tui.performDryRun_walkFn in Hstep.
      destruct (we_err e); [discriminate|].
      destruct (IsDir (we_info e)); [injection Hstep as <-; auto|].
      destruct (negb _); [injection Hstep as <-; simpl; auto using in_or_app|].
      destruct (filepath_Rel root (we_path e)); [|discriminate].
      destruct (existsb _ allExcl);
        [injection Hstep as <-; simpl; auto using in_or_app|].
      destruct (_ && _); injection Hstep as <-; simpl; auto using in_or_app. }
    split; [auto|].
    intros e' [<-|Hin] Herr Hdir Htext; [|apply (Hbin e' Hin Herr Hdir Htext)].
    apply Hmono. destruct st as [inc exc].
    unfold Tui.performDryRun_walkFn in Hstep. rewrite Herr, Hdir in Hstep.
    rewrite Htext in Hstep. simpl in Hstep. injection Hstep as <-. simpl.
    apply in_or_app. right. left. reflexivity.
Qed.

Lemma Main_dry_run_included (Walk : string -> list WalkEntry) (root : string)
    (excl incl : list string) (p : string) :
  In p (Main.performDryRun Walk disk root excl incl).1.1 ->
  Main.isTextFile disk p = true.
Proof.
  unfold Main.performDryRun.
  destruct (Main.validatePatterns "exclusion" excl); [intros []|].
  destruct (Main.validatePatterns "inclusion" incl); [intros []|].
  destruct (filepath_Walk (Walk root) _ _) as [[inc exc] err] eqn:Hw.
  simpl. intros Hp.
  destruct (Main_dry_walk_included _ _ _ _ _ _ _ Hw p Hp) as [[]|Ht]. exact Ht.
Qed.

Lemma Tui_dry_run_included (Walk : string -> list WalkEntry) (root : string)
    (excl incl : list string) (p : string) :
  In p (Tui.performDryRun Walk disk root excl incl).1.1 ->
  Tui.isTextFile disk p = true.
Proof.
  unfold Tui.performDryRun.
  destruct (Tui.validatePatterns "exclusion" excl); [intros []|].
  destruct (Tui.validatePatterns "inclusion" incl); [intros []|].
  destruct (filepath_Walk (Walk root) _ _) as [[inc exc] err] eqn:Hw.
  simpl. intros Hp.
  destruct (Tui_dry_walk_included _ _ _ _ _ _ _ Hw p Hp) as [[]|Ht]. exact Ht.
Qed.

Lemma Main_dry_run_excluded (Walk : string -> list WalkEntry) (root : string)
    (excl incl : list string) (e : WalkEntry) :
  In e (Walk root) -> we_err e = None -> IsDir (we_info e) = false ->
  Main.isTextFile disk (we_path e) = false ->
  (Main.performDryRun Walk disk root excl incl).2 = None ->
  In (we_path e) (Main.performDryRun Walk disk root excl incl).1.2.
Proof.
  intros Hin Herr Hdir Htext. unfold Main.performDryRun.
  destruct (Main.validatePatterns "exclusion" excl); [discriminate|].
  destruct (Main.validatePatterns "inclusion" incl); [discriminate|].
  destruct (filepath_Walk (Walk root) _ _) as [[inc exc] err] eqn:Hw.
  simpl. intros ->.
  apply (Main_dry_walk_excluded _ _ _ _ _ _ Hw); assumption.
Qed.

Lemma Tui_dry_run_excluded (Walk : string -> list WalkEntry) (root : string)
    (excl incl : list string) (e : WalkEntry) :
  In e (Walk root) -> we_err e = None -> IsDir (we_info e) = false ->
  Tui.isTextFile disk (we_path e) = false ->
  (Tui.performDryRun Walk disk root excl incl).2 = None ->
  In (we_path e) (Tui.performDryRun Walk disk root excl incl).1.2.
Proof.
  intros Hin Herr Hdir Htext. unfold Tui.performDryRun.
  destruct (Tui.validatePatterns "exclusion" excl); [discriminate|].
  destruct (Tui.validatePatterns "inclusion" incl); [discriminate|].
  destruct (filepath_Walk (Walk root) _ _) as [[inc exc] err] eqn:Hw.
  simpl. intros ->.
  apply (Tui_dry_walk_excluded _ _ _ _ _ _ Hw); assumption.
Qed.

End TextFacts.

(** ** The cache *)
Section CacheFacts.
Context {P : PathLib} {Hst : HostLib}.

Lemma After_true (t u : Z) : u < t -> After t u = true.
Proof. intros Hlt. unfold After. apply Z.ltb_lt. exact Hlt. Qed.

Lemma After_false (t u : Z) : t <= u -> After t u = false.
Proof. intros Hle. unfold After. apply Z.ltb_ge. exact Hle. Qed.

Lemma getCachedRepo_expired (w : World) (url data : string) (entry : CacheEntry) :
  files w !! metadataPathOf url = Some (RegularFile data) ->
  json_Unmarshal data = Ok entry ->
  ExpiresAt entry < clock w (reads w) ->
  RepoPath entry <> "" ->
  exists w',
    getCachedRepo url w = (("", false, 0, None), w')
    /\ files w'
       = filter (fun kv => ~ under (RepoPath entry) kv.1)
           (delete (metadataPathOf url) (files w)).
Proof.
  intros Hmeta Hparse Hexp Hpath. unfold metadataPathOf in *.
  unfold getCachedRepo. run_io.
  rewrite Hmeta; run_io; rewrite Hmeta; run_io. rewrite Hparse. run_io.
  rewrite (After_true _ _ Hexp). run_io. rewrite Hmeta. run_io.
  destruct (decide (RepoPath entry = "")) as [Heq|_]; [contradiction|].
  run_io. eexists. split; reflexivity.
Qed.

Lemma getCachedRepo_at_expiry (w : World) (url data : string)
    (entry : CacheEntry) (n : Node) :
  files w !! metadataPathOf url = Some (RegularFile data) ->
  json_Unmarshal data = Ok entry ->
  clock w (reads w) <= ExpiresAt entry ->
  files w !! RepoPath entry = Some n ->
  exists w',
    getCachedRepo url w
    = ((RepoPath entry, true, CachedAt entry, None), w')
    /\ files w' = files w.
Proof.
  intros Hmeta Hparse Hexp Hrepo. unfold metadataPathOf in *.
  unfold getCachedRepo. run_io.
  rewrite Hmeta; run_io; rewrite Hmeta; run_io. rewrite Hparse. run_io.
  rewrite (After_false _ _ Hexp). run_io. rewrite Hrepo.
  eexists. split; reflexivity.
Qed.

Lemma getCachedRepo_unreadable (w : World) (url : string) :
  files w !! metadataPathOf url = Some Directory ->
  getCachedRepo url w
  = (("", false, 0, Some ("read " +:+ metadataPathOf url +:+ ": is a directory")),
     mkWorld (files w) (clock w) (reads w) (temps w)
       (trace w ++ [EvStat (metadataPathOf url); EvReadFile (metadataPathOf url)])).
Proof.
  intros Hmeta. unfold metadataPathOf in *. unfold getCachedRepo. run_io.
  rewrite Hmeta; run_io; rewrite Hmeta; run_io. rewrite <- app_assoc. reflexivity.
Qed.

Lemma getCachedRepo_unparsable (w : World) (url data : string) (err : error) :
  files w !! metadataPathOf url = Some (RegularFile data) ->
  json_Unmarshal data = Err err ->
  getCachedRepo url w
  = (("", false, 0, Some err),
     mkWorld (files w) (clock w) (reads w) (temps w)
       (trace w ++ [EvStat (metadataPathOf url); EvReadFile (metadataPathOf url)])).
Proof.
  intros Hmeta Hparse. unfold metadataPathOf in *. unfold getCachedRepo. run_io.
  rewrite Hmeta; run_io; rewrite Hmeta; run_io. rewrite Hparse. rewrite <- app_assoc. reflexivity.
Qed.

(** What a successful [cacheRepo] leaves behind. *)
Lemma cacheRepo_stored (w w1 : World) (url repoPath : string) :
  cacheRepo url repoPath w = (None, w1) ->
  exists data,
    json_Marshal {| URL := url;
                    CachedAt := clock w (reads w);
                    RepoPath := repoPath;
                    ExpiresAt := clock w (S (reads w)) + 5 * time_Minute |}
    = Ok data
    /\ files w1 !! metadataPathOf url = Some (RegularFile data)
    /\ clock w1 = clock w /\ reads w1 = S (S (reads w)).
Proof.
  unfold cacheRepo, metadataPathOf. run_io.
  destruct (files w !! getTmpCacheDir) as [[content| ]|] eqn:Hdir; run_io;
    [discriminate| |].
  - destruct (json_Marshal _) as [data|err] eqn:Hm; run_io; [|discriminate].
    destruct (files w !! filepath_Join _ _) as [[c| ]|] eqn:Hf; run_io;
      [|discriminate|]; intros [= <-]; simpl; exists data;
      rewrite lookup_insert_eq; auto.
  - destruct (json_Marshal _) as [data|err] eqn:Hm; run_io; [|discriminate].
    destruct (<[getTmpCacheDir:=Directory]> (files w) !! filepath_Join _ _)
      as [[c| ]|] eqn:Hf; run_io;
      [|discriminate|]; intros [= <-]; simpl; exists data;
      rewrite lookup_insert_eq; auto.
Qed.

End CacheFacts.

(** ** Resolution *)
Section ResolveFacts.
Context {P : PathLib} {Hst : HostLib}.

Lemma String_eqb_false (s t : string) : s <> t -> String.eqb s t = false.
Proof. intros Hne. apply String.eqb_neq. exact Hne. Qed.

Lemma Tui_resolve_nothing (config : Tui.Config) (w : World) :
  Tui.Path config = "" -> Tui.URL config = "" ->
  Tui.resolveRepositoryPath config w
  = (("", Some "please specify either a repository URL or local path"), w).
Proof.
  intros HP HU. unfold Tui.resolveRepositoryPath. rewrite HP, HU. reflexivity.
Qed.

Lemma Tui_resolve_local (config : Tui.Config) (w : World) :
  Tui.Path config <> "" ->
  Tui.resolveRepositoryPath config w = ((Tui.Path config, None), w).
Proof.
  intros HP. unfold Tui.resolveRepositoryPath.
  rewrite (String_eqb_false _ _ HP). reflexivity.
Qed.

(** An error of the lookup ends the TUI's resolution. *)
Lemma Tui_resolve_lookup_error (config : Tui.Config) (w w' : World)
    (p : string) (found : bool) (t : Z) (err : error) :
  Tui.Path config = "" -> Tui.URL config <> "" ->
  getCachedRepo (Tui.URL config) w = ((p, found, t, Some err), w') ->
  Tui.resolveRepositoryPath config w
  = (("", Some ("cache check failed: " +:+ err)), w').
Proof.
  intros HP HU Hlookup. unfold Tui.resolveRepositoryPath.
  rewrite HP, (String_eqb_false _ _ HU). cbn [negb].
  change (String.eqb "" "") with true. cbn [negb].
  unfold mbind, IO_bind. rewrite Hlookup. reflexivity.
Qed.

(** An error of the lookup is printed by the command line and the
    repository is cloned as on a miss. *)
Lemma Main_resolve_lookup_error (config : Main.Config) (w w' : World)
    (p : string) (found : bool) (t : Z) (err : error) :
  Main.localPath config = "" ->
  getCachedRepo (Main.githubURL config) w = ((p, found, t, Some err), w') ->
  Main.processRepository_resolve config w
  = Main.processRepository_clone config
      (mkWorld (files w') (clock w') (reads w') (temps w')
         (trace w' ++ [EvPrint ("Warning: cache check failed: " +:+ err)])).
Proof.
  intros HP Hlookup. unfold Main.processRepository_resolve.
  rewrite HP. change (String.eqb "" "") with true. cbn [negb].
  unfold mbind at 1. unfold IO_bind at 1. rewrite Hlookup.
  run_io. change (String.eqb "" "") with true. reflexivity.
Qed.

End ResolveFacts.

(** ** The scenarios of the specification, evaluated *)
Section Scenarios.

Example built_in_patterns_compile :
  forallb (fun pattern =>
             match RE2Fragment.Compile pattern with
             | Ok _ => true
             | Err _ => false
             end) defaultExclusionPatterns = true.
Proof. vm_compute. reflexivity. Qed.

Example default_exclusions_scenario :
  Main.performDryRun (L := RE2Fragment.lib) (P := Sample.paths)
    Scenario.specTreeWalk Scenario.specTree "/w" [] []
  = (["/w/a.go"; "/w/b.txt"], ["/w/.git/config"; "/w/img.png"], None)
  /\ Tui.performDryRun (L := RE2Fragment.lib) (P := Sample.paths)
       Scenario.specTreeWalk Scenario.specTree "/w" [] []
     = (["/w/a.go"; "/w/b.txt"], ["/w/.git/config"; "/w/img.png"], None).
Proof. split; vm_compute; reflexivity. Qed.

Example path_inclusion_scenario :
  Main.performDryRun (L := RE2Fragment.lib) (P := Sample.paths)
    Scenario.srcTreeWalk Scenario.srcTree "/w" [] ["/src"]
  = (["/w/src/a.go"], ["/w/lib/b.go"; "/w/main.go"], None)
  /\ Tui.performDryRun (L := RE2Fragment.lib) (P := Sample.paths)
       Scenario.srcTreeWalk Scenario.srcTree "/w" [] ["/src"]
     = (["/w/src/a.go"], ["/w/lib/b.go"; "/w/main.go"], None).
Proof. split; vm_compute; reflexivity. Qed.

(** A glob among the exclusions: package [tui] applies it, package [main]
    rejects it before the walk. *)
Example glob_exclusion_scenario :
  Tui.performDryRun (L := RE2Fragment.lib) (P := Sample.paths)
    Scenario.srcTreeWalk Scenario.srcTree "/w" ["*.go"] []
  = ([], ["/w/lib/b.go"; "/w/main.go"; "/w/src/a.go"], None)
  /\ Main.performDryRun (L := RE2Fragment.lib) (P := Sample.paths)
       Scenario.srcTreeWalk Scenario.srcTree "/w" ["*.go"] []
     = ([], [],
        Some ("invalid exclusion regex pattern '*.go': error parsing regexp: "
              +:+ "missing argument to repetition operator")).
Proof. split; vm_compute; reflexivity. Qed.

Example extractRepoName_scenario :
  extractRepoName (Hst := Sample.host) "https://github.com/user/repo.git" = "repo".
Proof. vm_compute. reflexivity. Qed.

End Scenarios.

(** * Main results *)


(** C1. In package [main], [collectFiles] returns the included list of
    [performDryRun] on the same root and patterns, and the same error; in
    package [tui], where [collectFiles] calls [performDryRun], likewise.  The
    two modes differ only in the excluded list. *)
Theorem collect_and_dry_run_agree {L : RegexpLib} {P : PathLib}
    (Walk : string -> list WalkEntry) (disk : gmap string Node)
    (rootPath : string) (exclusionPatterns inclusionPatterns : list string) :
  (Main.collectFiles Walk disk rootPath exclusionPatterns inclusionPatterns).1
  = (Main.performDryRun Walk disk rootPath exclusionPatterns inclusionPatterns).1.1
  /\ (Main.collectFiles Walk disk rootPath exclusionPatterns inclusionPatterns).2
     = (Main.performDryRun Walk disk rootPath exclusionPatterns inclusionPatterns).2
  /\ (Tui.collectFiles Walk disk rootPath exclusionPatterns inclusionPatterns).1
     = (Tui.performDryRun Walk disk rootPath exclusionPatterns inclusionPatterns).1.1
  /\ (Tui.collectFiles Walk disk rootPath exclusionPatterns inclusionPatterns).2
     = (Tui.performDryRun Walk disk rootPath exclusionPatterns inclusionPatterns).2.
Proof.
  rewrite Main_collect_dry, Tui_collect_dry. simpl. repeat split; reflexivity.
Qed.

(** C2, as the code has it.  For a pattern ["/" + X], the matcher of package
    [main] answers true exactly when the first segment of the path has [X]
    as a prefix; the matcher of package [tui] does so whenever [X] contains no
    separator.  In both, [/util] matches [utils/a.go] and [utilities/x] and
    does not match [src/util.go].  For every [X], the matcher of package
    [tui] answers true exactly when the whole relative path has [X] as a
    prefix, or [X] is the relative path followed by one slash. *)
Theorem path_pattern_first_segment {L : RegexpLib} (X p baseName : string) :
  (Main.matchesPattern ("/" +:+ X) p baseName = true
   <-> Spec.hasPrefix (Spec.firstSegment p) X)
  /\ (strings.Contains X "/" = false ->
      (Tui.matchesPattern ("/" +:+ X) p baseName = true
       <-> Spec.hasPrefix (Spec.firstSegment p) X))
  /\ (Main.matchesPattern "/util" "utils/a.go" "a.go" = true
      /\ Main.matchesPattern "/util" "utilities/x" "x" = true
      /\ Main.matchesPattern "/util" "src/util.go" "util.go" = false)
  /\ (Tui.matchesPattern "/util" "utils/a.go" "a.go" = true
      /\ Tui.matchesPattern "/util" "utilities/x" "x" = true
      /\ Tui.matchesPattern "/util" "src/util.go" "util.go" = false)
  /\ (Tui.matchesPattern ("/" +:+ X) p baseName = true
      <-> Spec.hasPrefix p X \/ X = p +:+ "/").
Proof.
  split; [|split; [|split; [|split]]].
  - rewrite Main_matchesPattern_path. apply HasPrefix_true_iff.
  - intros HX. rewrite (Tui_matchesPattern_path X p baseName HX).
    apply HasPrefix_true_iff.
  - repeat split; reflexivity.
  - repeat split; reflexivity.
  - apply Tui_matchesPattern_path_general.
Qed.

Lemma path_pattern_first_segment_witness :
  strings.Contains "util" "/" = false
  /\ Main.matchesPattern (L := RE2Fragment.lib) "/util" "utils/a.go" "a.go" = true
  /\ Tui.matchesPattern (L := RE2Fragment.lib) "/util" "utils/a.go" "a.go" = true.
Proof.
  destruct (@path_pattern_first_segment RE2Fragment.lib "util" "utils/a.go" "a.go")
    as (HMain & HTui & _).
  split; [reflexivity|]. split.
  - apply HMain. exists "s". reflexivity.
  - apply HTui; [reflexivity | exists "s"; reflexivity].
Defined.

(** The matcher of package [tui] accepts [src/a.go] for the pattern [/src/],
    although the first segment [src] does not have [src/] as a prefix. *)
Lemma tui_path_pattern_spans_segments :
  Tui.matchesPattern (L := RE2Fragment.lib) ("/" +:+ "src/") "src/a.go" "a.go" = true
  /\ ~ Spec.hasPrefix (Spec.firstSegment "src/a.go") "src/".
Proof.
  split; [reflexivity|]. intros [rest Hrest]. discriminate Hrest.
Qed.

(** C3, as the code has it.  In package [tui], a pattern that is not a path
    pattern and contains a star or a question mark is matched through the
    regular expression the specification describes: every metacharacter but
    the two is escaped, a star becomes [.*], a question mark becomes [.], and
    [^] and [$] are added unless the translation begins, respectively ends,
    with [.*].  So [*.go] matches [main.go] and [pkg/sub/x.go] and not
    [main.go.bak].  Package [main] compiles such a pattern unchanged. *)
Theorem glob_translation :
  (forall (L : RegexpLib) (pattern relativePath baseName : string),
      Tui.isPathPattern pattern = false ->
      strings.Contains pattern "*" || strings.Contains pattern "?" = true ->
      Tui.globToRegex pattern = Spec.globRegex pattern
      /\ Tui.matchesPattern pattern relativePath baseName
         = match regexp_Compile (Spec.globRegex pattern) with
           | Ok regex =>
               MatchString regex relativePath || MatchString regex baseName
           | Err _ => false
           end)
  /\ (Tui.globToRegex "*.go" = ".*\.go$"
      /\ Tui.matchesPattern (L := RE2Fragment.lib) "*.go" "main.go" "main.go" = true
      /\ Tui.matchesPattern (L := RE2Fragment.lib) "*.go" "pkg/sub/x.go" "x.go" = true
      /\ Tui.matchesPattern (L := RE2Fragment.lib) "*.go" "main.go.bak" "main.go.bak"
         = false)
  /\ (forall (L : RegexpLib) (pattern relativePath baseName : string),
      Main.isPathPattern pattern = false ->
      Main.matchesPattern pattern relativePath baseName
      = match regexp_Compile pattern with
        | Ok regex => MatchString regex relativePath || MatchString regex baseName
        | Err _ => false
        end).
Proof.
  split; [|split].
  - intros L pattern relativePath baseName Hpath Hglob.
    split; [apply globToRegex_spec|].
    unfold Tui.matchesPattern. rewrite Hpath, Hglob, globToRegex_spec.
    reflexivity.
  - repeat split; reflexivity.
  - intros L pattern relativePath baseName Hpath.
    unfold Main.matchesPattern. rewrite Hpath. reflexivity.
Qed.

Lemma glob_translation_witness :
  Tui.isPathPattern "a?.t*" = false
  /\ strings.Contains "a?.t*" "*" || strings.Contains "a?.t*" "?" = true
  /\ Tui.globToRegex "a?.t*" = Spec.globRegex "a?.t*"
  /\ Main.isPathPattern "a?.t*" = false.
Proof.
  destruct glob_translation as (HTui & _ & HMain).
  destruct (HTui RE2Fragment.lib "a?.t*" "ab.txt" "ab.txt" eq_refl eq_refl)
    as [Htr _].
  pose proof (HMain RE2Fragment.lib "a?.t*" "ab.txt" "ab.txt" eq_refl) as _.
  repeat split; assumption || reflexivity.
Defined.

(** Package [main] has no glob translation: [*.go] is handed to
    [regexp.Compile] as it is, which refuses it, and matches nothing. *)
Lemma main_has_no_glob :
  Main.matchesPattern (L := RE2Fragment.lib) "*.go" "main.go" "main.go" = false
  /\ Main.matchesPattern (L := RE2Fragment.lib) "*.go" "pkg/sub/x.go" "x.go" = false.
Proof. split; reflexivity. Qed.

(** C4, as the code has it.  When the metadata of a source parses to an entry
    with a non-empty repository path and the clock read by the lookup is
    strictly after [ExpiresAt], [getCachedRepo] reports a miss without error,
    and afterwards neither the metadata file nor any path at or below the
    repository path exists; every other path is untouched. *)
Theorem expired_entry_purged {P : PathLib} {Hst : HostLib}
    (w : World) (url data : string) (entry : CacheEntry) :
  files w !! metadataPathOf url = Some (RegularFile data) ->
  json_Unmarshal data = Ok entry ->
  ExpiresAt entry < clock w (reads w) ->
  RepoPath entry <> "" ->
  exists w',
    getCachedRepo url w = (("", false, 0, None), w')
    /\ files w' !! metadataPathOf url = None
    /\ (forall k, under (RepoPath entry) k -> files w' !! k = None)
    /\ (forall k, k <> metadataPathOf url -> ~ under (RepoPath entry) k ->
        files w' !! k = files w !! k).
Proof.
  intros Hmeta Hparse Hexp Hpath.
  destruct (getCachedRepo_expired w url data entry Hmeta Hparse Hexp Hpath)
    as (w' & Hrun & Hfiles).
  exists w'. split; [exact Hrun|]. rewrite Hfiles. split; [|split].
  - apply map_lookup_filter_None. left. apply lookup_delete_eq.
  - intros k Hk. apply map_lookup_filter_None. right.
    intros n _ Hnot. apply Hnot. exact Hk.
  - intros k Hne Hout.
    rewrite <- (lookup_delete_ne (files w) (metadataPathOf url) k)
      by (intros Heq; apply Hne; symmetry; exact Heq).
    destruct (delete (metadataPathOf url) (files w) !! k) as [n|] eqn:Hk.
    + apply map_lookup_filter_Some. split; [exact Hk | exact Hout].
    + apply map_lookup_filter_None. left. exact Hk.
Qed.

Lemma expired_entry_purged_witness :
  let w := Sample.world Scenario.cached 101 in
  files w !! metadataPathOf (P := Sample.paths) (Hst := Sample.host) Scenario.url
  = Some (RegularFile Scenario.storedData)
  /\ Sample.unmarshal Scenario.storedData = Ok Scenario.storedEntry
  /\ ExpiresAt Scenario.storedEntry < clock w (reads w)
  /\ exists w',
       getCachedRepo (P := Sample.paths) (Hst := Sample.host) Scenario.url w
       = (("", false, 0, None), w')
       /\ files w' !! "/tmp/repo-concat-cache/checkout/main.go" = None.
Proof.
  intros w.
  assert (files w !! metadataPathOf (P := Sample.paths) (Hst := Sample.host)
            Scenario.url = Some (RegularFile Scenario.storedData)) as Hmeta
    by reflexivity.
  assert (Sample.unmarshal Scenario.storedData = Ok Scenario.storedEntry)
    as Hparse by reflexivity.
  assert (ExpiresAt Scenario.storedEntry < clock w (reads w)) as Hexp
    by reflexivity.
  assert (RepoPath Scenario.storedEntry <> "") as Hpath by discriminate.
  destruct (@expired_entry_purged Sample.paths Sample.host w Scenario.url
              Scenario.storedData Scenario.storedEntry Hmeta Hparse Hexp Hpath)
    as (w' & Hrun & _ & Hgone & _).
  repeat split; try assumption.
  exists w'. split; [exact Hrun|]. apply Hgone. right. reflexivity.
Defined.

(** At the instant [now = ExpiresAt] the entry is still served: the lookup
    reports a hit and removes nothing. *)
Lemma entry_at_expiry_instant_hits :
  let w := Sample.world Scenario.cached 100 in
  let r := getCachedRepo (P := Sample.paths) (Hst := Sample.host) Scenario.url w in
  Sample.unmarshal Scenario.storedData = Ok Scenario.storedEntry
  /\ clock w (reads w) >= ExpiresAt Scenario.storedEntry
  /\ r.1 = ("/tmp/repo-concat-cache/checkout", true, 40, None)
  /\ files r.2 = Scenario.cached.
Proof. repeat split; try reflexivity. vm_compute. discriminate. Qed.

(** C5, as the code has it.  When the walk reports an error at an entry, the
    scan stops there and returns that error; the lists returned with it are
    the ones the scan of the entries before the failing one produces. *)
Theorem walk_error_aborts {L : RegexpLib} {P : PathLib}
    (Walk Walk' : string -> list WalkEntry) (disk : gmap string Node)
    (rootPath : string) (exclusionPatterns inclusionPatterns : list string)
    (e : WalkEntry) (post : list WalkEntry) (err : error) :
  Walk' rootPath = Walk rootPath ++ e :: post ->
  we_err e = Some err ->
  (forall inc exc,
      Main.performDryRun Walk disk rootPath exclusionPatterns inclusionPatterns
      = (inc, exc, None) ->
      Main.performDryRun Walk' disk rootPath exclusionPatterns inclusionPatterns
      = (inc, exc, Some err))
  /\ (forall found,
      Main.collectFiles Walk disk rootPath exclusionPatterns inclusionPatterns
      = (found, None) ->
      Main.collectFiles Walk' disk rootPath exclusionPatterns inclusionPatterns
      = (found, Some err))
  /\ (forall inc exc,
      Tui.performDryRun Walk disk rootPath exclusionPatterns inclusionPatterns
      = (inc, exc, None) ->
      Tui.performDryRun Walk' disk rootPath exclusionPatterns inclusionPatterns
      = (inc, exc, Some err)).
Proof.
  intros HW He. split; [|split].
  - intros inc exc. apply (Main_dry_run_stops disk Walk Walk' _ _ _ e post); assumption.
  - intros found. apply (Main_collect_stops disk Walk Walk' _ _ _ e post); assumption.
  - intros inc exc. apply (Tui_dry_run_stops disk Walk Walk' _ _ _ e post); assumption.
Qed.

Lemma walk_error_aborts_witness :
  Scenario.walkFailing "/r"
  = Scenario.walkOk "/r"
    ++ Sample.failedEntry "/r/b" "lstat /r/b: permission denied"
       :: [Sample.fileEntry "/r/c.go"]
  /\ Main.performDryRun (L := RE2Fragment.lib) (P := Sample.paths)
       Scenario.walkOk Scenario.disk "/r" [] [] = (["/r/a.go"], [], None)
  /\ Main.performDryRun (L := RE2Fragment.lib) (P := Sample.paths)
       Scenario.walkFailing Scenario.disk "/r" [] []
     = (["/r/a.go"], [], Some "lstat /r/b: permission denied").
Proof.
  assert (Main.performDryRun (L := RE2Fragment.lib) (P := Sample.paths)
            Scenario.walkOk Scenario.disk "/r" [] [] = (["/r/a.go"], [], None))
    as Hok by (vm_compute; reflexivity).
  destruct (@walk_error_aborts RE2Fragment.lib Sample.paths Scenario.walkOk
              Scenario.walkFailing Scenario.disk "/r" [] []
              (Sample.failedEntry "/r/b" "lstat /r/b: permission denied")
              [Sample.fileEntry "/r/c.go"] "lstat /r/b: permission denied"
              eq_refl eq_refl) as (Hdry & _ & _).
  split; [reflexivity|]. split; [exact Hok|]. apply Hdry. exact Hok.
Defined.

(** A walk that fails at its third entry: [performDryRun] hands the caller
    the error together with the file it had already included. *)
Lemma walk_error_returns_partial_lists :
  let r := Main.performDryRun (L := RE2Fragment.lib) (P := Sample.paths)
             Scenario.walkFailing Scenario.disk "/r" [] [] in
  r.2 = Some "lstat /r/b: permission denied" /\ r.1.1 = ["/r/a.go"].
Proof. split; vm_compute; reflexivity. Qed.

(** C6, as the code has it.  When the metadata file exists and cannot be read,
    or cannot be parsed, [getCachedRepo] returns the error.  The resolution of
    package [tui] returns it in turn, as "cache check failed", and does
    nothing else.  The resolution of package [main] prints it as a warning and
    goes on exactly as after a miss: it clones. *)
Theorem lookup_error_handling {P : PathLib} {Hst : HostLib}
    (w : World) (url : string) (err : error) :
  (files w !! metadataPathOf url = Some Directory
   /\ err = "read " +:+ metadataPathOf url +:+ ": is a directory")
  \/ (exists data, files w !! metadataPathOf url = Some (RegularFile data)
                   /\ json_Unmarshal data = Err err) ->
  let w' := mkWorld (files w) (clock w) (reads w) (temps w)
              (trace w ++ [EvStat (metadataPathOf url);
                           EvReadFile (metadataPathOf url)]) in
  getCachedRepo url w = (("", false, 0, Some err), w')
  /\ (forall config, Tui.Path config = "" -> Tui.URL config = url -> url <> "" ->
      Tui.resolveRepositoryPath config w
      = (("", Some ("cache check failed: " +:+ err)), w'))
  /\ (forall config, Main.localPath config = "" -> Main.githubURL config = url ->
      Main.processRepository_resolve config w
      = Main.processRepository_clone config
          (mkWorld (files w) (clock w) (reads w) (temps w)
             (trace w' ++ [EvPrint ("Warning: cache check failed: " +:+ err)]))).
Proof.
  intros Hbad w'.
  assert (getCachedRepo url w = (("", false, 0, Some err), w')) as Hlookup.
  { destruct Hbad as [[Hdir ->]|(data & Hfile & Hparse)].
    - apply getCachedRepo_unreadable. exact Hdir.
    - apply (getCachedRepo_unparsable w url data err Hfile Hparse). }
  split; [exact Hlookup|]. split.
  - intros config HP HU Hne. subst url.
    apply (Tui_resolve_lookup_error config w w' "" false 0 err HP Hne Hlookup).
  - intros config HP HU. subst url.
    apply (Main_resolve_lookup_error config w w' "" false 0 err HP Hlookup).
Qed.

Lemma lookup_error_handling_witness :
  let w := Sample.world Scenario.corrupt 50 in
  (exists data,
      files w !! metadataPathOf (P := Sample.paths) (Hst := Sample.host) Scenario.url
      = Some (RegularFile data)
      /\ Sample.unmarshal data = Err "unexpected end of JSON input")
  /\ (getCachedRepo (P := Sample.paths) (Hst := Sample.host) Scenario.url w).1
     = ("", false, 0, Some "unexpected end of JSON input")
  /\ (Tui.resolveRepositoryPath (P := Sample.paths) (Hst := Sample.host)
        (Scenario.tuiConfig Scenario.url "") w).1
     = ("", Some "cache check failed: unexpected end of JSON input").
Proof.
  intros w.
  assert (exists data,
      files w !! metadataPathOf (P := Sample.paths) (Hst := Sample.host) Scenario.url
      = Some (RegularFile data)
      /\ Sample.unmarshal data = Err "unexpected end of JSON input") as Hbad.
  { exists "{not json". split; reflexivity. }
  destruct (@lookup_error_handling Sample.paths Sample.host w Scenario.url
              "unexpected end of JSON input" (or_intror Hbad))
    as (Hlookup & HTui & _).
  split; [exact Hbad|]. split.
  - rewrite Hlookup. reflexivity.
  - rewrite (HTui (Scenario.tuiConfig Scenario.url "") eq_refl eq_refl).
    + reflexivity.
    + discriminate.
Defined.

(** With a metadata file that does not parse, the resolution of package
    [main] returns no error: it prints a warning, clones, and settles on the
    fresh checkout. *)
Lemma main_clones_on_lookup_error :
  let w := Sample.world Scenario.corrupt 50 in
  let r := Main.processRepository_resolve (P := Sample.paths) (Hst := Sample.host)
             (Scenario.cliConfig Scenario.url "") w in
  (getCachedRepo (P := Sample.paths) (Hst := Sample.host) Scenario.url w).1
  = ("", false, 0, Some "unexpected end of JSON input")
  /\ r.1 = ("/tmp/repo-concat-cache/digest32", false, None)
  /\ In (EvPrint "Warning: cache check failed: unexpected end of JSON input")
       (trace r.2)
  /\ In (EvClone Scenario.url "/tmp/repo-concat-0") (trace r.2).
Proof.
  intros w r. split; [vm_compute; reflexivity|].
  split; [vm_compute; reflexivity|].
  split; vm_compute; repeat (first [left; reflexivity | right]).
Qed.

(** C7, as the code has it.  After a [cacheRepo] that succeeded, a
    [getCachedRepo] for the same source that runs at once, reads the clock no
    later than the stored [ExpiresAt] and finds the stored path on disk
    reports a hit with exactly that path and the stored time, and changes no
    file.  The codec is only asked to give back the entry it was given. *)
Theorem store_then_lookup {P : PathLib} {Hst : HostLib}
    (w w1 : World) (url repoPath : string) :
  let entry := {| URL := url;
                  CachedAt := clock w (reads w);
                  RepoPath := repoPath;
                  ExpiresAt := clock w (S (reads w)) + 5 * time_Minute |} in
  cacheRepo url repoPath w = (None, w1) ->
  (forall data, json_Marshal entry = Ok data -> json_Unmarshal data = Ok entry) ->
  clock w1 (reads w1) <= ExpiresAt entry ->
  is_Some (files w1 !! repoPath) ->
  exists w2,
    getCachedRepo url w1 = ((repoPath, true, clock w (reads w), None), w2)
    /\ files w2 = files w1.
Proof.
  intros entry Hstore Hcodec Httl [n Hrepo].
  destruct (cacheRepo_stored w w1 url repoPath Hstore)
    as (data & Hmarshal & Hmeta & Hclock & Hreads).
  apply (getCachedRepo_at_expiry w1 url data entry n Hmeta
           (Hcodec data Hmarshal) Httl Hrepo).
Qed.

Lemma store_then_lookup_witness :
  let checkout := "/tmp/repo-concat-cache/checkout" in
  let w := Sample.world Scenario.cached 1000 in
  let w1 := (cacheRepo (P := Sample.paths) (Hst := Sample.host)
               Scenario.url checkout w).2 in
  cacheRepo (P := Sample.paths) (Hst := Sample.host) Scenario.url checkout w
  = (None, w1)
  /\ clock w1 (reads w1) <= 1000 + 5 * time_Minute
  /\ is_Some (files w1 !! checkout)
  /\ exists w2,
       getCachedRepo (P := Sample.paths) (Hst := Sample.host) Scenario.url w1
       = ((checkout, true, 1000, None), w2)
       /\ files w2 = files w1.
Proof.
  intros checkout w w1.
  assert (cacheRepo (P := Sample.paths) (Hst := Sample.host) Scenario.url checkout w
          = (None, w1)) as Hstore by reflexivity.
  assert (clock w1 (reads w1) <= 1000 + 5 * time_Minute) as Httl
    by (vm_compute; discriminate).
  assert (is_Some (files w1 !! checkout)) as Hrepo by (eexists; reflexivity).
  split; [exact Hstore|]. split; [exact Httl|]. split; [exact Hrepo|].
  apply (@store_then_lookup Sample.paths Sample.host w w1 Scenario.url checkout
           Hstore); [|exact Httl|exact Hrepo].
  intros data Hdata. vm_compute in Hdata. injection Hdata as <-.
  vm_compute. reflexivity.
Defined.

(** A stored path that is not on disk: the lookup that follows at once, well
    within the five minutes, reports a miss. *)
Lemma store_then_lookup_missing_directory :
  let w := Sample.world Scenario.disk 1000 in
  let stored := cacheRepo (P := Sample.paths) (Hst := Sample.host)
                  Scenario.url "/r/gone" w in
  stored.1 = None
  /\ (getCachedRepo (P := Sample.paths) (Hst := Sample.host) Scenario.url stored.2).1
     = ("", false, 0, None).
Proof. split; vm_compute; reflexivity. Qed.

(** C8.  A file whose first [min(size, 512)] bytes hold a null byte fails
    [isTextFile] in both packages.  Whatever its name and whatever the
    patterns, no scan includes it, and a dry run that ends without error has
    it on the excluded list. *)
Theorem null_byte_excluded {L : RegexpLib} {P : PathLib}
    (Walk : string -> list WalkEntry) (disk : gmap string Node)
    (path content rootPath : string)
    (exclusionPatterns inclusionPatterns : list string) :
  disk !! path = Some (RegularFile content) ->
  Spec.nullInSample content ->
  (Main.isTextFile disk path = false /\ Tui.isTextFile disk path = false)
  /\ ~ In path (Main.performDryRun Walk disk rootPath exclusionPatterns
                  inclusionPatterns).1.1
  /\ ~ In path (Main.collectFiles Walk disk rootPath exclusionPatterns
                  inclusionPatterns).1
  /\ ~ In path (Tui.performDryRun Walk disk rootPath exclusionPatterns
                  inclusionPatterns).1.1
  /\ ~ In path (Tui.collectFiles Walk disk rootPath exclusionPatterns
                  inclusionPatterns).1
  /\ (forall e, In e (Walk rootPath) -> we_path e = path -> we_err e = None ->
      IsDir (we_info e) = false ->
      ((Main.performDryRun Walk disk rootPath exclusionPatterns
          inclusionPatterns).2 = None ->
       In path (Main.performDryRun Walk disk rootPath exclusionPatterns
                  inclusionPatterns).1.2)
      /\ ((Tui.performDryRun Walk disk rootPath exclusionPatterns
             inclusionPatterns).2 = None ->
          In path (Tui.performDryRun Walk disk rootPath exclusionPatterns
                     inclusionPatterns).1.2)).
Proof.
  intros Hfile Hnull.
  pose proof (Main_isTextFile_null disk path content Hfile Hnull) as HM.
  pose proof (Tui_isTextFile_null disk path content Hfile Hnull) as HT.
  split; [split; assumption|].
  rewrite Main_collect_dry, Tui_collect_dry. cbn [fst].
  assert (~ In path (Main.performDryRun Walk disk rootPath exclusionPatterns
                       inclusionPatterns).1.1) as HMi.
  { intros Hin. apply Main_dry_run_included in Hin. congruence. }
  assert (~ In path (Tui.performDryRun Walk disk rootPath exclusionPatterns
                       inclusionPatterns).1.1) as HTi.
  { intros Hin. apply Tui_dry_run_included in Hin. congruence. }
  repeat (split; [assumption|]).
  intros e Hin <- Herr Hdir. split; intros Hok.
  - apply Main_dry_run_excluded; assumption.
  - apply Tui_dry_run_excluded; assumption.
Qed.

Lemma null_byte_excluded_witness :
  Scenario.disk !! "/r/blob.go" = Some (RegularFile Scenario.binaryFile)
  /\ Spec.nullInSample Scenario.binaryFile
  /\ Main.isTextFile Scenario.disk "/r/blob.go" = false
  /\ In "/r/blob.go"
       (Main.performDryRun (L := RE2Fragment.lib) (P := Sample.paths)
          Scenario.walkBinary Scenario.disk "/r" [] ["\.go$"]).1.2.
Proof.
  assert (Scenario.disk !! "/r/blob.go" = Some (RegularFile Scenario.binaryFile))
    as Hfile by reflexivity.
  assert (Spec.nullInSample Scenario.binaryFile) as Hnull.
  { exists 2%nat. split; [vm_compute; lia | reflexivity]. }
  destruct (@null_byte_excluded RE2Fragment.lib Sample.paths Scenario.walkBinary
              Scenario.disk "/r/blob.go" Scenario.binaryFile "/r" [] ["\.go$"]
              Hfile Hnull) as ((HM & _) & _ & _ & _ & _ & Hexcl).
  repeat (split; [assumption|]).
  apply (Hexcl (Sample.fileEntry "/r/blob.go")); try reflexivity.
  simpl. tauto.
Defined.

(** C9, as the code has it.  With neither a local path nor a source, the
    resolution of package [tui] fails with a configuration error and leaves
    the world as it was, and [main] without the TUI flag prints the error
    and exits before [processRepository].  With both, [main] without the TUI
    flag does the same, while the resolution of package [tui] returns the
    local path, again without touching the world. *)
Theorem configuration_errors {P : PathLib} {Hst : HostLib} :
  (forall (config : Tui.Config) (w : World),
      Tui.Path config = "" -> Tui.URL config = "" ->
      Tui.resolveRepositoryPath config w
      = (("", Some "please specify either a repository URL or local path"), w))
  /\ (forall config : Main.Config,
      Main.enableTUI config = false ->
      (Main.githubURL config = "" /\ Main.localPath config = "")
      \/ (Main.githubURL config <> "" /\ Main.localPath config <> "") ->
      exists msg, Main.main config = Main.PrintUsageAndExit msg 1)
  /\ (forall (config : Tui.Config) (w : World),
      Tui.Path config <> "" ->
      Tui.resolveRepositoryPath config w = ((Tui.Path config, None), w)).
Proof.
  split; [|split].
  - intros config w. apply Tui_resolve_nothing.
  - intros config Htui Hcase. unfold Main.main. rewrite Htui.
    destruct Hcase as [[-> ->]|[HU HP]].
    + eexists. reflexivity.
    + rewrite (proj2 (String.eqb_neq _ _) HU), (proj2 (String.eqb_neq _ _) HP).
      eexists. reflexivity.
  - intros config w. apply Tui_resolve_local.
Qed.

Lemma configuration_errors_witness :
  (Tui.resolveRepositoryPath (P := Sample.paths) (Hst := Sample.host)
     (Scenario.tuiConfig "" "") (Sample.world Scenario.disk 0)).1
  = ("", Some "please specify either a repository URL or local path")
  /\ (exists msg, Main.main (Scenario.cliConfig "" "") = Main.PrintUsageAndExit msg 1)
  /\ (exists msg,
        Main.main (Scenario.cliConfig Scenario.url "/r") = Main.PrintUsageAndExit msg 1).
Proof.
  destruct (@configuration_errors Sample.paths Sample.host) as (HTui & HMain & _).
  split; [|split].
  - rewrite (HTui (Scenario.tuiConfig "" "") _ eq_refl eq_refl). reflexivity.
  - apply HMain; [reflexivity | left; split; reflexivity].
  - apply HMain; [reflexivity | right; split; discriminate].
Defined.

(** With both a source and a local path, the resolution of package [tui]
    raises no error: it returns the local path. *)
Lemma tui_both_sources_accepted :
  Tui.resolveRepositoryPath (P := Sample.paths) (Hst := Sample.host)
    (Scenario.tuiConfig Scenario.url "/r") (Sample.world Scenario.disk 0)
  = (("/r", None), Sample.world Scenario.disk 0).
Proof. reflexivity. Qed.

(** C10, as the code has it.  [matchesPattern] is a function to [bool] in
    both packages.  For a pattern that is not a path pattern: in package
    [main] the answer is [false] for every path and base name when
    [regexp.Compile] refuses the pattern, and so it is in package [tui] for a
    pattern without a star or a question mark.  A pattern with a star or a
    question mark is answered in package [tui] by its glob translation,
    whether or not the pattern itself compiles: [false] when the translation
    does not compile, else whether the translation matches the path or the
    base name. *)
Theorem uncompilable_matches_nothing {L : RegexpLib}
    (pattern relativePath baseName : string) :
  (Main.isPathPattern pattern = false ->
   (exists err, regexp_Compile pattern = Err err) ->
   Main.matchesPattern pattern relativePath baseName = false)
  /\ (Tui.isPathPattern pattern = false ->
      strings.Contains pattern "*" || strings.Contains pattern "?" = false ->
      (exists err, regexp_Compile pattern = Err err) ->
      Tui.matchesPattern pattern relativePath baseName = false)
  /\ (Tui.isPathPattern pattern = false ->
      strings.Contains pattern "*" || strings.Contains pattern "?" = true ->
      ((exists err, regexp_Compile (Tui.globToRegex pattern) = Err err) ->
       Tui.matchesPattern pattern relativePath baseName = false)
      /\ (forall regex,
            regexp_Compile (Tui.globToRegex pattern) = Ok regex ->
            Tui.matchesPattern pattern relativePath baseName
            = MatchString regex relativePath || MatchString regex baseName)).
Proof.
  split; [|split].
  - intros Hpath [err Herr]. unfold Main.matchesPattern.
    rewrite Hpath, Herr. reflexivity.
  - intros Hpath Hplain [err Herr]. unfold Tui.matchesPattern.
    rewrite Hpath, Hplain, Herr. reflexivity.
  - intros Hpath Hglob. unfold Tui.matchesPattern. rewrite Hpath, Hglob. split.
    + intros [err Herr]. rewrite Herr. reflexivity.
    + intros regex Hregex. rewrite Hregex. reflexivity.
Qed.

Lemma uncompilable_matches_nothing_witness :
  Main.isPathPattern "(a" = false
  /\ RE2Fragment.Compile "(a" = Err "error parsing regexp: missing closing )"
  /\ Main.matchesPattern (L := RE2Fragment.lib) "(a" "(a" "(a" = false
  /\ Tui.matchesPattern (L := RE2Fragment.lib) "(a" "(a" "(a" = false.
Proof.
  destruct (@uncompilable_matches_nothing RE2Fragment.lib "(a" "(a" "(a")
    as (HMain & HTui & _).
  split; [reflexivity|]. split; [reflexivity|]. split.
  - apply HMain; [reflexivity | eexists; reflexivity].
  - apply HTui; [reflexivity | reflexivity | eexists; reflexivity].
Defined.

(** In package [tui] the pattern [*.go] is not a path pattern and is refused
    by [regexp.Compile], and yet it matches [main.go]: what is compiled is
    its glob translation. *)
Lemma tui_uncompilable_glob_matches :
  Tui.isPathPattern "*.go" = false
  /\ (exists err, RE2Fragment.Compile "*.go" = Err err)
  /\ Tui.matchesPattern (L := RE2Fragment.lib) "*.go" "main.go" "main.go" = true.
Proof.
  split; [reflexivity|]. split; [eexists; vm_compute; reflexivity|].
  vm_compute. reflexivity.
Qed.

(** * Further properties *)

(** ** Scans as filters *)
Section ScanFilters.
Context {L : RegexpLib} {P : PathLib}.
Variable disk : gmap string Node.

Lemma Main_walk_is_filter (root : string) (excl incl : list string)
    (entries : list WalkEntry) (st st' : list string * list string) :
  filepath_Walk entries
    (Main.performDryRun_walkFn disk root (excl ++ defaultExclusionPatterns) incl) st
  = (st', None) ->
  st'.1 = st.1 ++ Verdict.kept (Verdict.main_keeps disk root excl incl) entries
  /\ st'.2 = st.2 ++ Verdict.dropped (Verdict.main_keeps disk root excl incl) entries.
Proof.
  revert st. induction entries as [|e entries IH]; intros [inc exc]; simpl.
  - intros [= <-]. simpl. rewrite !app_nil_r. split; reflexivity.
  - unfold Main.performDryRun_walkFn at 1.
    unfold Verdict.kept, Verdict.dropped, Verdict.main_keeps in *. simpl.
    destruct (we_err e) as [er|]; [discriminate|].
    destruct (IsDir (we_info e)); simpl; [apply IH|].
    destruct (filepath_Rel root (we_path e)) as [rel|er]; [|discriminate].
    destruct (Main.isTextFile disk (we_path e)); simpl.
    + destruct (existsb _ (excl ++ defaultExclusionPatterns)); simpl.
      * intros Hw. destruct (IH _ Hw) as [-> ->]. simpl.
        rewrite <- app_assoc. split; reflexivity.
      * destruct incl as [|i incl]; simpl.
        -- intros Hw. destruct (IH _ Hw) as [-> ->]. simpl.
           rewrite <- app_assoc. split; reflexivity.
        -- destruct (_ || _); simpl; intros Hw; destruct (IH _ Hw) as [-> ->];
             simpl; rewrite <- app_assoc; split; reflexivity.
    + intros Hw. destruct (IH _ Hw) as [-> ->]. simpl.
      rewrite <- app_assoc. split; reflexivity.
Qed.

Lemma Tui_walk_is_filter (root : string) (excl incl : list string)
    (entries : list WalkEntry) (st st' : list string * list string) :
  filepath_Walk entries
    (Tui.performDryRun_walkFn disk root (defaultExclusionPatterns ++ excl) incl) st
  = (st', None) ->
  st'.1 = st.1 ++ Verdict.kept (Verdict.tui_keeps disk root excl incl) entries
  /\ st'.2 = st.2 ++ Verdict.dropped (Verdict.tui_keeps disk root excl incl) entries.
Proof.
  unfold Verdict.kept, Verdict.dropped, Verdict.tui_keeps.
  remember (defaultExclusionPatterns ++ excl) as allExcl eqn:Hall. clear Hall.
  revert st. induction entries as [|e entries IH]; intros [inc exc]; simpl.
  - intros [= <-]. simpl. rewrite !app_nil_r. split; reflexivity.
  - unfold Tui.performDryRun_walkFn at 1.
    destruct (we_err e) as [er|]; [discriminate|].
    destruct (IsDir (we_info e)); simpl; [apply IH|].
    destruct (Tui.isTextFile disk (we_path e)); simpl.
    + destruct (filepath_Rel root (we_path e)) as [rel|er]; [|discriminate].
      destruct (existsb _ allExcl); simpl.
      * intros Hw. destruct (IH _ Hw) as [-> ->]. simpl.
        rewrite <- app_assoc. split; reflexivity.
      * destruct incl as [|i incl]; simpl.
        -- intros Hw. destruct (IH _ Hw) as [-> ->]. simpl.
           rewrite <- app_assoc. split; reflexivity.
        -- destruct (_ || _); simpl; intros Hw; destruct (IH _ Hw) as [-> ->];
             simpl; rewrite <- app_assoc; split; reflexivity.
    + intros Hw. destruct (IH _ Hw) as [-> ->]. simpl.
      rewrite <- app_assoc. split; reflexivity.
Qed.

End ScanFilters.

(** X1.  A dry run that ends without error has classified every regular file
    of the walk exactly once, in walk order: its included list is the list of
    the files that are text, match no exclusion pattern (the user's or a
    built-in one) and match an inclusion pattern when there are any; its
    excluded list is the list of the other files.  Directories are on neither
    list.  This holds in both packages. *)
Theorem completed_dry_run_is_a_filter {L : RegexpLib} {P : PathLib}
    (Walk : string -> list WalkEntry) (disk : gmap string Node)
    (rootPath : string) (exclusionPatterns inclusionPatterns : list string)
    (inc exc : list string) :
  (Main.performDryRun Walk disk rootPath exclusionPatterns inclusionPatterns
   = (inc, exc, None) ->
   inc = Verdict.kept
           (Verdict.main_keeps disk rootPath exclusionPatterns inclusionPatterns)
           (Walk rootPath)
   /\ exc = Verdict.dropped
              (Verdict.main_keeps disk rootPath exclusionPatterns inclusionPatterns)
              (Walk rootPath))
  /\ (Tui.performDryRun Walk disk rootPath exclusionPatterns inclusionPatterns
      = (inc, exc, None) ->
      inc = Verdict.kept
              (Verdict.tui_keeps disk rootPath exclusionPatterns inclusionPatterns)
              (Walk rootPath)
      /\ exc = Verdict.dropped
                 (Verdict.tui_keeps disk rootPath exclusionPatterns inclusionPatterns)
                 (Walk rootPath)).
Proof.
  split.
  - unfold Main.performDryRun.
    destruct (Main.validatePatterns "exclusion" exclusionPatterns); [discriminate|].
    destruct (Main.validatePatterns "inclusion" inclusionPatterns); [discriminate|].
    destruct (filepath_Walk (Walk rootPath) _ _) as [[i x] o] eqn:Hw.
    intros [= -> -> ->]. apply Main_walk_is_filter in Hw. exact Hw.
  - unfold Tui.performDryRun.
    destruct (Tui.validatePatterns "exclusion" exclusionPatterns); [discriminate|].
    destruct (Tui.validatePatterns "inclusion" inclusionPatterns); [discriminate|].
    destruct (filepath_Walk (Walk rootPath) _ _) as [[i x] o] eqn:Hw.
    intros [= -> -> ->]. apply Tui_walk_is_filter in Hw. exact Hw.
Qed.

Lemma completed_dry_run_is_a_filter_witness :
  Main.performDryRun (L := RE2Fragment.lib) (P := Sample.paths)
    Scenario.specTreeWalk Scenario.specTree "/w" [] []
  = (["/w/a.go"; "/w/b.txt"], ["/w/.git/config"; "/w/img.png"], None)
  /\ Verdict.kept
       (Verdict.main_keeps (L := RE2Fragment.lib) (P := Sample.paths)
          Scenario.specTree "/w" [] [])
       (Scenario.specTreeWalk "/w")
     = ["/w/a.go"; "/w/b.txt"].
Proof.
  assert (Main.performDryRun (L := RE2Fragment.lib) (P := Sample.paths)
            Scenario.specTreeWalk Scenario.specTree "/w" [] []
          = (["/w/a.go"; "/w/b.txt"], ["/w/.git/config"; "/w/img.png"], None))
    as Hrun by (vm_compute; reflexivity).
  split; [exact Hrun|].
  destruct (@completed_dry_run_is_a_filter RE2Fragment.lib Sample.paths
              Scenario.specTreeWalk Scenario.specTree "/w" [] []
              ["/w/a.go"; "/w/b.txt"] ["/w/.git/config"; "/w/img.png"])
    as [HMain _].
  destruct (HMain Hrun) as [Hinc _]. symmetry. exact Hinc.
Defined.

(** ** Patterns and validation *)
Section ValidationFacts.
Context {L : RegexpLib} {P : PathLib}.

Lemma Main_validate_Some (what pattern : string) (patterns : list string)
    (e : error) :
  In pattern patterns -> Main.isPathPattern pattern = false ->
  regexp_Compile pattern = Err e ->
  exists err, Main.validatePatterns what patterns = Some err.
Proof.
  intros Hin Hpath Hbad. induction patterns as [|p ps IH]; [destruct Hin|].
  simpl. destruct (Main.isPathPattern p) eqn:Hp; simpl.
  - destruct Hin as [->|Hin]; [congruence | apply IH, Hin].
  - destruct (regexp_Compile p) as [r|er] eqn:Hc; [|eexists; reflexivity].
    destruct Hin as [->|Hin]; [congruence | apply IH, Hin].
Qed.

Lemma Main_validate_None (what : string) (patterns : list string) :
  Main.validatePatterns what patterns = None <->
  Forall (fun p => Main.isPathPattern p = true
                   \/ exists r, regexp_Compile p = Ok r) patterns.
Proof.
  induction patterns as [|p ps IH]; simpl.
  - split; [constructor | reflexivity].
  - destruct (Main.isPathPattern p) eqn:Hp; simpl.
    + rewrite IH. split; [intros Hps; constructor; auto | intros Hall; inversion Hall; assumption].
    + destruct (regexp_Compile p) as [r|er] eqn:Hc.
      * rewrite IH. split; [intros Hps; constructor; eauto
                           | intros Hall; inversion Hall; assumption].
      * split; [discriminate|]. intros Hall. inversion Hall as [|? ? [Hx|[r Hr]] ?];
          congruence.
Qed.

(** What package [tui] hands to [regexp.Compile] for a pattern. *)
Lemma Tui_validate_Some (what pattern : string) (patterns : list string)
    (e : error) :
  In pattern patterns -> Tui.isPathPattern pattern = false ->
  regexp_Compile
    (if strings.Contains pattern "*" || strings.Contains pattern "?"
     then Tui.globToRegex pattern else pattern) = Err e ->
  exists err, Tui.validatePatterns what patterns = Some err.
Proof.
  intros Hin Hpath Hbad. induction patterns as [|p ps IH]; [destruct Hin|].
  simpl. destruct (Tui.isPathPattern p) eqn:Hp; simpl.
  - destruct Hin as [->|Hin]; [congruence | apply IH, Hin].
  - destruct (regexp_Compile
                (if strings.Contains p "*" || strings.Contains p "?"
                 then Tui.globToRegex p else p)) as [r|er] eqn:Hc;
      [|eexists; reflexivity].
    destruct Hin as [->|Hin]; [congruence | apply IH, Hin].
Qed.

Lemma Tui_validate_None (what : string) (patterns : list string) :
  Tui.validatePatterns what patterns = None <->
  Forall (fun p => Tui.isPathPattern p = true
                   \/ exists r,
                        regexp_Compile
                          (if strings.Contains p "*" || strings.Contains p "?"
                           then Tui.globToRegex p else p) = Ok r) patterns.
Proof.
  induction patterns as [|p ps IH]; simpl.
  - split; [constructor | reflexivity].
  - destruct (Tui.isPathPattern p) eqn:Hp; simpl.
    + rewrite IH. split; [intros Hps; constructor; auto | intros Hall; inversion Hall; assumption].
    + destruct (regexp_Compile
                  (if strings.Contains p "*" || strings.Contains p "?"
                   then Tui.globToRegex p else p)) as [r|er] eqn:Hc.
      * rewrite IH. split; [intros Hps; constructor; eauto
                           | intros Hall; inversion Hall; assumption].
      * split; [discriminate|]. intros Hall. inversion Hall as [|? ? [Hx|[r Hr]] ?];
          congruence.
Qed.

Lemma filepath_Walk_ext {St : Type} (entries : list WalkEntry)
    (fn fn' : WalkEntry -> St -> St * option error) (s : St) :
  (forall e s, fn e s = fn' e s) ->
  filepath_Walk entries fn s = filepath_Walk entries fn' s.
Proof.
  intros Hext. revert s. induction entries as [|e entries IH]; intros s; simpl;
    [reflexivity|].
  rewrite Hext. destruct (fn' e s) as [s' [err|]]; [reflexivity | apply IH].
Qed.

Lemma existsb_Permutation {A : Type} (f : A -> bool) (l l' : list A) :
  Permutation l l' -> existsb f l = existsb f l'.
Proof.
  induction 1 as [|x l l' _ IH|x y l|l l' l'' _ IH1 _ IH2]; simpl.
  - reflexivity.
  - rewrite IH. reflexivity.
  - destruct (f x), (f y); reflexivity.
  - rewrite IH1. exact IH2.
Qed.

Variable disk : gmap string Node.

(** Whatever lands on the included list was kept by the verdict. *)
Lemma Main_walk_included_kept (root : string) (excl incl : list string)
    (entries : list WalkEntry) (st st' : list string * list string)
    (err : option error) :
  filepath_Walk entries
    (Main.performDryRun_walkFn disk root (excl ++ defaultExclusionPatterns) incl) st
  = (st', err) ->
  forall p, In p st'.1 ->
    In p st.1 \/ Verdict.main_keeps disk root excl incl p = true.
Proof.
  unfold Verdict.main_keeps.
  remember (excl ++ defaultExclusionPatterns) as allExcl eqn:Hall. clear Hall.
  revert st. induction entries as [|e entries IH]; intros [inc exc]; simpl.
  - intros [= <- <-] p Hp. left. exact Hp.
  - unfold Main.performDryRun_walkFn at 1.
    destruct (we_err e) as [er|]; [intros [= <- <-] p Hp; left; exact Hp|].
    destruct (IsDir (we_info e)); [apply IH|].
    destruct (filepath_Rel root (we_path e)) as [rel|er] eqn:Hrel;
      [|intros [= <- <-] p Hp; left; exact Hp].
    destruct (Main.isTextFile disk (we_path e)) eqn:Htext; simpl; [|apply IH].
    destruct (existsb _ allExcl) eqn:Hex; [apply IH|].
    destruct ((0 <? length incl)%nat && negb (existsb _ incl)) eqn:Hinc;
      [apply IH|].
    intros Hw p Hp. destruct (IH _ Hw p Hp) as [Hold|Hk]; [|right; exact Hk].
    simpl in Hold. apply in_app_or in Hold as [Hold|[<-|[]]]; [left; exact Hold|].
    right. rewrite Hrel, Htext, Hex. simpl.
    destruct incl as [|i incl']; [reflexivity|].
    simpl in Hinc |- *. rewrite negb_false_iff in Hinc. exact Hinc.
Qed.

Lemma Tui_walk_included_kept (root : string) (excl incl : list string)
    (entries : list WalkEntry) (st st' : list string * list string)
    (err : option error) :
  filepath_Walk entries
    (Tui.performDryRun_walkFn disk root (defaultExclusionPatterns ++ excl) incl) st
  = (st', err) ->
  forall p, In p st'.1 ->
    In p st.1 \/ Verdict.tui_keeps disk root excl incl p = true.
Proof.
  unfold Verdict.tui_keeps.
  remember (defaultExclusionPatterns ++ excl) as allExcl eqn:Hall. clear Hall.
  revert st. induction entries as [|e entries IH]; intros [inc exc]; simpl.
  - intros [= <- <-] p Hp. left. exact Hp.
  - unfold Tui.performDryRun_walkFn at 1.
    destruct (we_err e) as [er|]; [intros [= <- <-] p Hp; left; exact Hp|].
    destruct (IsDir (we_info e)); [apply IH|].
    destruct (Tui.isTextFile disk (we_path e)) eqn:Htext; simpl; [|apply IH].
    destruct (filepath_Rel root (we_path e)) as [rel|er] eqn:Hrel;
      [|intros [= <- <-] p Hp; left; exact Hp].
    destruct (existsb _ allExcl) eqn:Hex; [apply IH|].
    destruct ((0 <? length incl)%nat && negb (existsb _ incl)) eqn:Hinc;
      [apply IH|].
    intros Hw p Hp. destruct (IH _ Hw p Hp) as [Hold|Hk]; [|right; exact Hk].
    simpl in Hold. apply in_app_or in Hold as [Hold|[<-|[]]]; [left; exact Hold|].
    right. rewrite Hrel, Htext, Hex. simpl.
    destruct incl as [|i incl']; [reflexivity|].
    simpl in Hinc |- *. rewrite negb_false_iff in Hinc. exact Hinc.
Qed.

Lemma Main_included_kept (Walk : string -> list WalkEntry) (root : string)
    (excl incl : list string) (p : string) :
  In p (Main.performDryRun Walk disk root excl incl).1.1 ->
  Verdict.main_keeps disk root excl incl p = true.
Proof.
  unfold Main.performDryRun.
  destruct (Main.validatePatterns "exclusion" excl); [intros []|].
  destruct (Main.validatePatterns "inclusion" incl); [intros []|].
  destruct (filepath_Walk (Walk root) _ _) as [[inc exc] err] eqn:Hw.
  simpl. intros Hp.
  destruct (Main_walk_included_kept _ _ _ _ _ _ _ Hw p Hp) as [[]|Hk]. exact Hk.
Qed.

Lemma Tui_included_kept (Walk : string -> list WalkEntry) (root : string)
    (excl incl : list string) (p : string) :
  In p (Tui.performDryRun Walk disk root excl incl).1.1 ->
  Verdict.tui_keeps disk root excl incl p = true.
Proof.
  unfold Tui.performDryRun.
  destruct (Tui.validatePatterns "exclusion" excl); [intros []|].
  destruct (Tui.validatePatterns "inclusion" incl); [intros []|].
  destruct (filepath_Walk (Walk root) _ _) as [[inc exc] err] eqn:Hw.
  simpl. intros Hp.
  destruct (Tui_walk_included_kept _ _ _ _ _ _ _ Hw p Hp) as [[]|Hk]. exact Hk.
Qed.

Lemma existsb_false_all {A : Type} (f : A -> bool) (l : list A) :
  existsb f l = false -> forall x, In x l -> f x = false.
Proof.
  intros Hl x Hx. destruct (f x) eqn:Hfx; [|reflexivity].
  assert (existsb f l = true) by (apply existsb_exists; eauto). congruence.
Qed.

Lemma none_or_some_matches {A : Type} (f : A -> bool) (l : list A) :
  (length l =? 0)%nat || existsb f l = true ->
  l = [] \/ exists x, In x l /\ f x = true.
Proof.
  intros Hl. destruct l as [|x l]; [left; reflexivity|]. right.
  change (existsb f (x :: l) = true) in Hl.
  apply existsb_exists in Hl. exact Hl.
Qed.

End ValidationFacts.

(** X2.  Exclusion wins over inclusion, in every run, finished or aborted: a
    path on the included list of [performDryRun] or in the result of
    [collectFiles] has a relative path, matches none of the user's or
    built-in exclusion patterns, and matches an inclusion pattern unless
    there are none. *)
Theorem included_paths_pass_every_filter {L : RegexpLib} {P : PathLib}
    (Walk : string -> list WalkEntry) (disk : gmap string Node)
    (rootPath : string) (exclusionPatterns inclusionPatterns : list string)
    (path : string) :
  (In path (Main.performDryRun Walk disk rootPath exclusionPatterns
              inclusionPatterns).1.1
   \/ In path (Main.collectFiles Walk disk rootPath exclusionPatterns
                 inclusionPatterns).1 ->
   exists relativePath,
     filepath_Rel rootPath path = Ok relativePath
     /\ (forall pattern,
           In pattern (exclusionPatterns ++ defaultExclusionPatterns) ->
           Main.matchesPattern pattern relativePath (filepath_Base path) = false)
     /\ (inclusionPatterns = []
         \/ exists pattern,
              In pattern inclusionPatterns
              /\ Main.matchesPattern pattern relativePath (filepath_Base path)
                 = true))
  /\ (In path (Tui.performDryRun Walk disk rootPath exclusionPatterns
                 inclusionPatterns).1.1
      \/ In path (Tui.collectFiles Walk disk rootPath exclusionPatterns
                    inclusionPatterns).1 ->
      exists relativePath,
        filepath_Rel rootPath path = Ok relativePath
        /\ (forall pattern,
              In pattern (defaultExclusionPatterns ++ exclusionPatterns) ->
              Tui.matchesPattern pattern relativePath (filepath_Base path) = false)
        /\ (inclusionPatterns = []
            \/ exists pattern,
                 In pattern inclusionPatterns
                 /\ Tui.matchesPattern pattern relativePath (filepath_Base path)
                    = true)).
Proof.
  split.
  - rewrite Main_collect_dry. cbn [fst]. intros Hin.
    assert (In path (Main.performDryRun Walk disk rootPath exclusionPatterns
                       inclusionPatterns).1.1) as Hin' by tauto.
    apply Main_included_kept in Hin'. unfold Verdict.main_keeps in Hin'.
    destruct (filepath_Rel rootPath path) as [rel|er]; [|discriminate].
    apply andb_true_iff in Hin' as [Hin' Hincl].
    apply andb_true_iff in Hin' as [_ Hexcl]. apply negb_true_iff in Hexcl.
    exists rel. split; [reflexivity|]. split.
    + apply (existsb_false_all _ _ Hexcl).
    + apply (none_or_some_matches _ _ Hincl).
  - rewrite Tui_collect_dry. cbn [fst]. intros Hin.
    assert (In path (Tui.performDryRun Walk disk rootPath exclusionPatterns
                       inclusionPatterns).1.1) as Hin' by tauto.
    apply Tui_included_kept in Hin'. unfold Verdict.tui_keeps in Hin'.
    apply andb_true_iff in Hin' as [_ Hin'].
    destruct (filepath_Rel rootPath path) as [rel|er]; [|discriminate].
    apply andb_true_iff in Hin' as [Hexcl Hincl]. apply negb_true_iff in Hexcl.
    exists rel. split; [reflexivity|]. split.
    + apply (existsb_false_all _ _ Hexcl).
    + apply (none_or_some_matches _ _ Hincl).
Qed.

Lemma included_paths_pass_every_filter_witness :
  In "/w/src/a.go"
    (Main.performDryRun (L := RE2Fragment.lib) (P := Sample.paths)
       Scenario.srcTreeWalk Scenario.srcTree "/w" ["_test\.go$"] ["/src"]).1.1
  /\ exists relativePath,
       filepath_Rel (PathLib := Sample.paths) "/w" "/w/src/a.go" = Ok relativePath
       /\ Main.matchesPattern (L := RE2Fragment.lib) "_test\.go$" relativePath
            (filepath_Base (PathLib := Sample.paths) "/w/src/a.go") = false.
Proof.
  assert (In "/w/src/a.go"
            (Main.performDryRun (L := RE2Fragment.lib) (P := Sample.paths)
               Scenario.srcTreeWalk Scenario.srcTree "/w" ["_test\.go$"] ["/src"]).1.1)
    as Hin by (vm_compute; left; reflexivity).
  split; [exact Hin|].
  destruct (@included_paths_pass_every_filter RE2Fragment.lib Sample.paths
              Scenario.srcTreeWalk Scenario.srcTree "/w" ["_test\.go$"] ["/src"]
              "/w/src/a.go") as [HMain _].
  destruct (HMain (or_introl Hin)) as (rel & Hrel & Hexcl & _).
  exists rel. split; [exact Hrel|]. apply Hexcl. left. reflexivity.
Defined.

(** X3.  A pattern that is not a path pattern and that [regexp.Compile]
    refuses stops the scan before the walk: whichever list it is on, the
    result is one and the same error with empty lists for every tree and
    every file store.  In package [tui] the string compiled is the glob
    translation when the pattern contains a star or a question mark. *)
Theorem invalid_pattern_stops_before_walk {L : RegexpLib} {P : PathLib}
    (rootPath pattern : string) (exclusionPatterns inclusionPatterns : list string)
    (e : error) :
  In pattern exclusionPatterns \/ In pattern inclusionPatterns ->
  (Main.isPathPattern pattern = false ->
   regexp_Compile pattern = Err e ->
   exists err,
     forall (Walk : string -> list WalkEntry) (disk : gmap string Node),
       Main.performDryRun Walk disk rootPath exclusionPatterns inclusionPatterns
       = ([], [], Some err)
       /\ Main.collectFiles Walk disk rootPath exclusionPatterns inclusionPatterns
          = ([], Some err))
  /\ (Tui.isPathPattern pattern = false ->
      regexp_Compile
        (if strings.Contains pattern "*" || strings.Contains pattern "?"
         then Tui.globToRegex pattern else pattern) = Err e ->
      exists err,
        forall (Walk : string -> list WalkEntry) (disk : gmap string Node),
          Tui.performDryRun Walk disk rootPath exclusionPatterns inclusionPatterns
          = ([], [], Some err)
          /\ Tui.collectFiles Walk disk rootPath exclusionPatterns inclusionPatterns
             = ([], Some err)).
Proof.
  intros Hin. split; intros Hpath Hbad.
  - unfold Main.collectFiles, Main.performDryRun.
    destruct (Main.validatePatterns "exclusion" exclusionPatterns) as [err|] eqn:Hx.
    { exists err. intros Walk disk. split; reflexivity. }
    destruct Hin as [Hin|Hin].
    { destruct (Main_validate_Some "exclusion" pattern _ e Hin Hpath Hbad)
        as [err Herr]. congruence. }
    destruct (Main_validate_Some "inclusion" pattern _ e Hin Hpath Hbad)
      as [err ->].
    exists err. intros Walk disk. split; reflexivity.
  - unfold Tui.collectFiles, Tui.performDryRun.
    destruct (Tui.validatePatterns "exclusion" exclusionPatterns) as [err|] eqn:Hx.
    { exists err. intros Walk disk. split; reflexivity. }
    destruct Hin as [Hin|Hin].
    { destruct (Tui_validate_Some "exclusion" pattern _ e Hin Hpath Hbad)
        as [err Herr]. congruence. }
    destruct (Tui_validate_Some "inclusion" pattern _ e Hin Hpath Hbad)
      as [err ->].
    exists err. intros Walk disk. split; reflexivity.
Qed.

Lemma invalid_pattern_stops_before_walk_witness :
  In "(a" ["\.go$"; "(a"]
  /\ exists err,
       Main.performDryRun (L := RE2Fragment.lib) (P := Sample.paths)
         Scenario.specTreeWalk Scenario.specTree "/w" [] ["\.go$"; "(a"]
       = ([], [], Some err).
Proof.
  assert (In "(a" ["\.go$"; "(a"]) as Hin by (right; left; reflexivity).
  split; [exact Hin|].
  destruct (@invalid_pattern_stops_before_walk RE2Fragment.lib Sample.paths
              "/w" "(a" [] ["\.go$"; "(a"]
              "error parsing regexp: missing closing )" (or_intror Hin))
    as [HMain _].
  destruct (HMain eq_refl eq_refl) as [err Herr].
  exists err. apply (Herr Scenario.specTreeWalk Scenario.specTree).
Defined.

(** X4.  The order of the user's exclusion patterns does not matter: once
    they pass validation, any permutation of them gives the same lists and
    the same error, in both packages. *)
Theorem exclusion_order_is_irrelevant {L : RegexpLib} {P : PathLib}
    (Walk : string -> list WalkEntry) (disk : gmap string Node)
    (rootPath : string) (exclusionPatterns exclusionPatterns' inclusionPatterns
      : list string) :
  Permutation exclusionPatterns exclusionPatterns' ->
  (Main.validatePatterns "exclusion" exclusionPatterns = None ->
   Main.performDryRun Walk disk rootPath exclusionPatterns' inclusionPatterns
   = Main.performDryRun Walk disk rootPath exclusionPatterns inclusionPatterns
   /\ Main.collectFiles Walk disk rootPath exclusionPatterns' inclusionPatterns
      = Main.collectFiles Walk disk rootPath exclusionPatterns inclusionPatterns)
  /\ (Tui.validatePatterns "exclusion" exclusionPatterns = None ->
      Tui.performDryRun Walk disk rootPath exclusionPatterns' inclusionPatterns
      = Tui.performDryRun Walk disk rootPath exclusionPatterns inclusionPatterns).
Proof.
  intros Hperm. split; intros Hvalid.
  - assert (Main.performDryRun Walk disk rootPath exclusionPatterns' inclusionPatterns
            = Main.performDryRun Walk disk rootPath exclusionPatterns
                inclusionPatterns) as Hdry.
    { unfold Main.performDryRun. rewrite Hvalid.
      assert (Main.validatePatterns "exclusion" exclusionPatterns' = None) as ->.
      { apply Main_validate_None. apply Main_validate_None in Hvalid.
        rewrite <- Hperm. exact Hvalid. }
      destruct (Main.validatePatterns "inclusion" inclusionPatterns); [reflexivity|].
      rewrite (filepath_Walk_ext (Walk rootPath)
                 (Main.performDryRun_walkFn disk rootPath
                    (exclusionPatterns' ++ defaultExclusionPatterns) inclusionPatterns)
                 (Main.performDryRun_walkFn disk rootPath
                    (exclusionPatterns ++ defaultExclusionPatterns) inclusionPatterns));
        [reflexivity|].
      intros e st. unfold Main.performDryRun_walkFn.
      destruct (filepath_Rel rootPath (we_path e)); [|reflexivity].
      rewrite (existsb_Permutation _ (exclusionPatterns' ++ defaultExclusionPatterns)
                 (exclusionPatterns ++ defaultExclusionPatterns));
        [reflexivity|].
      apply Permutation_app_tail. symmetry. exact Hperm. }
    split; [exact Hdry|]. rewrite !Main_collect_dry, Hdry. reflexivity.
  - unfold Tui.performDryRun. rewrite Hvalid.
    assert (Tui.validatePatterns "exclusion" exclusionPatterns' = None) as ->.
    { apply Tui_validate_None. apply Tui_validate_None in Hvalid.
      rewrite <- Hperm. exact Hvalid. }
    destruct (Tui.validatePatterns "inclusion" inclusionPatterns); [reflexivity|].
    rewrite (filepath_Walk_ext (Walk rootPath)
               (Tui.performDryRun_walkFn disk rootPath
                  (defaultExclusionPatterns ++ exclusionPatterns') inclusionPatterns)
               (Tui.performDryRun_walkFn disk rootPath
                  (defaultExclusionPatterns ++ exclusionPatterns) inclusionPatterns));
      [reflexivity|].
    intros e st. unfold Tui.performDryRun_walkFn.
    destruct (filepath_Rel rootPath (we_path e)); [|reflexivity].
    rewrite (existsb_Permutation _ (defaultExclusionPatterns ++ exclusionPatterns')
               (defaultExclusionPatterns ++ exclusionPatterns));
      [reflexivity|].
    apply Permutation_app_head. symmetry. exact Hperm.
Qed.

Lemma exclusion_order_is_irrelevant_witness :
  Permutation ["\.txt$"; "/lib"] ["/lib"; "\.txt$"]
  /\ Main.performDryRun (L := RE2Fragment.lib) (P := Sample.paths)
       Scenario.srcTreeWalk Scenario.srcTree "/w" ["/lib"; "\.txt$"] []
     = Main.performDryRun (L := RE2Fragment.lib) (P := Sample.paths)
         Scenario.srcTreeWalk Scenario.srcTree "/w" ["\.txt$"; "/lib"] [].
Proof.
  assert (Permutation ["\.txt$"; "/lib"] ["/lib"; "\.txt$"]) as Hperm
    by apply perm_swap.
  split; [exact Hperm|].
  destruct (@exclusion_order_is_irrelevant RE2Fragment.lib Sample.paths
              Scenario.srcTreeWalk Scenario.srcTree "/w" ["\.txt$"; "/lib"]
              ["/lib"; "\.txt$"] [] Hperm) as [HMain _].
  apply HMain. reflexivity.
Defined.

(** ** Text files, exactly *)
Section TextExact.
Variable disk : gmap string Node.

Lemma null_byte_located (content : string) (n : nat) :
  no_null_byte (strings.take n content) = false ->
  exists i, (i < Nat.min (String.length content) n)%nat
            /\ String.get i content = Some "000"%char.
Proof.
  revert n. induction content as [|b content IH]; intros n.
  - destruct n; discriminate.
  - destruct n as [|n]; [discriminate|]. simpl.
    destruct (Ascii.eqb b "000") eqn:Hb.
    + intros _. exists 0%nat. apply Ascii.eqb_eq in Hb as ->.
      split; [lia | reflexivity].
    + intros Hrest. destruct (IH n Hrest) as (i & Hi & Hget).
      exists (S i). split; [lia | exact Hget].
Qed.

Lemma no_null_iff (content : string) :
  no_null_byte (strings.take 512 content) = true <-> ~ Spec.nullInSample content.
Proof.
  split.
  - intros Htrue Hnull. apply sample_has_null in Hnull. congruence.
  - intros Hnone. destruct (no_null_byte (strings.take 512 content)) eqn:Hn;
      [reflexivity|].
    exfalso. apply Hnone. apply null_byte_located in Hn. exact Hn.
Qed.

Lemma take_empty (n : nat) (content : string) :
  strings.take (S n) content = "" <-> content = "".
Proof. destruct content; simpl; split; congruence. Qed.

End TextExact.

(** X5.  [isTextFile] accepts exactly the regular files whose first 512 bytes
    hold no null byte; in package [tui] the file must moreover be non-empty.
    A path that is missing or a directory is never text, and what follows the
    first 512 bytes is not looked at.  So an empty regular file is text for
    package [main] and not for package [tui]. *)
Theorem isTextFile_exactly (disk : gmap string Node) (path : string) :
  (Main.isTextFile disk path = true
   <-> exists content,
         disk !! path = Some (RegularFile content)
         /\ ~ Spec.nullInSample content)
  /\ (Tui.isTextFile disk path = true
      <-> exists content,
            disk !! path = Some (RegularFile content)
            /\ content <> "" /\ ~ Spec.nullInSample content)
  /\ (disk !! path = Some (RegularFile "") ->
      Main.isTextFile disk path = true /\ Tui.isTextFile disk path = false).
Proof.
  unfold Main.isTextFile, Tui.isTextFile, open_and_read.
  destruct (disk !! path) as [[content| ]|] eqn:Hnode.
  - pose proof (no_null_iff content) as Hiff.
    pose proof (take_empty 511 content) as Hempty.
    destruct (strings.take 512 content) as [|b data] eqn:Htake.
    + assert (content = "") as -> by (apply Hempty; reflexivity).
      split; [|split].
      * split; [intros _; exists ""; split; [reflexivity | apply Hiff; reflexivity]
               | reflexivity].
      * split; [discriminate | intros (c & [= <-] & Hne & _); contradiction].
      * intros _. split; reflexivity.
    + assert (content <> "") as Hne.
      { intros ->. discriminate Htake. }
      split; [|split].
      * split; [intros Ht; exists content; split; [reflexivity | apply Hiff, Ht]
               | intros (c & [= <-] & Hc); apply Hiff, Hc].
      * cbn [String.length].
        split; [intros Ht; exists content;
                split; [reflexivity | split; [exact Hne | apply Hiff, Ht]]
               | intros (c & [= <-] & _ & Hc); apply Hiff, Hc].
      * intros [= ->]. contradiction.
  - split; [|split].
    + split; [discriminate | intros (c & Hc & _); discriminate].
    + split; [discriminate | intros (c & Hc & _); discriminate].
    + discriminate.
  - split; [|split].
    + split; [discriminate | intros (c & Hc & _); discriminate].
    + split; [discriminate | intros (c & Hc & _); discriminate].
    + discriminate.
Qed.

Lemma isTextFile_exactly_witness :
  (<["/e" := RegularFile ""]> Scenario.disk) !! "/e" = Some (RegularFile "")
  /\ Main.isTextFile (<["/e" := RegularFile ""]> Scenario.disk) "/e" = true
  /\ Tui.isTextFile (<["/e" := RegularFile ""]> Scenario.disk) "/e" = false
  /\ Main.isTextFile Scenario.disk "/r/a.go" = true.
Proof.
  destruct (isTextFile_exactly (<["/e" := RegularFile ""]> Scenario.disk) "/e")
    as (_ & _ & Hempty).
  destruct (isTextFile_exactly Scenario.disk "/r/a.go") as (HMain & _ & _).
  assert ((<["/e" := RegularFile ""]> Scenario.disk) !! "/e"
          = Some (RegularFile "")) as Hnode by reflexivity.
  destruct (Hempty Hnode) as [Ht Hf].
  repeat (split; [assumption|]).
  apply HMain. exists Scenario.goFile. split; [reflexivity|].
  intros (i & Hi & Hget). vm_compute in Hi.
  do 9 (destruct i as [|i]; [discriminate Hget|]). lia.
Defined.

(** ** Path patterns of the command line *)
Section TopLevelOnly.
Context {L : RegexpLib}.

Lemma firstSegment_no_separator (p : string) :
  strings.Contains (Spec.firstSegment p) "/" = false.
Proof.
  induction p as [|c p IH]; [reflexivity|]. simpl.
  destruct (Ascii.eqb c "/") eqn:Hc; [reflexivity|].
  simpl. rewrite Hc, IH. reflexivity.
Qed.

Lemma HasPrefix_Contains (s x : string) :
  strings.HasPrefix s x = true -> strings.Contains x "/" = true ->
  strings.Contains s "/" = true.
Proof.
  revert s. induction x as [|a x IH]; intros s; [discriminate|].
  destruct s as [|c s]; [discriminate|]. simpl.
  intros Hpre Hx. apply andb_true_iff in Hpre as [Hca Hpre].
  apply Ascii.eqb_eq in Hca as ->.
  rewrite !andb_true_r in *.
  destruct (Ascii.eqb a "/"); [reflexivity|]. simpl in *.
  apply (IH s Hpre Hx).
Qed.

End TopLevelOnly.

(** X6.  In package [main] a path pattern addresses top-level names only: a
    pattern with a separator after its leading slash, such as [/src/] or
    [/src/util], matches no path at all. *)
Theorem main_path_pattern_with_separator_matches_nothing {L : RegexpLib}
    (X relativePath baseName : string) :
  strings.Contains X "/" = true ->
  Main.matchesPattern ("/" +:+ X) relativePath baseName = false.
Proof.
  intros HX. rewrite Main_matchesPattern_path.
  destruct (strings.HasPrefix (Spec.firstSegment relativePath) X) eqn:Hpre;
    [|reflexivity].
  pose proof (HasPrefix_Contains _ _ Hpre HX) as Hsep.
  rewrite firstSegment_no_separator in Hsep. discriminate.
Qed.

Lemma main_path_pattern_with_separator_matches_nothing_witness :
  strings.Contains "src/" "/" = true
  /\ Main.matchesPattern (L := RE2Fragment.lib) "/src/" "src/a.go" "a.go" = false.
Proof.
  split; [reflexivity|].
  apply (@main_path_pattern_with_separator_matches_nothing RE2Fragment.lib
           "src/" "src/a.go" "a.go"). reflexivity.
Defined.

(** ** Paths without a node *)
Section Errno.

Lemma In_ancestors_from (a before rest : string) :
  In a (ancestors_from before rest)
  <-> exists r1 r2, rest = r1 +:+ String "/" r2 /\ a = before +:+ r1.
Proof.
  revert before. induction rest as [|c rest IH]; intros before.
  - cbn [ancestors_from]. split; [intros []|].
    intros (r1 & r2 & Hrest & _). destruct r1; discriminate Hrest.
  - cbn [ancestors_from].
    assert (In a (ancestors_from (before +:+ String c "") rest)
            <-> exists r1 r2, rest = r1 +:+ String "/" r2
                              /\ a = before +:+ String c r1) as Hfurther.
    { rewrite IH. split; intros (r1 & r2 & Hrest & Ha); exists r1, r2;
        (split; [exact Hrest|]); rewrite Ha, ?append_assoc; reflexivity. }
    destruct (Ascii.eqb c "/") eqn:Hc.
    + apply Ascii.eqb_eq in Hc as ->. cbn [In]. rewrite Hfurther. split.
      * intros [<-|(r1 & r2 & -> & ->)].
        -- exists "", rest. rewrite append_nil_r. split; reflexivity.
        -- exists (String "/" r1), r2. split; reflexivity.
      * intros ([|d r1] & r2 & Hrest & ->).
        -- left. rewrite append_nil_r. reflexivity.
        -- right. rewrite append_cons in Hrest. injection Hrest as -> ->.
           exists r1, r2. split; reflexivity.
    + rewrite Hfurther. split.
      * intros (r1 & r2 & -> & ->). exists (String c r1), r2.
        split; reflexivity.
      * intros ([|d r1] & r2 & Hrest & ->).
        -- rewrite append_empty in Hrest. injection Hrest as -> _.
           rewrite Ascii.eqb_refl in Hc. discriminate.
        -- rewrite append_cons in Hrest. injection Hrest as -> ->.
           exists r1, r2. split; reflexivity.
Qed.

Lemma In_ancestors (a path : string) :
  In a (ancestors path) <-> strings.HasPrefix path (a +:+ "/") = true.
Proof.
  unfold ancestors. rewrite In_ancestors_from, HasPrefix_true_iff.
  unfold Spec.hasPrefix. split.
  - intros (r1 & r2 & -> & ->). exists r2. rewrite append_empty, append_assoc.
    reflexivity.
  - intros [r2 ->]. exists a, r2. rewrite append_assoc. split; reflexivity.
Qed.

(** [os.Stat] and [os.ReadFile] fail with ENOTDIR exactly below a regular
    file. *)
Lemma errnoOf_ENOTDIR (m : gmap string Node) (path : string) :
  errnoOf m path = ENOTDIR <-> belowFile m path.
Proof.
  unfold errnoOf, belowFile.
  destruct (existsb (isRegularFile m) (ancestors path)) eqn:Hex.
  - split; [intros _ | reflexivity].
    apply existsb_exists in Hex as (a & Ha & Hreg).
    unfold isRegularFile in Hreg.
    destruct (m !! a) as [[content| ]|] eqn:Hnode; try discriminate.
    exists a, content. split; [exact Hnode | apply In_ancestors; exact Ha].
  - split; [discriminate|]. intros (a & content & Hnode & Hpre). exfalso.
    assert (existsb (isRegularFile m) (ancestors path) = true) as Hyes.
    { apply existsb_exists. exists a. split; [apply In_ancestors; exact Hpre|].
      unfold isRegularFile. rewrite Hnode. reflexivity. }
    congruence.
Qed.

Lemma errnoOf_ENOENT (m : gmap string Node) (path : string) :
  errnoOf m path = ENOENT <-> ~ belowFile m path.
Proof.
  rewrite <- errnoOf_ENOTDIR. destruct (errnoOf m path); split; intros H;
    try reflexivity; try discriminate; try (intros Hd; discriminate Hd).
  exfalso. apply H. reflexivity.
Qed.

End Errno.

(** ** More on the cache *)
Section CacheMore.
Context {P : PathLib} {Hst : HostLib}.

Lemma getCachedRepo_absent (w : World) (url : string) :
  files w !! metadataPathOf url = None ->
  ~ belowFile (files w) (metadataPathOf url) ->
  getCachedRepo url w
  = (("", false, 0, None),
     mkWorld (files w) (clock w) (reads w) (temps w)
       (trace w ++ [EvStat (metadataPathOf url)])).
Proof.
  intros Hmeta Hnot. apply errnoOf_ENOENT in Hnot.
  unfold metadataPathOf in *. unfold getCachedRepo. run_io.
  rewrite Hmeta, Hnot. reflexivity.
Qed.

Lemma getCachedRepo_not_a_directory (w : World) (url : string) :
  files w !! metadataPathOf url = None ->
  belowFile (files w) (metadataPathOf url) ->
  getCachedRepo url w
  = (("", false, 0,
      Some ("open " +:+ metadataPathOf url +:+ ": not a directory")),
     mkWorld (files w) (clock w) (reads w) (temps w)
       (trace w ++ [EvStat (metadataPathOf url); EvReadFile (metadataPathOf url)])).
Proof.
  intros Hmeta Hbelow. apply errnoOf_ENOTDIR in Hbelow.
  unfold metadataPathOf in *. unfold getCachedRepo. run_io.
  rewrite Hmeta, Hbelow. run_io. rewrite Hmeta, Hbelow, <- app_assoc.
  reflexivity.
Qed.


(** A live entry whose path [os.Stat] does not report as missing is a hit. *)
Lemma getCachedRepo_live (w : World) (url data : string) (entry : CacheEntry) :
  files w !! metadataPathOf url = Some (RegularFile data) ->
  json_Unmarshal data = Ok entry ->
  clock w (reads w) <= ExpiresAt entry ->
  is_Some (files w !! RepoPath entry) \/ belowFile (files w) (RepoPath entry) ->
  exists w',
    getCachedRepo url w
    = ((RepoPath entry, true, CachedAt entry, None), w')
    /\ files w' = files w.
Proof.
  intros Hmeta Hparse Hexp Hrepo. unfold metadataPathOf in *.
  unfold getCachedRepo. run_io.
  rewrite Hmeta; run_io; rewrite Hmeta; run_io. rewrite Hparse. run_io.
  rewrite (After_false _ _ Hexp). run_io.
  destruct (files w !! RepoPath entry) as [n|] eqn:Hnode.
  - eexists. split; reflexivity.
  - destruct Hrepo as [[n Hn]|Hbelow]; [discriminate|].
    apply errnoOf_ENOTDIR in Hbelow. rewrite Hbelow.
    eexists. split; reflexivity.
Qed.

(** The shape of every outcome of a lookup. *)
Lemma getCachedRepo_outcomes (w : World) (url : string) :
  let r := getCachedRepo url w in
  clock r.2 = clock w
  /\ files r.2 ⊆ files w
  /\ (forall p t, r.1 = (p, true, t, None) ->
      files r.2 = files w
      /\ reads r.2 = S (reads w)
      /\ exists data entry,
           files w !! metadataPathOf url = Some (RegularFile data)
           /\ json_Unmarshal data = Ok entry
           /\ RepoPath entry = p /\ CachedAt entry = t
           /\ clock w (reads w) <= ExpiresAt entry
           /\ (is_Some (files w !! p) \/ belowFile (files w) p)).
Proof.
  unfold metadataPathOf. unfold getCachedRepo. run_io.
  destruct (files w !! filepath_Join getTmpCacheDir (urlToHash url +:+ ".json"))
    as [[data| ]|] eqn:Hmeta; run_io; rewrite ?Hmeta; run_io;
    try (split; [reflexivity|]; split; [reflexivity|]; intros p t [=]).
  - destruct (json_Unmarshal data) as [entry|err] eqn:Hparse; run_io;
      try (split; [reflexivity|]; split; [reflexivity|]; intros p t [=]).
    destruct (After (clock w (reads w)) (ExpiresAt entry)) eqn:Hafter; run_io.
    + rewrite Hmeta. run_io.
      destruct (decide (RepoPath entry = "")) as [Hempty|Hpath]; run_io.
      * split; [reflexivity|]. split; [apply delete_subseteq|]. intros p t [=].
      * split; [reflexivity|]. split.
        -- etrans; [apply map_filter_subseteq | apply delete_subseteq].
        -- intros p t [=].
    + assert (clock w (reads w) <= ExpiresAt entry) as Hexp.
      { unfold After in Hafter. apply Z.ltb_ge in Hafter. exact Hafter. }
      destruct (files w !! RepoPath entry) as [n|] eqn:Hrepo; run_io.
      * split; [reflexivity|]. split; [reflexivity|].
        intros p t [= <- <-]. split; [reflexivity|]. split; [reflexivity|].
        exists data, entry. repeat split; try assumption.
        left. rewrite Hrepo. eexists. reflexivity.
      * destruct (errnoOf (files w) (RepoPath entry)) eqn:Herrno; run_io.
        -- rewrite Hmeta. run_io. split; [reflexivity|].
           split; [apply delete_subseteq|]. intros p t [=].
        -- split; [reflexivity|]. split; [reflexivity|].
           intros p t [= <- <-]. split; [reflexivity|]. split; [reflexivity|].
           exists data, entry. repeat split; try assumption.
           right. apply errnoOf_ENOTDIR. exact Herrno.
  - destruct (errnoOf (files w) _) eqn:Herrno; run_io; rewrite ?Hmeta;
      (split; [reflexivity|]); (split; [reflexivity|]); intros p t [=].
Qed.

(** What [cacheRepo] leaves alone. *)
Lemma cacheRepo_frame (w : World) (url repoPath : string) :
  let r := cacheRepo url repoPath w in
  clock r.2 = clock w
  /\ (forall k, k <> getTmpCacheDir -> k <> metadataPathOf url ->
      files r.2 !! k = files w !! k)
  /\ (forall err, r.1 = Some err -> metadataPathOf url <> getTmpCacheDir ->
      files r.2 !! metadataPathOf url = files w !! metadataPathOf url).
Proof.
  unfold cacheRepo, metadataPathOf. run_io.
  destruct (files w !! getTmpCacheDir) as [[content| ]|] eqn:Hdir; run_io;
    [| destruct (json_Marshal _) as [data|err] eqn:Hm; run_io;
       [destruct (files w !! filepath_Join _ _) as [[c| ]|] eqn:Hf; run_io|]
     | destruct (json_Marshal _) as [data|err] eqn:Hm; run_io;
       [destruct (<[getTmpCacheDir:=Directory]> (files w) !! filepath_Join _ _)
          as [[c| ]|] eqn:Hf; run_io|] ];
    (split; [reflexivity|];
     split; [intros k Hd Hk | intros e Herr Hne]; cbn [fst snd files] in *;
     try discriminate; rewrite ?lookup_insert_ne by congruence;
     first [reflexivity | congruence]).
Qed.

End CacheMore.

(** X7.  A source whose metadata path has no node is a plain miss when
    [os.Stat] reports that the path does not exist, that is when no component
    of the path is a regular file: the lookup returns no error and does
    nothing but the one [os.Stat].  When a component of the path is a regular
    file (the cache directory itself, say), [os.Stat] fails with an error
    that [os.IsNotExist] does not accept; the lookup goes on to [os.ReadFile]
    and returns its error, "not a directory".  No file changes either way. *)
Theorem lookup_of_unknown_source {P : PathLib} {Hst : HostLib}
    (w : World) (url : string) :
  files w !! metadataPathOf url = None ->
  (~ belowFile (files w) (metadataPathOf url) ->
   getCachedRepo url w
   = (("", false, 0, None),
      mkWorld (files w) (clock w) (reads w) (temps w)
        (trace w ++ [EvStat (metadataPathOf url)])))
  /\ (belowFile (files w) (metadataPathOf url) ->
      getCachedRepo url w
      = (("", false, 0,
          Some ("open " +:+ metadataPathOf url +:+ ": not a directory")),
         mkWorld (files w) (clock w) (reads w) (temps w)
           (trace w ++ [EvStat (metadataPathOf url);
                        EvReadFile (metadataPathOf url)]))).
Proof.
  intros Hmeta. split.
  - apply getCachedRepo_absent. exact Hmeta.
  - apply getCachedRepo_not_a_directory. exact Hmeta.
Qed.

Lemma lookup_of_unknown_source_witness :
  (getCachedRepo (P := Sample.paths) (Hst := Sample.host) Scenario.url
     (Sample.world Scenario.disk 7)).1 = ("", false, 0, None)
  /\ (getCachedRepo (P := Sample.paths) (Hst := Sample.host) Scenario.url
        (Sample.world Scenario.blockedCache 7)).1
     = ("", false, 0,
        Some "open /tmp/repo-concat-cache/digest32.json: not a directory").
Proof.
  split.
  - destruct (@lookup_of_unknown_source Sample.paths Sample.host
                (Sample.world Scenario.disk 7) Scenario.url eq_refl)
      as [Hplain _].
    rewrite Hplain; [reflexivity|].
    apply errnoOf_ENOENT. vm_compute. reflexivity.
  - destruct (@lookup_of_unknown_source Sample.paths Sample.host
                (Sample.world Scenario.blockedCache 7) Scenario.url eq_refl)
      as [_ Hblocked].
    rewrite Hblocked; [reflexivity|].
    apply errnoOf_ENOTDIR. vm_compute. reflexivity.
Defined.



(** X9.  A lookup never creates or rewrites a file: every path that exists
    after [getCachedRepo] existed before with the same node, whatever the
    outcome; and it leaves the clock function alone. *)
Theorem lookup_never_creates {P : PathLib} {Hst : HostLib}
    (w : World) (url k : string) (n : Node) :
  files (getCachedRepo url w).2 !! k = Some n -> files w !! k = Some n.
Proof.
  destruct (getCachedRepo_outcomes w url) as (_ & Hsub & _).
  intros Hk. apply (lookup_weaken _ _ _ _ Hk Hsub).
Qed.

Lemma lookup_never_creates_witness :
  let w := Sample.world Scenario.cached 101 in
  files (getCachedRepo (P := Sample.paths) (Hst := Sample.host) Scenario.url w).2
    !! "/tmp/repo-concat-cache/checkout" = None
  /\ (forall n,
        files (getCachedRepo (P := Sample.paths) (Hst := Sample.host)
                 Scenario.url w).2 !! "/tmp/repo-concat-cache/checkout" = Some n ->
        files w !! "/tmp/repo-concat-cache/checkout" = Some n).
Proof.
  intros w. split; [vm_compute; reflexivity|].
  intros n. apply (@lookup_never_creates Sample.paths Sample.host w Scenario.url).
Defined.

(** X10.  A hit changes no file and can be repeated.  A hit is drawn from the
    entry stored for the source: the metadata file decodes to an entry with
    the path and the time returned, whose [ExpiresAt] the clock had not
    passed.  Every later lookup on the same files whose clock reading is
    still no later than that [ExpiresAt] returns the same path and time, and
    changes no file either. *)
Theorem hit_is_repeatable {P : PathLib} {Hst : HostLib}
    (w w' : World) (url p : string) (t : Z) :
  getCachedRepo url w = ((p, true, t, None), w') ->
  files w' = files w
  /\ exists data entry,
       files w !! metadataPathOf url = Some (RegularFile data)
       /\ json_Unmarshal data = Ok entry
       /\ RepoPath entry = p /\ CachedAt entry = t
       /\ clock w (reads w) <= ExpiresAt entry
       /\ (forall w2,
             files w2 = files w ->
             clock w2 (reads w2) <= ExpiresAt entry ->
             exists w3,
               getCachedRepo url w2 = ((p, true, t, None), w3)
               /\ files w3 = files w).
Proof.
  intros Hhit. destruct (getCachedRepo_outcomes w url) as (Hclock & _ & Hshape).
  rewrite Hhit in Hclock, Hshape. cbn [fst snd] in *.
  destruct (Hshape p t eq_refl)
    as (Hfiles & Hreads & data & entry & Hmeta & Hparse & <- & <- & Hexp & Hrepo).
  split; [exact Hfiles|]. exists data, entry.
  split; [exact Hmeta|]. split; [exact Hparse|].
  split; [reflexivity|]. split; [reflexivity|]. split; [exact Hexp|].
  intros w2 Hsame Hagain. rewrite <- Hsame in Hmeta, Hrepo.
  destruct (getCachedRepo_live w2 url data entry Hmeta Hparse Hagain Hrepo)
    as (w3 & Hrun & Hkept).
  exists w3. split; [exact Hrun | congruence].
Qed.

Lemma hit_is_repeatable_witness :
  let w := Sample.world Scenario.cached 60 in
  let r := getCachedRepo (P := Sample.paths) (Hst := Sample.host) Scenario.url w in
  r = (("/tmp/repo-concat-cache/checkout", true, 40, None), r.2)
  /\ files r.2 = files w.
Proof.
  intros w r.
  assert (r = (("/tmp/repo-concat-cache/checkout", true, 40, None), r.2)) as Hhit
    by reflexivity.
  split; [exact Hhit|].
  apply (@hit_is_repeatable Sample.paths Sample.host w r.2 Scenario.url _ _ Hhit).
Defined.

(** X11.  [cacheRepo] touches at most the cache directory and the metadata
    file of its source: every other path is as before, whether it succeeds or
    fails; and when it fails, the metadata file is as before as well. *)
Theorem cacheRepo_touches_only_its_entry {P : PathLib} {Hst : HostLib}
    (w : World) (url repoPath : string) :
  (forall k, k <> getTmpCacheDir -> k <> metadataPathOf url ->
     files (cacheRepo url repoPath w).2 !! k = files w !! k)
  /\ (forall err, (cacheRepo url repoPath w).1 = Some err ->
      metadataPathOf url <> getTmpCacheDir ->
      files (cacheRepo url repoPath w).2 !! metadataPathOf url
      = files w !! metadataPathOf url).
Proof.
  destruct (cacheRepo_frame w url repoPath) as (_ & Hframe & Hfail).
  split; assumption.
Qed.

Lemma cacheRepo_touches_only_its_entry_witness :
  let w := Sample.world Scenario.cached 60 in
  "/tmp/repo-concat-cache/checkout/main.go"
  <> getTmpCacheDir (P := Sample.paths)
  /\ files (cacheRepo (P := Sample.paths) (Hst := Sample.host)
              "https://example.org/a/b" "/elsewhere" w).2
       !! "/tmp/repo-concat-cache/checkout/main.go"
     = Some (RegularFile Scenario.goFile).
Proof.
  intros w. split; [discriminate|].
  destruct (@cacheRepo_touches_only_its_entry Sample.paths Sample.host w
              "https://example.org/a/b" "/elsewhere") as [Hframe _].
  rewrite Hframe; [reflexivity | discriminate | discriminate].
Defined.

(** ** More on the resolution *)
Section ResolveMore.
Context {P : PathLib} {Hst : HostLib}.

Lemma Tui_resolve_after_lookup (config : Tui.Config) (w w' : World)
    (p : string) (found : bool) (t : Z) :
  Tui.Path config = "" -> Tui.URL config <> "" ->
  getCachedRepo (Tui.URL config) w = ((p, found, t, None), w') ->
  Tui.resolveRepositoryPath config w
  = if found then ((p, None), w') else resolveRepositoryPath_clone config w'.
Proof.
  intros HP HU Hlookup. unfold Tui.resolveRepositoryPath.
  rewrite HP, (String_eqb_false _ _ HU).
  change (String.eqb "" "") with true. cbn [negb].
  unfold mbind at 1. unfold IO_bind at 1. rewrite Hlookup.
  destruct found; reflexivity.
Qed.

(** The clone step when the clone fails. *)
Lemma clone_step_failure (config : Tui.Config) (w : World) (e : error) :
  (forall c, files w !! getTmpCacheDir <> Some (RegularFile c)) ->
  (forall m, git_clone (Tui.URL config) getTmpCacheDir m = Err e) ->
  let repoPath := filepath_Join getTmpCacheDir (extractRepoName (Tui.URL config)) in
  exists w',
    resolveRepositoryPath_clone config w
    = (("", Some ("failed to clone repository: " +:+ e)), w')
    /\ trace w'
       = trace w ++ [EvMkdirAll getTmpCacheDir; EvRemoveAll repoPath;
                     EvClone (Tui.URL config) getTmpCacheDir]
    /\ (repoPath <> "" -> forall k, under repoPath k -> files w' !! k = None).
Proof.
  intros Hdir Hclone repoPath. unfold resolveRepositoryPath_clone.
  fold repoPath. unfold cloneRepository. run_io.
  destruct (files w !! getTmpCacheDir) as [[c| ]|] eqn:Hd; run_io.
  - exfalso. apply (Hdir c). reflexivity.
  - destruct (decide (repoPath = "")) as [Hempty|Hpath]; run_io;
      rewrite Hclone; run_io; eexists; (split; [reflexivity|]);
      (split; [rewrite <- !app_assoc; reflexivity|]).
    + intros Hne. contradiction.
    + intros _ k Hk. apply map_lookup_filter_None. right.
      intros n _ Hnot. apply Hnot. exact Hk.
  - destruct (decide (repoPath = "")) as [Hempty|Hpath]; run_io;
      rewrite Hclone; run_io; eexists; (split; [reflexivity|]);
      (split; [rewrite <- !app_assoc; reflexivity|]).
    + intros Hne. contradiction.
    + intros _ k Hk. apply map_lookup_filter_None. right.
      intros n _ Hnot. apply Hnot. exact Hk.
Qed.

(** The clone step when it succeeds: it ended with a successful [cacheRepo]
    of the path it returns. *)
Lemma clone_step_success (config : Tui.Config) (w w1 : World) (p : string) :
  resolveRepositoryPath_clone config w = ((p, None), w1) ->
  p = filepath_Join getTmpCacheDir (extractRepoName (Tui.URL config))
  /\ exists wc, cacheRepo (Tui.URL config) p wc = (None, w1).
Proof.
  unfold resolveRepositoryPath_clone.
  set (repoPath := filepath_Join getTmpCacheDir (extractRepoName (Tui.URL config))).
  unfold mbind at 1. unfold IO_bind at 1.
  destruct (os_MkdirAll getTmpCacheDir w) as [[err|] w2]; [discriminate|].
  unfold mbind at 1. unfold IO_bind at 1.
  destruct (os_RemoveAll repoPath w2) as [o w3].
  unfold mbind at 1. unfold IO_bind at 1.
  destruct (cloneRepository (Tui.URL config) getTmpCacheDir w3) as [[err|] w4];
    [discriminate|].
  unfold mbind at 1. unfold IO_bind at 1.
  destruct (cacheRepo (Tui.URL config) repoPath w4) as [[err|] w5] eqn:Hstore;
    [discriminate|].
  intros [= <- <-]. split; [reflexivity|]. exists w4. exact Hstore.
Qed.


Lemma Main_clone_failure (config : Main.Config) (w : World) (e : error) :
  (forall dir m, git_clone (Main.githubURL config) dir m = Err e) ->
  mkdirTemp_name (temps w) <> "" ->
  let tempDir := mkdirTemp_name (temps w) in
  exists w',
    Main.processRepository_clone config w
    = (("", false, Some ("failed to clone repository: " +:+ e)), w')
    /\ files w' = filter (fun kv => ~ under tempDir kv.1)
                    (<[tempDir := Directory]> (files w)).
Proof.
  intros Hclone Htemp tempDir. unfold Main.processRepository_clone.
  unfold Main.os_MkdirTemp, cloneRepository. run_io. fold tempDir.
  rewrite Hclone. run_io.
  destruct (decide (tempDir = "")) as [Hempty|_]; [contradiction|].
  run_io. eexists. split; reflexivity.
Qed.

End ResolveMore.

(** X12.  On a hit, the resolution of package [tui] returns the cached path
    and stops where the lookup stopped: it neither clones nor writes. *)
Theorem tui_resolution_uses_the_cache {P : PathLib} {Hst : HostLib}
    (config : Tui.Config) (w w' : World) (p : string) (t : Z) :
  Tui.Path config = "" -> Tui.URL config <> "" ->
  getCachedRepo (Tui.URL config) w = ((p, true, t, None), w') ->
  Tui.resolveRepositoryPath config w = ((p, None), w')
  /\ files w' = files w.
Proof.
  intros HP HU Hhit. split.
  - rewrite (Tui_resolve_after_lookup config w w' p true t HP HU Hhit).
    reflexivity.
  - destruct (getCachedRepo_outcomes w (Tui.URL config)) as (_ & _ & Hshape).
    rewrite Hhit in Hshape. apply (Hshape p t eq_refl).
Qed.

Lemma tui_resolution_uses_the_cache_witness :
  let w := Sample.world Scenario.cached 60 in
  let config := Scenario.tuiConfig Scenario.url "" in
  (Tui.resolveRepositoryPath (P := Sample.paths) (Hst := Sample.host) config w).1
  = ("/tmp/repo-concat-cache/checkout", None).
Proof.
  intros w config.
  destruct (@tui_resolution_uses_the_cache Sample.paths Sample.host config w
              (getCachedRepo (P := Sample.paths) (Hst := Sample.host)
                 Scenario.url w).2
              "/tmp/repo-concat-cache/checkout" 40 eq_refl)
    as [Hrun _]; [discriminate | reflexivity |].
  rewrite Hrun. reflexivity.
Defined.

(** X13.  When the lookup misses and the clone fails, the resolution of
    package [tui] returns "failed to clone repository" with the clone's
    error.  It has called the clone once and written no metadata; yet the
    directory it had cleared for the checkout stays cleared. *)
Theorem tui_failed_clone {P : PathLib} {Hst : HostLib}
    (config : Tui.Config) (w w' : World) (p : string) (t : Z) (e : error) :
  Tui.Path config = "" -> Tui.URL config <> "" ->
  getCachedRepo (Tui.URL config) w = ((p, false, t, None), w') ->
  (forall c, files w' !! getTmpCacheDir <> Some (RegularFile c)) ->
  (forall m, git_clone (Tui.URL config) getTmpCacheDir m = Err e) ->
  let repoPath := filepath_Join getTmpCacheDir (extractRepoName (Tui.URL config)) in
  exists w'',
    Tui.resolveRepositoryPath config w
    = (("", Some ("failed to clone repository: " +:+ e)), w'')
    /\ trace w''
       = trace w' ++ [EvMkdirAll getTmpCacheDir; EvRemoveAll repoPath;
                      EvClone (Tui.URL config) getTmpCacheDir]
    /\ (repoPath <> "" -> forall k, under repoPath k -> files w'' !! k = None).
Proof.
  intros HP HU Hmiss Hdir Hclone repoPath.
  rewrite (Tui_resolve_after_lookup config w w' p false t HP HU Hmiss).
  apply clone_step_failure; assumption.
Qed.

Lemma tui_failed_clone_witness :
  let w := Sample.world Scenario.disk 0 in
  let config := Scenario.tuiConfig Scenario.url "" in
  exists w'',
    Tui.resolveRepositoryPath (P := Sample.paths) (Hst := Offline.host) config w
    = (("", Some "failed to clone repository: exit status 128"), w'').
Proof.
  intros w config.
  assert (getCachedRepo (P := Sample.paths) (Hst := Offline.host)
            (Tui.URL config) w
          = (("", false, 0, None),
             (getCachedRepo (P := Sample.paths) (Hst := Offline.host)
                 Scenario.url w).2)) as Hmiss by (vm_compute; reflexivity).
  destruct (@tui_failed_clone Sample.paths Offline.host config w _
              "" 0 "exit status 128" eq_refl ltac:(discriminate) Hmiss)
    as (w'' & Hrun & _).
  - intros c. vm_compute. discriminate.
  - reflexivity.
  - exists w''. exact Hrun.
Defined.

(** X14.  A resolution of package [tui] that went through the clone is served
    from the cache the next time: if the checkout is where the resolution
    said, the codec gives back the entry it encoded, and the clock has
    advanced by no more than five minutes over any of its readings, then
    resolving again at once returns the same path and changes no file. *)
Theorem tui_resolution_is_cached {P : PathLib} {Hst : HostLib}
    (config : Tui.Config) (w w0 w1 : World) (p0 p : string) (t0 : Z) :
  Tui.Path config = "" -> Tui.URL config <> "" ->
  getCachedRepo (Tui.URL config) w = ((p0, false, t0, None), w0) ->
  Tui.resolveRepositoryPath config w = ((p, None), w1) ->
  (forall n m data,
      json_Marshal {| URL := Tui.URL config; CachedAt := clock w1 n;
                      RepoPath := p;
                      ExpiresAt := clock w1 m + 5 * time_Minute |} = Ok data ->
      json_Unmarshal data
      = Ok {| URL := Tui.URL config; CachedAt := clock w1 n;
              RepoPath := p;
              ExpiresAt := clock w1 m + 5 * time_Minute |}) ->
  (forall n, clock w1 (reads w1) <= clock w1 n + 5 * time_Minute) ->
  is_Some (files w1 !! p) ->
  exists w2,
    Tui.resolveRepositoryPath config w1 = ((p, None), w2)
    /\ files w2 = files w1.
Proof.
  intros HP HU Hmiss Hfirst Hcodec Hclock [n Hrepo].
  rewrite (Tui_resolve_after_lookup config w w0 p0 false t0 HP HU Hmiss) in Hfirst.
  destruct (clone_step_success config w0 w1 p Hfirst) as (_ & wc & Hstore).
  destruct (cacheRepo_stored wc w1 (Tui.URL config) p Hstore)
    as (data & Hmarshal & Hmeta & Hclk & Hreads).
  rewrite <- Hclk in Hmarshal.
  pose proof (Hcodec _ _ _ Hmarshal) as Hparse.
  assert (clock w1 (reads w1)
          <= ExpiresAt {| URL := Tui.URL config; CachedAt := clock w1 (reads wc);
                          RepoPath := p;
                          ExpiresAt := clock w1 (S (reads wc)) + 5 * time_Minute |})
    as Httl.
  { cbn [ExpiresAt]. apply Hclock. }
  destruct (getCachedRepo_at_expiry w1 (Tui.URL config) data _ n Hmeta Hparse
              Httl Hrepo) as (w2 & Hrun & Hfiles).
  exists w2. split; [|exact Hfiles].
  rewrite (Tui_resolve_after_lookup config w1 w2 p true _ HP HU Hrun).
  reflexivity.
Qed.

Lemma tui_resolution_is_cached_witness :
  let w := Sample.world Scenario.disk 0 in
  let config := Scenario.tuiConfig Scenario.url "" in
  let r := Tui.resolveRepositoryPath (P := Sample.paths) (Hst := Sample.host)
             config w in
  r.1 = ("/tmp/repo-concat-cache/repo", None)
  /\ exists w2,
       Tui.resolveRepositoryPath (P := Sample.paths) (Hst := Sample.host)
         config r.2
       = (("/tmp/repo-concat-cache/repo", None), w2)
       /\ files w2 = files r.2.
Proof.
  intros w config r.
  assert (r.1 = ("/tmp/repo-concat-cache/repo", None)) as Hfirst
    by (vm_compute; reflexivity).
  split; [exact Hfirst|].
  assert (getCachedRepo (P := Sample.paths) (Hst := Sample.host)
            (Tui.URL config) w
          = (("", false, 0, None),
             (getCachedRepo (P := Sample.paths) (Hst := Sample.host)
                 Scenario.url w).2)) as Hmiss by (vm_compute; reflexivity).
  assert (Tui.resolveRepositoryPath (P := Sample.paths) (Hst := Sample.host)
            config w = (("/tmp/repo-concat-cache/repo", None), r.2)) as Hrun.
  { rewrite <- Hfirst. unfold r. apply surjective_pairing. }
  apply (@tui_resolution_is_cached Sample.paths Sample.host config w _
           r.2 "" "/tmp/repo-concat-cache/repo" 0 eq_refl
           ltac:(discriminate) Hmiss Hrun).
  - intros n m data. vm_compute. intros [= <-]. reflexivity.
  - intros n. vm_compute. discriminate.
  - eexists. vm_compute. reflexivity.
Defined.



(** X16.  When the clone fails in [processRepository], the temporary
    directory made for it is removed again with everything below it, every
    other path is as before, and the error is "failed to clone repository"
    with the clone's error. *)
Theorem main_failed_clone_cleans_up {P : PathLib} {Hst : HostLib}
    (config : Main.Config) (w : World) (e : error) :
  (forall dir m, git_clone (Main.githubURL config) dir m = Err e) ->
  mkdirTemp_name (temps w) <> "" ->
  let tempDir := mkdirTemp_name (temps w) in
  let r := Main.processRepository_clone config w in
  r.1 = ("", false, Some ("failed to clone repository: " +:+ e))
  /\ (forall k, under tempDir k -> files r.2 !! k = None)
  /\ (forall k, ~ under tempDir k -> files r.2 !! k = files w !! k).
Proof.
  intros Hclone Htemp tempDir r.
  destruct (Main_clone_failure config w e Hclone Htemp) as (w' & Hrun & Hfiles).
  unfold r. rewrite Hrun. cbn [fst snd]. rewrite Hfiles. fold tempDir.
  split; [reflexivity|]. split.
  - intros k Hk. apply map_lookup_filter_None. right.
    intros n _ Hnot. apply Hnot. exact Hk.
  - intros k Hk.
    assert (k <> tempDir) as Hne.
    { intros ->. apply Hk. left. reflexivity. }
    rewrite <- (lookup_insert_ne (files w) tempDir k Directory) by congruence.
    destruct (<[tempDir:=Directory]> (files w) !! k) as [n|] eqn:Hnode.
    + apply map_lookup_filter_Some. split; [exact Hnode | exact Hk].
    + apply map_lookup_filter_None. left. exact Hnode.
Qed.

Lemma main_failed_clone_cleans_up_witness :
  let w := Sample.world Scenario.disk 0 in
  let r := Main.processRepository_clone (P := Sample.paths) (Hst := Offline.host)
             (Scenario.cliConfig Scenario.url "") w in
  r.1 = ("", false, Some "failed to clone repository: exit status 128")
  /\ files r.2 !! "/tmp/repo-concat-0" = None
  /\ files r.2 !! "/r/a.go" = Some (RegularFile Scenario.goFile).
Proof.
  intros w r.
  destruct (@main_failed_clone_cleans_up Sample.paths Offline.host
              (Scenario.cliConfig Scenario.url "") w "exit status 128")
    as (Hres & Hgone & Hkept).
  - intros dir m. reflexivity.
  - vm_compute. discriminate.
  - split; [exact Hres|]. split.
    + apply Hgone. left. vm_compute. reflexivity.
    + fold r in Hkept. rewrite (Hkept "/r/a.go").
      * vm_compute. reflexivity.
      * intros [Heq|Hpre]; [vm_compute in Heq; discriminate
                           | vm_compute in Hpre; discriminate].
Defined.

(** X17.  [main] hands over to [processRepository] exactly when the TUI flag
    is off and exactly one of the source and the local path is given, and then
    with the configuration unchanged; with the TUI flag it launches the TUI
    whatever the configuration holds. *)
Theorem main_dispatch (config : Main.Config) :
  (Main.main config = Main.CallProcessRepository config
   <-> Main.enableTUI config = false
       /\ ((Main.githubURL config = "" /\ Main.localPath config <> "")
           \/ (Main.githubURL config <> "" /\ Main.localPath config = "")))
  /\ (forall c, Main.main config = Main.CallProcessRepository c -> c = config)
  /\ (Main.enableTUI config = true <->
      exists tuiConfig, Main.main config = Main.RunTUI tuiConfig).
Proof.
  unfold Main.main.
  destruct (Main.enableTUI config) eqn:Htui.
  - split; [|split].
    + split; [discriminate | intros [[=] _]].
    + intros c [=].
    + split; [intros _; eexists; reflexivity | reflexivity].
  - destruct (String.eqb_spec (Main.githubURL config) "") as [HU|HU];
      destruct (String.eqb_spec (Main.localPath config) "") as [HP|HP];
      cbn [andb negb].
    + split; [|split].
      * split; [discriminate | intros (_ & [[_ H]|[H _]]); contradiction].
      * intros c [=].
      * split; [discriminate | intros [c [=]]].
    + split; [|split].
      * split; [intros _; split; [reflexivity | left; split; assumption]
               | reflexivity].
      * intros c [= <-]. reflexivity.
      * split; [discriminate | intros [c [=]]].
    + split; [|split].
      * split; [intros _; split; [reflexivity | right; split; assumption]
               | reflexivity].
      * intros c [= <-]. reflexivity.
      * split; [discriminate | intros [c [=]]].
    + split; [|split].
      * split; [discriminate | intros (_ & [[H _]|[_ H]]); contradiction].
      * intros c [=].
      * split; [discriminate | intros [c [=]]].
Qed.

Lemma main_dispatch_witness :
  Main.main (Scenario.cliConfig Scenario.url "")
  = Main.CallProcessRepository (Scenario.cliConfig Scenario.url "").
Proof.
  destruct (main_dispatch (Scenario.cliConfig Scenario.url "")) as [[_ Hcall] _].
  apply Hcall. split; [reflexivity|]. right. split; [discriminate | reflexivity].
Defined.

(** ** The repository name *)
Section RepoName.
Context {P : PathLib} {Hst : HostLib}.

Lemma Contains_cons (c : ascii) (s : string) (sep : ascii) :
  strings.Contains (String c s) (String sep "")
  = Ascii.eqb c sep || strings.Contains s (String sep "").
Proof.
  cbn [strings.Contains strings.HasPrefix]. rewrite andb_true_r. reflexivity.
Qed.

Lemma Split_parts_no_sep (s : string) (sep : ascii) :
  Forall (fun part => strings.Contains part (String sep "") = false)
    (strings.Split s sep).
Proof.
  induction s as [|c s IH]; cbn [strings.Split].
  - constructor; [reflexivity | constructor].
  - destruct (Ascii.eqb c sep) eqn:Hc.
    + constructor; [reflexivity | exact IH].
    + destruct (strings.Split s sep) as [|part parts].
      * constructor; [|constructor].
        rewrite Contains_cons, Hc. reflexivity.
      * inversion IH as [|? ? Hpart Hparts]; subst.
        constructor; [|exact Hparts].
        rewrite Contains_cons, Hc, Hpart. reflexivity.
Qed.

Lemma take_no_sep (n : nat) (s : string) (sep : ascii) :
  strings.Contains s (String sep "") = false ->
  strings.Contains (strings.take n s) (String sep "") = false.
Proof.
  revert n. induction s as [|c s IH]; intros [|n] Hs; try reflexivity.
  cbn [strings.take]. rewrite Contains_cons in *.
  apply orb_false_iff in Hs as [Hc Hs].
  rewrite Hc, (IH n Hs). reflexivity.
Qed.

Lemma TrimSuffix_no_sep (s suffix : string) (sep : ascii) :
  strings.Contains s (String sep "") = false ->
  strings.Contains (strings.TrimSuffix s suffix) (String sep "") = false.
Proof.
  intros Hs. unfold strings.TrimSuffix.
  destruct (strings.HasSuffix s suffix); [apply take_no_sep|]; exact Hs.
Qed.

Lemma last_Forall {A : Type} (Q : A -> Prop) (l : list A) (x : A) :
  Forall Q l -> last l = Some x -> Q x.
Proof.
  intros Hall Hlast. apply last_Some in Hlast as [l' ->].
  apply Forall_app in Hall as [_ Hx]. inversion Hx; assumption.
Qed.

End RepoName.

(** X18.  The name [extractRepoName] gives has no "/" in it, whatever the
    source and whatever the URL parser makes of it. *)
Theorem extractRepoName_is_one_segment {P : PathLib} {Hst : HostLib}
    (githubURL : string) :
  strings.Contains (extractRepoName githubURL) "/" = false.
Proof.
  unfold extractRepoName.
  destruct (url_Parse_Path githubURL) as [path|err].
  - pose proof (Split_parts_no_sep (strings.Trim path "/") "/") as Hparts.
    destruct (strings.Split (strings.Trim path "/") "/") as [|first [|name rest]];
      try reflexivity.
    inversion Hparts as [|? ? _ Htail]; subst.
    inversion Htail as [|? ? Hname _]; subst.
    apply TrimSuffix_no_sep. exact Hname.
  - pose proof (Split_parts_no_sep githubURL "/") as Hparts.
    destruct (last (strings.Split githubURL "/")) as [name|] eqn:Hlast;
      [|reflexivity].
    apply TrimSuffix_no_sep.
    exact (last_Forall _ _ _ Hparts Hlast).
Qed.

(** ** Sizes for display *)
Lemma scale_invariant (bytes : Z) (n div : Z) (exp : nat) :
  bytes < 2 ^ 63 -> 1 <= n ->
  div = Sizes.unit ^ Z.of_nat (S exp) ->
  div * n <= bytes < div * (n + 1) ->
  exists exp', (exp <= exp')%nat
    /\ Sizes.scale n div exp = (Sizes.unit ^ Z.of_nat (S exp'), exp')
    /\ Sizes.unit ^ Z.of_nat (S exp') <= bytes
       < Sizes.unit * Sizes.unit ^ Z.of_nat (S exp').
Proof.
  intros Hmax. funelim (Sizes.scale n div exp); intros Hn Hdiv Hbytes.
  - clear Heqcall Heq.
    unfold Sizes.unit in *.
    assert (0 < div) as Hpos by (subst div; apply Z.pow_pos_nonneg; lia).
    assert (Sizes.int64 (div * 1024) = div * 1024) as Hwrap.
    { unfold Sizes.int64. rewrite Z.mod_small; [lia|]. nia. }
    rewrite Hwrap in *.
    pose proof (Z.quot_rem' n 1024) as Hqr.
    pose proof (Z.rem_bound_pos n 1024 ltac:(lia) ltac:(lia)) as Hr.
    destruct (H bytes Hmax) as (exp' & Hle & Hrun & Hbound).
    + lia.
    + subst div. rewrite !Nat2Z.inj_succ, !Z.pow_succ_r by lia. lia.
    + nia.
    + exists exp'. split; [lia|]. split; assumption.
  - exists exp. split; [lia|]. subst div. split; [reflexivity|].
    unfold Sizes.unit in *.
    assert (0 < 1024 ^ Z.of_nat (S exp)) as Hpos by (apply Z.pow_pos_nonneg; lia).
    nia.
Qed.

(** X19.  For every int64 byte count, [formatSize] and [formatFileSize]
    index "KMGTPE" in range and their divisor never wraps: from 1024 bytes on
    the divisor handed to [fmt.Sprintf] is [1024^(exp+1)] for an [exp] that
    is an index of "KMGTPE", the byte count is at least the divisor and less
    than 1024 times the divisor, and the prefix is the letter at index
    [exp].  The rounding of the quotient by [%.1f] is not
    part of this statement.  Below 1024, negative counts included,
    [formatSize] formats the count itself and [formatFileSize] returns a
    fixed text. *)
Theorem size_scaling (bytes : Z) :
  Z.opp (2 ^ 63) <= bytes < 2 ^ 63 ->
  (bytes < 1024 ->
   Sizes.formatSize bytes = Sizes.SprintfBytes bytes
   /\ Sizes.formatFileSize bytes = Sizes.Literal "< 1KB")
  /\ (1024 <= bytes ->
      exists (exp : nat) (prefix : ascii),
        String.get exp "KMGTPE" = Some prefix
        /\ Sizes.formatSize bytes
           = Sizes.SprintfScaled bytes (1024 ^ Z.of_nat (S exp)) prefix
        /\ Sizes.formatFileSize bytes
           = Sizes.SprintfScaled bytes (1024 ^ Z.of_nat (S exp)) prefix
        /\ 1024 ^ Z.of_nat (S exp) <= bytes < 1024 * 1024 ^ Z.of_nat (S exp)).
Proof.
  intros [Hmin Hmax].
  unfold Sizes.formatSize, Sizes.formatFileSize, Sizes.unit. split.
  - intros Hsmall. apply Z.ltb_lt in Hsmall. rewrite Hsmall. split; reflexivity.
  - intros Hlarge.
    assert ((bytes <? 1024) = false) as -> by (apply Z.ltb_ge; lia).
    pose proof (Z.quot_rem' bytes 1024) as Hqr.
    pose proof (Z.rem_bound_pos bytes 1024 ltac:(lia) ltac:(lia)) as Hr.
    destruct (scale_invariant bytes (Z.quot bytes Sizes.unit) Sizes.unit 0 Hmax)
      as (exp & _ & Hrun & Hlo & Hhi).
    + unfold Sizes.unit. lia.
    + unfold Sizes.unit. reflexivity.
    + unfold Sizes.unit. lia.
    + unfold Sizes.unit in *.
      assert (exp <= 5)%nat as Hexp.
      { destruct (le_lt_dec exp 5) as [Hle|Hgt]; [exact Hle|]. exfalso.
        assert (1024 ^ 7 <= 1024 ^ Z.of_nat (S exp))
          by (apply Z.pow_le_mono_r; lia).
        lia. }
      unfold Sizes.scaled. unfold Sizes.unit. rewrite Hrun.
      assert (exists prefix, String.get exp "KMGTPE" = Some prefix)
        as [prefix Hprefix].
      { do 6 (destruct exp as [|exp]; [eexists; reflexivity|]). lia. }
      exists exp, prefix. rewrite Hprefix. repeat split; assumption.
Qed.

Lemma size_scaling_witness :
  Sizes.formatSize 1536 = Sizes.SprintfScaled 1536 1024 "K"
  /\ Sizes.formatFileSize (2 ^ 63 - 1) = Sizes.SprintfScaled (2 ^ 63 - 1) (2 ^ 60) "E".
Proof.
  split.
  - destruct (size_scaling 1536 ltac:(lia)) as [_ Hlarge].
    destruct (Hlarge ltac:(lia)) as (exp & prefix & Hprefix & Hrun & _ & Hlo & Hhi).
    assert (exp = 0%nat) as ->.
    { destruct exp as [|exp]; [reflexivity|]. exfalso.
      assert (1024 ^ 2 <= 1024 ^ Z.of_nat (S (S exp)))
        by (apply Z.pow_le_mono_r; lia).
      lia. }
    rewrite Hrun. injection Hprefix as <-. reflexivity.
  - destruct (size_scaling (2 ^ 63 - 1) ltac:(lia)) as [_ Hlarge].
    destruct (Hlarge ltac:(lia)) as (exp & prefix & Hprefix & _ & Hrun & Hlo & Hhi).
    assert (exp = 5%nat) as ->.
    { destruct (lt_eq_lt_dec exp 5) as [[Hlt|Heq]|Hgt]; [exfalso|exact Heq|exfalso].
      - assert (1024 ^ Z.of_nat (S exp) <= 1024 ^ 5)
          by (apply Z.pow_le_mono_r; lia).
        lia.
      - assert (1024 ^ 7 <= 1024 ^ Z.of_nat (S exp))
          by (apply Z.pow_le_mono_r; lia).
        lia. }
    rewrite Hrun. injection Hprefix as <-. reflexivity.
Defined.

(** ** The output text *)
Section ConcatFacts.
Context {P : PathLib}.
Variable time_Format : Z -> string.

Lemma concatenateFiles_loop_spec (rootPath : string) (paths : list string)
    (result : string) (w : World) :
  Concat.concatenateFiles_loop rootPath paths result w
  = (result +:+ foldr String.app "" (Concat.blocksOf (files w) rootPath paths),
     mkWorld (files w) (clock w) (reads w) (temps w)
       (trace w ++ flat_map (Concat.eventsOf (files w) rootPath) paths)).
Proof.
  revert result w. induction paths as [|filePath rest IH]; intros result w.
  - unfold Concat.blocksOf. cbn [Concat.concatenateFiles_loop flat_map foldr].
    rewrite append_nil_r, app_nil_r. destruct w; reflexivity.
  - cbn [Concat.concatenateFiles_loop]. unfold Concat.concatenateFiles_step.
    unfold Concat.blocksOf. cbn [flat_map]. unfold Concat.eventsOf at 1.
    fold (Concat.blocksOf (files w) rootPath rest).
    run_io.
    destruct (files w !! filePath) as [[content| ]|] eqn:Hnode; run_io;
      rewrite IH; cbn [files clock reads temps trace foldr app];
      rewrite <- ?app_assoc, ?append_assoc; reflexivity.
Qed.

Lemma concatenateFiles_spec (paths : list string) (rootPath : string)
    (w : World) :
  Concat.concatenateFiles time_Format paths rootPath w
  = ((Concat.header (time_Format (clock w (reads w))) (length paths)
      +:+ foldr String.app "" (Concat.blocksOf (files w) rootPath paths), None),
     mkWorld (files w) (clock w) (S (reads w)) (temps w)
       (trace w ++ flat_map (Concat.eventsOf (files w) rootPath) paths)).
Proof.
  unfold Concat.concatenateFiles. run_io.
  rewrite concatenateFiles_loop_spec. reflexivity.
Qed.

Lemma readable_blocks (m : gmap string Node) (rootPath : string)
    (paths : list string) :
  Forall (fun filePath => exists content, m !! filePath = Some (RegularFile content))
    paths ->
  flat_map (Concat.eventsOf m rootPath) paths = map EvReadFile paths
  /\ exists contents,
       Forall2 (fun filePath content => m !! filePath = Some (RegularFile content))
         paths contents
       /\ Concat.blocksOf m rootPath paths
          = zip_with (fun filePath content =>
                        Concat.fileBlock
                          (Concat.relativeOrFull rootPath filePath) content)
              paths contents.
Proof.
  induction 1 as [|filePath rest [content Hnode] _ [IHev (contents & IHc & IHb)]].
  - split; [reflexivity|]. exists []. split; [constructor | reflexivity].
  - split.
    + cbn [flat_map map]. unfold Concat.eventsOf at 1. rewrite Hnode, IHev.
      reflexivity.
    + exists (content :: contents). split; [constructor; assumption|].
      unfold Concat.blocksOf in *. cbn [flat_map zip_with]. rewrite Hnode, IHb.
      reflexivity.
Qed.

End ConcatFacts.

(** X20.  [concatenateFiles] never fails and changes no file.  Its text is the
    header, which counts every path it was given, followed by one block for
    each path that is a regular file, in the order given; a path it cannot
    read adds a warning on standard output and nothing to the text. *)
Theorem concatenateFiles_output {P : PathLib} (time_Format : Z -> string)
    (paths : list string) (rootPath : string) (w : World) :
  let r := Concat.concatenateFiles time_Format paths rootPath w in
  r.1 = (Concat.header (time_Format (clock w (reads w))) (length paths)
         +:+ foldr String.app "" (Concat.blocksOf (files w) rootPath paths),
         None)
  /\ files r.2 = files w
  /\ trace r.2 = trace w ++ flat_map (Concat.eventsOf (files w) rootPath) paths.
Proof.
  intros r. unfold r. rewrite concatenateFiles_spec.
  split; [reflexivity|]. split; reflexivity.
Qed.

(** X21.  Every file [collectFiles] returned is read by [concatenateFiles]
    when the tree has not changed in between: no warning is printed, and
    the text has one block per collected file, in the order collected,
    whether the walk was aborted or not. *)
Theorem collected_files_are_all_written {L : RegexpLib} {P : PathLib}
    (time_Format : Z -> string) (Walk : string -> list WalkEntry)
    (rootPath : string) (exclusionPatterns inclusionPatterns : list string)
    (w : World) :
  let paths := (Main.collectFiles Walk (files w) rootPath exclusionPatterns
                  inclusionPatterns).1 in
  let r := Concat.concatenateFiles time_Format paths rootPath w in
  trace r.2 = trace w ++ map EvReadFile paths
  /\ exists contents,
       Forall2 (fun filePath content =>
                  files w !! filePath = Some (RegularFile content))
         paths contents
       /\ r.1 = (Concat.header (time_Format (clock w (reads w))) (length paths)
                 +:+ foldr String.app ""
                       (zip_with (fun filePath content =>
                                    Concat.fileBlock
                                      (Concat.relativeOrFull rootPath filePath)
                                      content)
                          paths contents),
                 None).
Proof.
  intros paths r.
  assert (Forall (fun filePath =>
                    exists content, files w !! filePath = Some (RegularFile content))
            paths) as Hreadable.
  { apply List.Forall_forall. intros filePath Hin. unfold paths in Hin.
    rewrite Main_collect_dry in Hin. cbn [fst] in Hin.
    apply Main_included_kept in Hin. unfold Verdict.main_keeps in Hin.
    destruct (filepath_Rel rootPath filePath); [|discriminate].
    apply andb_prop in Hin as [Hin _]. apply andb_prop in Hin as [Htext _].
    unfold Main.isTextFile, open_and_read in Htext.
    destruct (files w !! filePath) as [[content| ]|];
      [exists content; reflexivity | discriminate | discriminate]. }
  destruct (readable_blocks (files w) rootPath paths Hreadable)
    as (Hev & contents & Hc & Hb).
  unfold r. rewrite concatenateFiles_spec. cbn [fst snd trace].
  rewrite Hev, Hb. split; [reflexivity|].
  exists contents. split; [exact Hc | reflexivity].
Qed.

(** ** Narrowing the filters *)
Section Narrowing.
Context {L : RegexpLib} {P : PathLib}.
Variable disk : gmap string Node.

Lemma existsb_subset {A : Type} (f : A -> bool) (l l' : list A) :
  (forall x, In x l -> In x l') ->
  existsb f l = true -> existsb f l' = true.
Proof.
  intros Hsub Hl. apply existsb_exists in Hl as (x & Hx & Hf).
  apply existsb_exists. exists x. split; [apply Hsub; exact Hx | exact Hf].
Qed.

Lemma app_subset_l {A : Type} (l l' d : list A) :
  (forall x, In x l -> In x l') -> forall x, In x (l ++ d) -> In x (l' ++ d).
Proof.
  intros Hsub x Hx. apply in_app_iff in Hx as [Hx|Hx]; apply in_app_iff;
    [left; apply Hsub; exact Hx | right; exact Hx].
Qed.

Lemma app_subset_r {A : Type} (l l' d : list A) :
  (forall x, In x l -> In x l') -> forall x, In x (d ++ l) -> In x (d ++ l').
Proof.
  intros Hsub x Hx. apply in_app_iff in Hx as [Hx|Hx]; apply in_app_iff;
    [left; exact Hx | right; apply Hsub; exact Hx].
Qed.

Lemma inclusion_narrows {A : Type} (f : A -> bool) (incl incl' : list A) :
  incl = [] \/ (incl' <> [] /\ forall x, In x incl' -> In x incl) ->
  (length incl' =? 0)%nat || existsb f incl' = true ->
  (length incl =? 0)%nat || existsb f incl = true.
Proof.
  intros [->|[Hne Hsub]] Hk; [reflexivity|].
  destruct incl' as [|x incl']; [contradiction|].
  cbn [length Nat.eqb orb] in Hk.
  rewrite (existsb_subset f _ _ Hsub Hk). apply orb_true_r.
Qed.

Lemma main_keeps_narrows (root : string) (excl excl' incl incl' : list string)
    (path : string) :
  (forall p, In p excl -> In p excl') ->
  incl = [] \/ (incl' <> [] /\ forall p, In p incl' -> In p incl) ->
  Verdict.main_keeps disk root excl' incl' path = true ->
  Verdict.main_keeps disk root excl incl path = true.
Proof.
  intros Hex Hin. unfold Verdict.main_keeps.
  destruct (filepath_Rel root path) as [rel|]; [|discriminate].
  intros Hk. apply andb_prop in Hk as [Hk Hi]. apply andb_prop in Hk as [Ht He].
  rewrite Ht, (inclusion_narrows _ _ _ Hin Hi), andb_true_r. cbn [andb].
  apply negb_true_iff. apply negb_true_iff in He.
  destruct (existsb _ (excl ++ defaultExclusionPatterns)) eqn:Hsome;
    [|reflexivity].
  rewrite <- He. symmetry. apply (existsb_subset _ _ _ (app_subset_l _ _ _ Hex) Hsome).
Qed.

Lemma tui_keeps_narrows (root : string) (excl excl' incl incl' : list string)
    (path : string) :
  (forall p, In p excl -> In p excl') ->
  incl = [] \/ (incl' <> [] /\ forall p, In p incl' -> In p incl) ->
  Verdict.tui_keeps disk root excl' incl' path = true ->
  Verdict.tui_keeps disk root excl incl path = true.
Proof.
  intros Hex Hin. unfold Verdict.tui_keeps.
  intros Hk. apply andb_prop in Hk as [Ht Hk]. rewrite Ht. cbn [andb].
  destruct (filepath_Rel root path) as [rel|]; [|discriminate].
  apply andb_prop in Hk as [He Hi].
  rewrite (inclusion_narrows _ _ _ Hin Hi), andb_true_r.
  apply negb_true_iff. apply negb_true_iff in He.
  destruct (existsb _ (defaultExclusionPatterns ++ excl)) eqn:Hsome;
    [|reflexivity].
  rewrite <- He. symmetry. apply (existsb_subset _ _ _ (app_subset_r _ _ _ Hex) Hsome).
Qed.

Lemma kept_sublist (keeps keeps' : string -> bool) (entries : list WalkEntry) :
  (forall path, keeps' path = true -> keeps path = true) ->
  sublist (Verdict.kept keeps' entries) (Verdict.kept keeps entries).
Proof.
  intros Hk. unfold Verdict.kept.
  induction entries as [|e entries IH]; cbn [List.filter map]; [constructor|].
  destruct (IsDir (we_info e)); cbn [negb andb]; [exact IH|].
  destruct (keeps' (we_path e)) eqn:Hk'.
  - rewrite (Hk _ Hk'). cbn [map]. apply sublist_skip. exact IH.
  - destruct (keeps (we_path e)); cbn [map]; [apply sublist_cons|]; exact IH.
Qed.

Lemma Main_collect_is_filter (Walk : string -> list WalkEntry) (root : string)
    (excl incl : list string) (paths : list string) :
  Main.collectFiles Walk disk root excl incl = (paths, None) ->
  paths = Verdict.kept (Verdict.main_keeps disk root excl incl) (Walk root).
Proof.
  rewrite Main_collect_dry. unfold Main.performDryRun.
  destruct (Main.validatePatterns "exclusion" excl); [discriminate|].
  destruct (Main.validatePatterns "inclusion" incl); [discriminate|].
  destruct (filepath_Walk (Walk root) _ _) as [[i x] o] eqn:Hw.
  cbn [fst snd]. intros [= -> ->].
  apply Main_walk_is_filter in Hw. apply Hw.
Qed.

Lemma Tui_collect_is_filter (Walk : string -> list WalkEntry) (root : string)
    (excl incl : list string) (paths : list string) :
  Tui.collectFiles Walk disk root excl incl = (paths, None) ->
  paths = Verdict.kept (Verdict.tui_keeps disk root excl incl) (Walk root).
Proof.
  unfold Tui.collectFiles, Tui.performDryRun.
  destruct (Tui.validatePatterns "exclusion" excl); [discriminate|].
  destruct (Tui.validatePatterns "inclusion" incl); [discriminate|].
  destruct (filepath_Walk (Walk root) _ _) as [[i x] o] eqn:Hw.
  intros [= -> ->].
  apply Tui_walk_is_filter in Hw. apply Hw.
Qed.

End Narrowing.

(** X22.  Narrowing the filters never adds a file.  When every exclusion
    pattern of one scan is also given to a second one, and the second one's
    inclusion patterns, of which there is at least one, are among the first
    one's (or the first has none), then what the second scan collects is
    what the first collects with some files left out, in the same order. *)
Theorem narrower_filters_collect_less {L : RegexpLib} {P : PathLib}
    (Walk : string -> list WalkEntry) (disk : gmap string Node)
    (rootPath : string)
    (exclusionPatterns exclusionPatterns' : list string)
    (inclusionPatterns inclusionPatterns' : list string)
    (paths paths' : list string) :
  (forall p, In p exclusionPatterns -> In p exclusionPatterns') ->
  inclusionPatterns = []
  \/ (inclusionPatterns' <> []
      /\ forall p, In p inclusionPatterns' -> In p inclusionPatterns) ->
  (Main.collectFiles Walk disk rootPath exclusionPatterns inclusionPatterns
   = (paths, None) ->
   Main.collectFiles Walk disk rootPath exclusionPatterns' inclusionPatterns'
   = (paths', None) ->
   sublist paths' paths)
  /\ (Tui.collectFiles Walk disk rootPath exclusionPatterns inclusionPatterns
      = (paths, None) ->
      Tui.collectFiles Walk disk rootPath exclusionPatterns' inclusionPatterns'
      = (paths', None) ->
      sublist paths' paths).
Proof.
  intros Hex Hin. split; intros Hwide Hnarrow.
  - apply Main_collect_is_filter in Hwide, Hnarrow. subst paths paths'.
    apply kept_sublist. intros path.
    apply main_keeps_narrows; assumption.
  - apply Tui_collect_is_filter in Hwide, Hnarrow. subst paths paths'.
    apply kept_sublist. intros path.
    apply tui_keeps_narrows; assumption.
Qed.

Lemma narrower_filters_collect_less_witness :
  sublist ["/w/a.go"] ["/w/a.go"; "/w/b.txt"].
Proof.
  destruct (@narrower_filters_collect_less RE2Fragment.lib Sample.paths
              Scenario.specTreeWalk Scenario.specTree "/w"
              [] ["b.txt"] [] [] ["/w/a.go"; "/w/b.txt"] ["/w/a.go"])
    as [HMain _].
  - intros p [].
  - left. reflexivity.
  - apply HMain; vm_compute; reflexivity.
Defined.
